(** * Verification of the ONLYOFFICE file utility (package [onlyoffice], file.go)

    The development embeds the Go package shallowly:
    - a Go [string] is a Rocq [string], that is a sequence of 8-bit bytes;
    - Go's [int], [int64], [rune] and [byte] values are integers in [Z], with
      the conversions ([byte(r)], [uint32(r)], [rune(x) << 31 >> 31]) written
      out where the code relies on them;
    - a Go [map[string]string] is a [gmap string string], built from the
      composite literal of the source kept as an association list;
    - the package-level variables form an explicit store threaded through
      every method of [fileUtility] by a small state monad;
    - the standard-library functions that file.go calls ([strings.ToLower],
      [strings.ReplaceAll], [strings.TrimSuffix], [filepath.Ext],
      [strconv.ParseInt], [http.Header.Get]) are modelled after their Go
      implementation, each in a module named after its Go package;
    - what the platform supplies is a parameter: the lower-case mapping of
      the Unicode tables, the path separators of the operating system, the
      size of an [int], and the answer of the network to a HEAD request.

    The definitions come first; the checks on concrete inputs and the
    theorems follow. *)

From Stdlib Require Import ZArith Lia Ascii String.
From stdpp Require Import base gmap strings list.

Local Open Scope Z_scope.

(** * Bytes and byte strings *)

(** [s[i]] read as an integer, the truncating conversion [byte(z)] as an
    integer ([trunc8]) and as a byte of a string ([byte_of_Z]). *)
Definition Z_of_byte (c : ascii) : Z := Z.of_N (N_of_ascii c).
Definition trunc8 (z : Z) : Z := z mod 2 ^ 8.
Definition byte_of_Z (z : Z) : ascii := ascii_of_N (Z.to_N (trunc8 z)).

(** [uint32(r)] and the wrap-around of a 32-bit signed [rune]. *)
Definition uint32 (z : Z) : Z := z mod 2 ^ 32.
Definition int32 (z : Z) : Z := (z + 2 ^ 31) mod 2 ^ 32 - 2 ^ 31.

(** [len(s)] *)
Definition len (s : string) : Z := Z.of_nat (String.length s).

(** [s[n:]] and [s[:n]]; both clamp at the end of the string, which the
    callers below never reach. *)
Fixpoint strdrop (n : nat) (s : string) : string :=
  match n, s with
  | O, _ => s
  | S n', String _ t => strdrop n' t
  | S _, EmptyString => EmptyString
  end.

Fixpoint strtake (n : nat) (s : string) : string :=
  match n, s with
  | O, _ => EmptyString
  | S n', String c t => String c (strtake n' t)
  | S _, EmptyString => EmptyString
  end.

Definition slice_from (s : string) (i : Z) : string := strdrop (Z.to_nat i) s.
Definition slice_to (s : string) (i : Z) : string := strtake (Z.to_nat i) s.

(** [s[i]] for an index the caller has checked to be in range; 0 stands
    for the run-time panic of an index out of range. *)
Definition index (s : string) (i : nat) : Z :=
  match String.get i s with
  | Some c => Z_of_byte c
  | None => 0
  end.

(** * Package unicode/utf8 *)

Module utf8.

Definition RuneError : Z := 0xFFFD.
Definition RuneSelf : Z := 0x80.
Definition MaxRune : Z := 0x10FFFF.
Definition UTFMax : Z := 4.

Definition surrogateMin : Z := 0xD800.
Definition surrogateMax : Z := 0xDFFF.

Definition tx : Z := 0x80.
Definition t2 : Z := 0xC0.
Definition t3 : Z := 0xE0.
Definition t4 : Z := 0xF0.

Definition maskx : Z := 0x3F.
Definition mask2 : Z := 0x1F.
Definition mask3 : Z := 0x0F.
Definition mask4 : Z := 0x07.

Definition rune1Max : Z := Z.shiftl 1 7 - 1.
Definition rune2Max : Z := Z.shiftl 1 11 - 1.
Definition rune3Max : Z := Z.shiftl 1 16 - 1.

Definition locb : Z := 0x80.
Definition hicb : Z := 0xBF.

(** Information about the first byte of an encoding: the size in the low
    three bits, the index into [acceptRanges] in the high four. *)
Definition xx : Z := 0xF1.
Definition as_ : Z := 0xF0.
Definition s1 : Z := 0x02.
Definition s2 : Z := 0x13.
Definition s3 : Z := 0x03.
Definition s4 : Z := 0x23.
Definition s5 : Z := 0x34.
Definition s6 : Z := 0x04.
Definition s7 : Z := 0x44.

(** The 256-entry table [first], row by row. *)
Definition first (b : Z) : Z :=
  if b <? 0x80 then as_          (* 0x00-0x7F *)
  else if b <? 0xC2 then xx      (* 0x80-0xC1 *)
  else if b <? 0xE0 then s1      (* 0xC2-0xDF *)
  else if b =? 0xE0 then s2
  else if b <? 0xED then s3      (* 0xE1-0xEC *)
  else if b =? 0xED then s4
  else if b <? 0xF0 then s3      (* 0xEE-0xEF *)
  else if b =? 0xF0 then s5
  else if b <? 0xF4 then s6      (* 0xF1-0xF3 *)
  else if b =? 0xF4 then s7
  else xx.                       (* 0xF5-0xFF *)

(** [acceptRanges]: the range of valid second bytes. *)
Definition acceptRanges (i : Z) : Z * Z :=
  if i =? 0 then (locb, hicb)
  else if i =? 1 then (0xA0, hicb)
  else if i =? 2 then (locb, 0x9F)
  else if i =? 3 then (0x90, hicb)
  else if i =? 4 then (locb, 0x8F)
  else (0, 0).

(** [DecodeRuneInString]: the first rune of [s] and its width in bytes.
    An invalid encoding yields [(RuneError, 1)], the empty string
    [(RuneError, 0)]. *)
Definition DecodeRuneInString (s : string) : Z * Z :=
  let n := len s in
  if n <? 1 then (RuneError, 0)
  else
    let s0 := index s 0 in
    let x := first s0 in
    if as_ <=? x then
      let mask := Z.shiftr (int32 (Z.shiftl x 31)) 31 in
      (Z.lor (Z.land s0 (Z.lnot mask)) (Z.land RuneError mask), 1)
    else
      let sz := Z.land x 7 in
      let accept := acceptRanges (Z.shiftr x 4) in
      if n <? sz then (RuneError, 1)
      else
        let s1 := index s 1 in
        if (s1 <? fst accept) || (snd accept <? s1) then (RuneError, 1)
        else if sz <=? 2 then
          (Z.lor (Z.shiftl (Z.land s0 mask2) 6) (Z.land s1 maskx), 2)
        else
          let s2 := index s 2 in
          if (s2 <? locb) || (hicb <? s2) then (RuneError, 1)
          else if sz <=? 3 then
            (Z.lor (Z.lor (Z.shiftl (Z.land s0 mask3) 12)
                          (Z.shiftl (Z.land s1 maskx) 6))
                   (Z.land s2 maskx), 3)
          else
            let s3 := index s 3 in
            if (s3 <? locb) || (hicb <? s3) then (RuneError, 1)
            else
              (Z.lor (Z.lor (Z.lor (Z.shiftl (Z.land s0 mask4) 18)
                                   (Z.shiftl (Z.land s1 maskx) 12))
                            (Z.shiftl (Z.land s2 maskx) 6))
                     (Z.land s3 maskx), 4).

(** [RuneLen]: the number of bytes of the encoding of [r], -1 when [r]
    is not a valid value to encode. *)
Definition RuneLen (r : Z) : Z :=
  if r <? 0 then -1
  else if r <=? rune1Max then 1
  else if r <=? rune2Max then 2
  else if (surrogateMin <=? r) && (r <=? surrogateMax) then -1
  else if r <=? rune3Max then 3
  else if r <=? MaxRune then 4
  else -1.

Definition bytes1 (b0 : Z) : string :=
  String (byte_of_Z b0) EmptyString.
Definition bytes2 (b0 b1 : Z) : string :=
  String (byte_of_Z b0) (bytes1 b1).
Definition bytes3 (b0 b1 b2 : Z) : string :=
  String (byte_of_Z b0) (bytes2 b1 b2).
Definition bytes4 (b0 b1 b2 b3 : Z) : string :=
  String (byte_of_Z b0) (bytes3 b1 b2 b3).

(** The three-byte encoding shared by the BMP case and the replacement of
    an invalid rune. *)
Definition encode3 (r : Z) : string :=
  bytes3 (Z.lor t3 (trunc8 (Z.shiftr r 12)))
         (Z.lor tx (Z.land (trunc8 (Z.shiftr r 6)) maskx))
         (Z.lor tx (Z.land (trunc8 r) maskx)).

(** [AppendRune]: [p] followed by the UTF-8 encoding of [r]; a rune out
    of range or a surrogate half is written as [RuneError]. *)
Definition AppendRune (p : string) (r : Z) : string :=
  let i := uint32 r in
  if i <=? rune1Max then p +:+ bytes1 r
  else if i <=? rune2Max then
    p +:+ bytes2 (Z.lor t2 (trunc8 (Z.shiftr r 6)))
                 (Z.lor tx (Z.land (trunc8 r) maskx))
  else if (MaxRune <? i) || ((surrogateMin <=? i) && (i <=? surrogateMax)) then
    p +:+ encode3 RuneError
  else if i <=? rune3Max then
    p +:+ encode3 r
  else
    p +:+ bytes4 (Z.lor t4 (trunc8 (Z.shiftr r 18)))
                 (Z.lor tx (Z.land (trunc8 (Z.shiftr r 12)) maskx))
                 (Z.lor tx (Z.land (trunc8 (Z.shiftr r 6)) maskx))
                 (Z.lor tx (Z.land (trunc8 r) maskx)).

End utf8.

(** * Package unicode *)

Module unicode.

Definition MaxASCII : Z := 0x7F.

Section CaseTables.
(** [To(LowerCase, r)]: a binary search in [CaseRanges], a table generated
    from the Unicode character database. The table is data outside the
    package; the lookup is a parameter of the development. *)
Variable To_LowerCase : Z → Z.

Definition ToLower (r : Z) : Z :=
  if r <=? MaxASCII then
    if (Z_of_byte "A" <=? r) && (r <=? Z_of_byte "Z")
    then r + (Z_of_byte "a" - Z_of_byte "A")
    else r
  else To_LowerCase r.
End CaseTables.

End unicode.

(** * Package strings *)

Module strings.

(** ** [Map] *)

Section Map.
Variable mapping : Z → Z.

(** The first loop of [Map], [for i, c := range s]: it looks for the
    first rune that the mapping changes, or that is an invalid byte.
    [rest] is [s[i:]]; each turn consumes the bytes of one rune, so
    [len(s)] turns of [fuel] always reach the end. The result is the
    buffer [b] and the unread part of [s] at the [break], or [None]
    when the loop ends without having written. *)
Fixpoint Map_head (fuel : nat) (s : string) (i : Z) (rest : string)
  : option (string * string) :=
  match fuel with
  | O => None
  | S fuel' =>
    if len rest <? 1 then None
    else
      let '(c, w) := utf8.DecodeRuneInString rest in
      let r := mapping c in
      if (r =? c) && negb (c =? utf8.RuneError) then
        Map_head fuel' s (i + w) (slice_from rest w)
      else
        let '(c', width) :=
          if c =? utf8.RuneError
          then utf8.DecodeRuneInString (slice_from s i)
          else (c, utf8.RuneLen c) in
        if (c =? utf8.RuneError) && negb (width =? 1) && (r =? c') then
          Map_head fuel' s (i + w) (slice_from rest w)
        else
          let b := slice_to s i in
          let b := if 0 <=? r then utf8.AppendRune b r else b in
          Some (b, slice_from s (i + width))
  end.

(** The second loop, [for _, c := range s], appending to [b]. *)
Fixpoint Map_tail (fuel : nat) (b : string) (s : string) : string :=
  match fuel with
  | O => b
  | S fuel' =>
    if len s <? 1 then b
    else
      let '(c, w) := utf8.DecodeRuneInString s in
      let r := mapping c in
      let b :=
        if 0 <=? r then
          if r <? utf8.RuneSelf then b +:+ utf8.bytes1 r
          else utf8.AppendRune b r
        else b in
      Map_tail fuel' b (slice_from s w)
  end.

Definition Map (s : string) : string :=
  match Map_head (String.length s) s 0 s with
  | None => s
  | Some (b, s') => Map_tail (String.length s') b s'
  end.
End Map.

(** ** [ToLower] *)

Definition isUpperByte (c : Z) : bool :=
  (Z_of_byte "A" <=? c) && (c <=? Z_of_byte "Z").

(** The scan of [ToLower]: [(isASCII, hasUpper)] at the end of the loop,
    which breaks at the first byte that is not ASCII. *)
Fixpoint scanASCII (s : string) (hasUpper : bool) : bool * bool :=
  match s with
  | EmptyString => (true, hasUpper)
  | String c t =>
    if utf8.RuneSelf <=? Z_of_byte c then (false, hasUpper)
    else scanASCII t (hasUpper || isUpperByte (Z_of_byte c))
  end.

(** The ASCII branch: the bytes ['A'..'Z'] are shifted by ['a' - 'A'], the
    runs of other bytes between them are copied. *)
Fixpoint lowerASCII (s : string) : string :=
  match s with
  | EmptyString => EmptyString
  | String c t =>
    let c' :=
      if isUpperByte (Z_of_byte c)
      then byte_of_Z (Z_of_byte c + (Z_of_byte "a" - Z_of_byte "A"))
      else c in
    String c' (lowerASCII t)
  end.

Section ToLower.
Variable To_LowerCase : Z → Z.

Definition ToLower (s : string) : string :=
  let '(isASCII, hasUpper) := scanASCII s false in
  if isASCII then
    if negb hasUpper then s else lowerASCII s
  else Map (unicode.ToLower To_LowerCase) s.
End ToLower.

(** ** [Index], [Count], [Replace], [ReplaceAll] *)

(** [HasPrefix] *)
Definition HasPrefix (s prefix : string) : bool := String.prefix prefix s.

(** [Index(s, substr)]: the position of the first instance of [substr] in
    [s], or -1. *)
Fixpoint Index (s substr : string) : Z :=
  if HasPrefix s substr then 0
  else
    match s with
    | EmptyString => -1
    | String _ t =>
      let i := Index t substr in
      if i <? 0 then -1 else i + 1
    end.

(** [utf8.RuneCountInString] *)
Fixpoint RuneCount (fuel : nat) (s : string) : Z :=
  match fuel with
  | O => 0
  | S fuel' =>
    if len s <? 1 then 0
    else 1 + RuneCount fuel' (slice_from s (snd (utf8.DecodeRuneInString s)))
  end.

(** [Count(s, substr)]: the number of non-overlapping instances. *)
Fixpoint Count_loop (fuel : nat) (s substr : string) : Z :=
  match fuel with
  | O => 0
  | S fuel' =>
    let i := Index s substr in
    if i =? -1 then 0
    else 1 + Count_loop fuel' (slice_from s (i + len substr)) substr
  end.

Definition Count (s substr : string) : Z :=
  if len substr =? 0 then RuneCount (String.length s) s + 1
  else Count_loop (S (String.length s)) s substr.

(** The replacement loop of [Replace], [for i := 0; i < n; i++]. The model
    carries [s[start:]] as [rest] instead of the index [start]; [k] is
    the number of turns left and [i0] tells whether [i = 0]. *)
Fixpoint Replace_loop (k : nat) (i0 : bool) (rest old new b : string) : string :=
  match k with
  | O => b +:+ rest
  | S k' =>
    let j :=
      if len old =? 0 then
        if i0 then 0 else snd (utf8.DecodeRuneInString rest)
      else Index rest old in
    Replace_loop k' false (slice_from rest (j + len old)) old new
                 (b +:+ slice_to rest j +:+ new)
  end.

Definition Replace (s old new : string) (n : Z) : string :=
  if bool_decide (old = new) || (n =? 0) then s
  else
    let m := Count s old in
    if m =? 0 then s
    else
      let n := if (n <? 0) || (m <? n) then m else n in
      Replace_loop (Z.to_nat n) true s old new EmptyString.

Definition ReplaceAll (s old new : string) : string := Replace s old new (-1).

(** ** [HasSuffix], [TrimSuffix] *)

Definition HasSuffix (s suffix : string) : bool :=
  (len suffix <=? len s) &&
  bool_decide (slice_from s (len s - len suffix) = suffix).

Definition TrimSuffix (s suffix : string) : string :=
  if HasSuffix s suffix then slice_to s (len s - len suffix) else s.

End strings.

(** * Package path/filepath *)

Module filepath.

Section Ext.
(** [os.IsPathSeparator]: ['/'] on Unix, ['/'] or ['\'] on Windows. *)
Variable IsPathSeparator : ascii → bool.

(** The loop of [Ext], [for i := len(path) - 1; i >= 0 && ...; i--];
    [k] is [i + 1]. *)
Fixpoint Ext_loop (k : nat) (path : string) : string :=
  match k with
  | O => EmptyString
  | S i =>
    match String.get i path with
    | None => EmptyString
    | Some c =>
      if IsPathSeparator c then EmptyString
      else if bool_decide (c = "."%char) then strdrop i path
      else Ext_loop i path
    end
  end.

Definition Ext (path : string) : string := Ext_loop (String.length path) path.
End Ext.

Definition IsPathSeparator_unix (c : ascii) : bool := bool_decide (c = "/"%char).
Definition IsPathSeparator_windows (c : ascii) : bool :=
  bool_decide (c = "/"%char) || bool_decide (c = "\"%char).

End filepath.

(** * Package strconv *)

Module strconv.

Inductive NumError := ErrSyntax | ErrRange | ErrBitSize.

Definition uint64 (z : Z) : Z := z mod 2 ^ 64.
Definition int64 (z : Z) : Z := (z + 2 ^ 63) mod 2 ^ 64 - 2 ^ 63.
Definition maxUint64 : Z := 2 ^ 64 - 1.

(** [lower(c)]: [c | ('x' - 'X')] *)
Definition lower (c : Z) : Z := Z.lor c (Z_of_byte "x" - Z_of_byte "X").

Section IntSize.
(** [strconv.IntSize], the size of an [int]: 32 or 64. *)
Variable IntSize : Z.

(** The digit loop of [ParseUint] at base 10, [for _, c := range []byte(s)],
    with the accumulator [n]. At a base other than 0 an underscore is
    not a digit separator, and a letter is a digit of value 10 or more. *)
Fixpoint ParseUint_loop (maxVal : Z) (s : string) (n : Z) : Z * option NumError :=
  match s with
  | EmptyString => (n, None)
  | String ch t =>
    let base := 10 in
    let cutoff := maxUint64 / 10 + 1 in
    let c := Z_of_byte ch in
    let d :=
      if (Z_of_byte "0" <=? c) && (c <=? Z_of_byte "9")
      then Some (trunc8 (c - Z_of_byte "0"))
      else if (Z_of_byte "a" <=? lower c) && (lower c <=? Z_of_byte "z")
      then Some (trunc8 (lower c - Z_of_byte "a" + 10))
      else None in
    match d with
    | None => (0, Some ErrSyntax)
    | Some d =>
      if trunc8 base <=? d then (0, Some ErrSyntax)
      else if cutoff <=? n then (maxVal, Some ErrRange)
      else
        let n := uint64 (n * base) in
        let n1 := uint64 (n + d) in
        if (n1 <? n) || (maxVal <? n1) then (maxVal, Some ErrRange)
        else ParseUint_loop maxVal t n1
    end
  end.

(** [ParseUint(s, 10, bitSize)] *)
Definition ParseUint_base10 (s : string) (bitSize : Z) : Z * option NumError :=
  if bool_decide (s = EmptyString) then (0, Some ErrSyntax)
  else if (bitSize <? 0) || (64 <? bitSize) then (0, Some ErrBitSize)
  else
    let bitSize := if bitSize =? 0 then IntSize else bitSize in
    let maxVal := uint64 (Z.shiftl 1 bitSize - 1) in
    ParseUint_loop maxVal s 0.

(** [ParseInt(s, 10, bitSize)] *)
Definition ParseInt_base10 (s : string) (bitSize : Z) : Z * option NumError :=
  match s with
  | EmptyString => (0, Some ErrSyntax)
  | String c0 t =>
    let '(neg, s') :=
      if bool_decide (c0 = "+"%char) then (false, t)
      else if bool_decide (c0 = "-"%char) then (true, t)
      else (false, s) in
    let '(un, err) := ParseUint_base10 s' bitSize in
    match err with
    | Some ErrSyntax => (0, Some ErrSyntax)
    | Some ErrBitSize => (0, Some ErrBitSize)
    | _ =>
      let bitSize := if bitSize =? 0 then IntSize else bitSize in
      let cutoff := uint64 (Z.shiftl 1 (bitSize - 1)) in
      if negb neg && (cutoff <=? un) then (int64 (cutoff - 1), Some ErrRange)
      else if neg && (cutoff <? un) then (int64 (- int64 cutoff), Some ErrRange)
      else
        let n := int64 un in
        let n := if neg then int64 (- n) else n in
        (n, None)
    end
  end.
End IntSize.

End strconv.

(** * Package net/http *)

Module http.

(** A [Header] maps a canonical header name to its values. *)
Record Response := { Header : gmap string (list string) }.

(** [Header.Get(key)] for a [key] in canonical form, as "Content-Length"
    is: the first value of the header, or the empty string. *)
Definition Header_Get (h : gmap string (list string)) (key : string) : string :=
  match h !! key with
  | Some (v :: _) => v
  | _ => EmptyString
  end.

End http.

(** * Package onlyoffice *)

Module onlyoffice.

(** An [error] value made by [errors.New], or returned by the HTTP client. *)
Record error := errors_New { Error : string }.

Global Instance error_eq_dec : EqDecision error.
Proof. solve_decision. Defined.

Definition _OnlyofficeWordType : string := "word".
Definition _OnlyofficeCellType : string := "cell".
Definition _OnlyofficeSlideType : string := "slide".

(** ** The composite literals of the four extension maps, as written *)

Definition OnlyofficeEditableExtensions_literal : list (string * string) :=
  [ ("docm", _OnlyofficeWordType);
    ("docx", _OnlyofficeWordType);
    ("docxf", _OnlyofficeWordType);
    ("oform", _OnlyofficeWordType);
    ("dotm", _OnlyofficeWordType);
    ("dotx", _OnlyofficeWordType);
    ("xlsm", _OnlyofficeCellType);
    ("xlsx", _OnlyofficeCellType);
    ("xltm", _OnlyofficeCellType);
    ("xltx", _OnlyofficeCellType);
    ("potm", _OnlyofficeSlideType);
    ("potx", _OnlyofficeSlideType);
    ("ppsm", _OnlyofficeSlideType);
    ("ppsx", _OnlyofficeSlideType);
    ("pptm", _OnlyofficeSlideType);
    ("pptx", _OnlyofficeSlideType) ].

Definition OnlyofficeOOXMLEditableExtensions_literal : list (string * string) :=
  [ ("doc", _OnlyofficeWordType);
    ("dot", _OnlyofficeWordType);
    ("fodt", _OnlyofficeWordType);
    ("mht", _OnlyofficeWordType);
    ("xml", _OnlyofficeWordType);
    ("sxw", _OnlyofficeWordType);
    ("stw", _OnlyofficeWordType);
    ("htm", _OnlyofficeWordType);
    ("mhtml", _OnlyofficeWordType);
    ("wps", _OnlyofficeWordType);
    ("wpt", _OnlyofficeWordType);
    ("fods", _OnlyofficeCellType);
    ("xls", _OnlyofficeCellType);
    ("xlt", _OnlyofficeCellType);
    ("sxc", _OnlyofficeCellType);
    ("et", _OnlyofficeCellType);
    ("ett", _OnlyofficeCellType);
    ("xlsb", _OnlyofficeCellType);
    ("fodp", _OnlyofficeSlideType);
    ("pot", _OnlyofficeSlideType);
    ("pps", _OnlyofficeSlideType);
    ("ppt", _OnlyofficeSlideType);
    ("sxi", _OnlyofficeSlideType);
    ("dps", _OnlyofficeSlideType);
    ("dpt", _OnlyofficeSlideType) ].

Definition OnlyofficeDataLossEditableExtensions_literal : list (string * string) :=
  [ ("epub", _OnlyofficeWordType);
    ("fb2", _OnlyofficeWordType);
    ("html", _OnlyofficeWordType);
    ("odt", _OnlyofficeWordType);
    ("ott", _OnlyofficeWordType);
    ("rtf", _OnlyofficeWordType);
    ("txt", _OnlyofficeWordType);
    ("csv", _OnlyofficeCellType);
    ("ods", _OnlyofficeCellType);
    ("ots", _OnlyofficeCellType);
    ("odp", _OnlyofficeSlideType);
    ("otp", _OnlyofficeSlideType) ].

Definition OnlyofficeViewOnlyExtensions_literal : list (string * string) :=
  [ ("djvu", _OnlyofficeWordType);
    ("oxps", _OnlyofficeWordType);
    ("pdf", _OnlyofficeWordType);
    ("xps", _OnlyofficeWordType) ].

(** ** The package-level variables *)

Record Globals := {
  ErrOnlyofficeExtensionNotSupported : error;
  ErrInvalidContentLength : error;
  OnlyofficeEditableExtensions : gmap string string;
  OnlyofficeOOXMLEditableExtensions : gmap string string;
  OnlyofficeDataLossEditableExtensions : gmap string string;
  OnlyofficeViewOnlyExtensions : gmap string string
}.

(** The store after package initialisation. *)
Definition init : Globals := {|
  ErrOnlyofficeExtensionNotSupported :=
    errors_New "file extension is not supported";
  ErrInvalidContentLength :=
    errors_New "could not perform api actions due to exceeding content-length";
  OnlyofficeEditableExtensions :=
    list_to_map OnlyofficeEditableExtensions_literal;
  OnlyofficeOOXMLEditableExtensions :=
    list_to_map OnlyofficeOOXMLEditableExtensions_literal;
  OnlyofficeDataLossEditableExtensions :=
    list_to_map OnlyofficeDataLossEditableExtensions_literal;
  OnlyofficeViewOnlyExtensions :=
    list_to_map OnlyofficeViewOnlyExtensions_literal
|}.

(** ** Computations over the store *)

Definition M (A : Type) : Type := Globals → A * Globals.

Global Instance M_ret : MRet M := λ A a σ, (a, σ).
Global Instance M_bind : MBind M :=
  λ A B k m σ, let '(a, σ') := m σ in k a σ'.
Global Instance M_fmap : FMap M :=
  λ A B f m σ, let '(a, σ') := m σ in (f a, σ').

(** Reading a package-level variable. *)
Definition load {A} (var : Globals → A) : M A := λ σ, (var σ, σ).

Definition result {A} (m : M A) (σ : Globals) : A := fst (m σ).
Definition final {A} (m : M A) (σ : Globals) : Globals := snd (m σ).

(** [v, exists := m[k]] *)
Definition comma_ok (m : gmap string string) (k : string) : string * bool :=
  match m !! k with
  | Some v => (v, true)
  | None => (EmptyString, false)
  end.

Inductive Context := context_Background.

(** What [http.Head(url)] returns: a response, or an error. *)
Inductive HeadResult :=
| HeadResponse (resp : http.Response)
| HeadError (err : error).

(** ** The methods of [fileUtility] *)

Section fileUtility.
(** The platform: the Unicode case table, the path separators, the size
    of an [int], and the network as seen through [http.Head]. *)
Variable To_LowerCase : Z → Z.
Variable IsPathSeparator : ascii → bool.
Variable IntSize : Z.
Variable http_Head : string → HeadResult.

Definition ValidateFileSize (ctx : Context) (limit : Z) (url : string)
  : M (option error) :=
  match http_Head url with
  | HeadError err => mret (Some err)
  | HeadResponse resp =>
    let '(val, err) :=
      strconv.ParseInt_base10 IntSize
        (http.Header_Get (http.Header resp) "Content-Length") 0 in
    if (limit <? val) || bool_decide (err ≠ None) then
      e ← load ErrInvalidContentLength; mret (Some e)
    else mret None
  end.

Definition EscapeFilename (filename : string) : M string :=
  let f := strings.ReplaceAll filename "\" ":" in
  let f := strings.ReplaceAll f "/" ":" in
  mret f.

Definition IsExtensionSupported (fileExt : string) : M bool :=
  let ext := strings.ToLower To_LowerCase fileExt in
  m ← load OnlyofficeDataLossEditableExtensions;
  if snd (comma_ok m ext) then mret true
  else
    m ← load OnlyofficeEditableExtensions;
    if snd (comma_ok m ext) then mret true
    else
      m ← load OnlyofficeOOXMLEditableExtensions;
      if snd (comma_ok m ext) then mret true
      else
        m ← load OnlyofficeViewOnlyExtensions;
        if snd (comma_ok m ext) then mret true
        else mret false.

Definition IsExtensionEditable (fileExt : string) : M bool :=
  m ← load OnlyofficeEditableExtensions;
  let '(_, exists_) := comma_ok m (strings.ToLower To_LowerCase fileExt) in
  mret exists_.

Definition IsExtensionViewOnly (fileExt : string) : M bool :=
  m ← load OnlyofficeViewOnlyExtensions;
  let '(_, exists_) := comma_ok m (strings.ToLower To_LowerCase fileExt) in
  mret exists_.

Definition IsExtensionLossEditable (fileExt : string) : M bool :=
  m ← load OnlyofficeDataLossEditableExtensions;
  let '(_, exists_) := comma_ok m (strings.ToLower To_LowerCase fileExt) in
  mret exists_.

Definition IsExtensionOOXMLConvertable (fileExt : string) : M bool :=
  m ← load OnlyofficeOOXMLEditableExtensions;
  let '(_, exists_) := comma_ok m (strings.ToLower To_LowerCase fileExt) in
  mret exists_.

Definition GetFilenameWithoutExtension (filename : string) : M string :=
  mret (strings.TrimSuffix filename (filepath.Ext IsPathSeparator filename)).

Definition GetFileType (fileExt : string) : M (string * option error) :=
  let ext := strings.ToLower To_LowerCase fileExt in
  m ← load OnlyofficeEditableExtensions;
  let '(fType, exists_) := comma_ok m ext in
  if exists_ then mret (fType, None)
  else
    m ← load OnlyofficeDataLossEditableExtensions;
    let '(fType, exists_) := comma_ok m ext in
    if exists_ then mret (fType, None)
    else
      m ← load OnlyofficeOOXMLEditableExtensions;
      let '(fType, exists_) := comma_ok m ext in
      if exists_ then mret (fType, None)
      else
        m ← load OnlyofficeViewOnlyExtensions;
        let '(fType, exists_) := comma_ok m ext in
        if exists_ then mret (fType, None)
        else
          e ← load ErrOnlyofficeExtensionNotSupported;
          mret (EmptyString, Some e).

Definition GetFileExt (filename : string) : M string :=
  mret (strings.ReplaceAll (filepath.Ext IsPathSeparator filename) "." "").

End fileUtility.

End onlyoffice.

(** * Sample platform data for the concrete checks *)

Module Samples.

(** A fragment of the lower-case table: KELVIN SIGN, and the upper-case
    letters of Latin-1. *)
Definition sample_To_LowerCase (r : Z) : Z :=
  if r =? 0x212A then 0x6B
  else if (0xC0 <=? r) && (r <=? 0xDE) && negb (r =? 0xD7) then r + 32
  else r.

(** An extension written with the KELVIN SIGN (bytes E2 84 AA) for its
    first letter, followed by "SX". *)
Definition kelvin_SX : string :=
  String "226" (String "132" (String "170" "SX")).

(** A server that answers every HEAD request with a length of 1024. *)
Definition sample_Response : http.Response :=
  {| http.Header := {[ "Content-Length" := ["1024"] ]} |}.
Definition sample_Head (url : string) : onlyoffice.HeadResult :=
  onlyoffice.HeadResponse sample_Response.

(** Servers that answer with a given Content-Length, with none, and not
    at all. *)
Definition head_with (value : string) (url : string) : onlyoffice.HeadResult :=
  onlyoffice.HeadResponse {| http.Header := {[ "Content-Length" := [value] ]} |}.
Definition head_without (url : string) : onlyoffice.HeadResult :=
  onlyoffice.HeadResponse {| http.Header := {[ "Content-Type" := ["text/plain"] ]} |}.
Definition head_fails (url : string) : onlyoffice.HeadResult :=
  onlyoffice.HeadError (onlyoffice.errors_New "dial tcp: connection refused").

End Samples.

(** * The extension tables *)

Import onlyoffice.

Definition is_category (v : string) : Prop :=
  v = "word" ∨ v = "cell" ∨ v = "slide".

Global Instance is_category_dec v : Decision (is_category v).
Proof. unfold is_category. apply _. Defined.

(** The four tables of a store, in the order of their declaration. *)
Definition tables (σ : Globals) : list (gmap string string) :=
  [ OnlyofficeEditableExtensions σ;
    OnlyofficeOOXMLEditableExtensions σ;
    OnlyofficeDataLossEditableExtensions σ;
    OnlyofficeViewOnlyExtensions σ ].

Definition literals : list (list (string * string)) :=
  [ OnlyofficeEditableExtensions_literal;
    OnlyofficeOOXMLEditableExtensions_literal;
    OnlyofficeDataLossEditableExtensions_literal;
    OnlyofficeViewOnlyExtensions_literal ].

(** A string of ASCII bytes none of which is an upper-case letter. *)
Fixpoint ascii_lowered (s : string) : bool :=
  match s with
  | EmptyString => true
  | String c t =>
    (Z_of_byte c <? utf8.RuneSelf) && negb (strings.isUpperByte (Z_of_byte c))
    && ascii_lowered t
  end.


(** [GetFileType] with the order in which the tables are consulted made a
    parameter: [order] lists the package variables to read, first to last.
    [GetFileType] is the instance at [source_order]. *)
Fixpoint lookup_in_order (order : list (Globals → gmap string string))
    (ext : string) : M (string * option error) :=
  match order with
  | [] => e ← load ErrOnlyofficeExtensionNotSupported; mret (EmptyString, Some e)
  | var :: order' =>
    m ← load var;
    let '(fType, exists_) := comma_ok m ext in
    if exists_ then mret (fType, None) else lookup_in_order order' ext
  end.

Definition GetFileType_in_order (To_LowerCase : Z → Z)
    (order : list (Globals → gmap string string)) (fileExt : string)
  : M (string * option error) :=
  lookup_in_order order (strings.ToLower To_LowerCase fileExt).

Definition source_order : list (Globals → gmap string string) :=
  [ OnlyofficeEditableExtensions;
    OnlyofficeDataLossEditableExtensions;
    OnlyofficeOOXMLEditableExtensions;
    OnlyofficeViewOnlyExtensions ].

(** The number of per-table predicates that hold of an extension. *)
Definition predicates_holding (To_LowerCase : Z → Z) (e : string) (σ : Globals) : nat :=
  length (filter (λ b : bool, b = true)
    [ result (IsExtensionEditable To_LowerCase e) σ;
      result (IsExtensionOOXMLConvertable To_LowerCase e) σ;
      result (IsExtensionLossEditable To_LowerCase e) σ;
      result (IsExtensionViewOnly To_LowerCase e) σ ]).

(** * Byte-wise description of the string operations *)

(** The string in which each byte [c] of [s] is replaced by [f c]. *)
Fixpoint strmap (f : ascii → ascii) (s : string) : string :=
  match s with
  | EmptyString => EmptyString
  | String c t => String (f c) (strmap f t)
  end.

(** The byte [c] occurs in [s]. *)
Fixpoint occurs (c : ascii) (s : string) : bool :=
  match s with
  | EmptyString => false
  | String c' t => bool_decide (c' = c) || occurs c t
  end.

(** The number of occurrences of [c] in [s]. *)
Fixpoint occurrences (c : ascii) (s : string) : nat :=
  match s with
  | EmptyString => O
  | String c' t => if bool_decide (c' = c) then S (occurrences c t) else occurrences c t
  end.

(** Each occurrence of the byte [a] in [s] replaced by the string [new]. *)
Fixpoint subst_byte (a : ascii) (new : string) (s : string) : string :=
  match s with
  | EmptyString => EmptyString
  | String c t => if bool_decide (c = a) then new +:+ subst_byte a new t
                  else String c (subst_byte a new t)
  end.

(** What [EscapeFilename] does to one byte. *)
Definition escape_byte (c : ascii) : ascii :=
  if bool_decide (c = "\"%char) then ":"%char
  else if bool_decide (c = "/"%char) then ":"%char
  else c.

(** * Sequences of calls of the utility *)

(** One call of a method of [OnlyofficeFileUtility], with its arguments. *)
Inductive Call :=
| CallValidateFileSize (ctx : Context) (limit : Z) (url : string)
| CallEscapeFilename (filename : string)
| CallIsExtensionSupported (fileExt : string)
| CallIsExtensionEditable (fileExt : string)
| CallIsExtensionViewOnly (fileExt : string)
| CallIsExtensionLossEditable (fileExt : string)
| CallIsExtensionOOXMLConvertable (fileExt : string)
| CallGetFilenameWithoutExtension (filename : string)
| CallGetFileType (fileExt : string)
| CallGetFileExt (filename : string).

(** What a call returns. *)
Inductive Returned :=
| RetError (err : option error)
| RetString (s : string)
| RetBool (b : bool)
| RetStringError (s : string) (err : option error).

Section Calls.
Variable To_LowerCase : Z → Z.
Variable IsPathSeparator : ascii → bool.
Variable IntSize : Z.
Variable http_Head : string → HeadResult.

Definition call (c : Call) : M Returned :=
  match c with
  | CallValidateFileSize ctx limit url =>
    RetError <$> ValidateFileSize IntSize http_Head ctx limit url
  | CallEscapeFilename filename =>
    RetString <$> EscapeFilename filename
  | CallIsExtensionSupported fileExt =>
    RetBool <$> IsExtensionSupported To_LowerCase fileExt
  | CallIsExtensionEditable fileExt =>
    RetBool <$> IsExtensionEditable To_LowerCase fileExt
  | CallIsExtensionViewOnly fileExt =>
    RetBool <$> IsExtensionViewOnly To_LowerCase fileExt
  | CallIsExtensionLossEditable fileExt =>
    RetBool <$> IsExtensionLossEditable To_LowerCase fileExt
  | CallIsExtensionOOXMLConvertable fileExt =>
    RetBool <$> IsExtensionOOXMLConvertable To_LowerCase fileExt
  | CallGetFilenameWithoutExtension filename =>
    RetString <$> GetFilenameWithoutExtension IsPathSeparator filename
  | CallGetFileType fileExt =>
    (λ r, RetStringError r.1 r.2) <$> GetFileType To_LowerCase fileExt
  | CallGetFileExt filename =>
    RetString <$> GetFileExt IsPathSeparator filename
  end.

(** The calls of [cs] made one after the other, each on the store the
    previous one left. *)
Fixpoint run (cs : list Call) : M (list Returned) :=
  match cs with
  | [] => mret []
  | c :: cs' => v ← call c; vs ← run cs'; mret (v :: vs)
  end.
End Calls.

(** The calls whose result may depend on the network. *)
Definition uses_network (c : Call) : option string :=
  match c with
  | CallValidateFileSize _ _ url => Some url
  | _ => None
  end.

(** * Decimal numerals *)

(** The reading of a string as a base-10 integer, stated apart from
    [strconv.ParseInt]: an optional sign followed by one or more of the
    digits 0 to 9, denoting an integer of any size. *)
Definition digit_value (c : ascii) : option Z :=
  if (Z_of_byte "0" <=? Z_of_byte c) && (Z_of_byte c <=? Z_of_byte "9")
  then Some (Z_of_byte c - Z_of_byte "0")
  else None.

Fixpoint digits_value (s : string) (acc : Z) : option Z :=
  match s with
  | EmptyString => Some acc
  | String c t =>
    match digit_value c with
    | Some d => digits_value t (10 * acc + d)
    | None => None
    end
  end.

Definition unsigned_decimal (s : string) : option Z :=
  match s with
  | EmptyString => None
  | _ => digits_value s 0
  end.

Definition decimal_integer (s : string) : option Z :=
  match s with
  | EmptyString => None
  | String c t =>
    if bool_decide (c = "+"%char) then unsigned_decimal t
    else if bool_decide (c = "-"%char) then Z.opp <$> unsigned_decimal t
    else unsigned_decimal s
  end.

(** The values of an [int] of [IntSize] bits. *)
Definition int_range (IntSize : Z) (v : Z) : Prop :=
  - 2 ^ (IntSize - 1) ≤ v < 2 ^ (IntSize - 1).

(** * Unicode scalar values *)

(** The runes that UTF-8 encodes: the code points up to [MaxRune] that are
    not surrogate halves. *)
Definition valid_rune (r : Z) : Prop :=
  0 ≤ r ≤ utf8.MaxRune ∧ ¬ (utf8.surrogateMin ≤ r ≤ utf8.surrogateMax).

(** The lowest and highest second byte that may follow the first byte [b0]
    of a three- or four-byte encoding. *)
Definition second_lo (b0 : Z) : Z :=
  if b0 =? 0xE0 then 0xA0 else if b0 =? 0xF0 then 0x90 else 0x80.
Definition second_hi (b0 : Z) : Z :=
  if b0 =? 0xED then 0x9F else if b0 =? 0xF4 then 0x8F else 0xBF.

(** The size of the encoding that the first byte [b0] announces. *)
Definition enc_size (b0 : Z) : Z :=
  if b0 <? 0xE0 then 2 else if b0 <? 0xF0 then 3 else 4.

(** [DecodeRuneInString] as a function of the length of the string and of
    its first four bytes. *)
Definition decode_core (n s0 s1 s2 s3 : Z) : Z * Z :=
  if n <? 1 then (utf8.RuneError, 0)
  else
    let x := utf8.first s0 in
    if utf8.as_ <=? x then
      let mask := Z.shiftr (int32 (Z.shiftl x 31)) 31 in
      (Z.lor (Z.land s0 (Z.lnot mask)) (Z.land utf8.RuneError mask), 1)
    else
      let sz := Z.land x 7 in
      let accept := utf8.acceptRanges (Z.shiftr x 4) in
      if n <? sz then (utf8.RuneError, 1)
      else if (s1 <? fst accept) || (snd accept <? s1) then (utf8.RuneError, 1)
      else if sz <=? 2 then
        (Z.lor (Z.shiftl (Z.land s0 utf8.mask2) 6) (Z.land s1 utf8.maskx), 2)
      else if (s2 <? utf8.locb) || (utf8.hicb <? s2) then (utf8.RuneError, 1)
      else if sz <=? 3 then
        (Z.lor (Z.lor (Z.shiftl (Z.land s0 utf8.mask3) 12)
                      (Z.shiftl (Z.land s1 utf8.maskx) 6))
               (Z.land s2 utf8.maskx), 3)
      else if (s3 <? utf8.locb) || (utf8.hicb <? s3) then (utf8.RuneError, 1)
      else
        (Z.lor (Z.lor (Z.lor (Z.shiftl (Z.land s0 utf8.mask4) 18)
                             (Z.shiftl (Z.land s1 utf8.maskx) 12))
                      (Z.shiftl (Z.land s2 utf8.maskx) 6))
               (Z.land s3 utf8.maskx), 4).

(** * Strings that a mapping of runes leaves alone *)

(** [fixed_runes f s]: [s] is the concatenation of the encodings of valid
    runes, each of which [f] maps to itself. *)
Inductive fixed_runes (f : Z → Z) : string → Prop :=
| fixed_nil : fixed_runes f EmptyString
| fixed_cons r q :
    valid_rune r → f r = r → fixed_runes f q →
    fixed_runes f (utf8.AppendRune EmptyString r +:+ q).

(** [preserves m]: the computation [m] leaves every store as it found it. *)
Definition preserves {A} (m : M A) : Prop := ∀ σ, final m σ = σ.

(** * What is assumed of the Unicode case table *)

(** The lower-case mapping of the Unicode database, on the runes above
    ASCII: it maps runes to runes, and a lower-case letter has no further
    lower case. *)
Definition lower_case_table (To_LowerCase : Z → Z) : Prop :=
  (∀ r, valid_rune r → unicode.MaxASCII < r → valid_rune (To_LowerCase r))
  ∧ (∀ r, valid_rune r → unicode.MaxASCII < r →
       unicode.ToLower To_LowerCase (To_LowerCase r) = To_LowerCase r).

(** * The interface value *)

(** [OnlyofficeFileUtility]: the method set of the interface, and
    [NewOnlyofficeFileUtility], which returns the empty struct [fileUtility{}]
    with the methods above. *)
Record OnlyofficeFileUtility := {
  method_ValidateFileSize : Context → Z → string → M (option error);
  method_EscapeFilename : string → M string;
  method_IsExtensionSupported : string → M bool;
  method_IsExtensionEditable : string → M bool;
  method_IsExtensionViewOnly : string → M bool;
  method_IsExtensionLossEditable : string → M bool;
  method_IsExtensionOOXMLConvertable : string → M bool;
  method_GetFilenameWithoutExtension : string → M string;
  method_GetFileType : string → M (string * option error);
  method_GetFileExt : string → M string
}.

Definition NewOnlyofficeFileUtility (To_LowerCase : Z → Z)
    (IsPathSeparator : ascii → bool) (IntSize : Z)
    (http_Head : string → HeadResult) : OnlyofficeFileUtility := {|
  method_ValidateFileSize := ValidateFileSize IntSize http_Head;
  method_EscapeFilename := EscapeFilename;
  method_IsExtensionSupported := IsExtensionSupported To_LowerCase;
  method_IsExtensionEditable := IsExtensionEditable To_LowerCase;
  method_IsExtensionViewOnly := IsExtensionViewOnly To_LowerCase;
  method_IsExtensionLossEditable := IsExtensionLossEditable To_LowerCase;
  method_IsExtensionOOXMLConvertable := IsExtensionOOXMLConvertable To_LowerCase;
  method_GetFilenameWithoutExtension := GetFilenameWithoutExtension IsPathSeparator;
  method_GetFileType := GetFileType To_LowerCase;
  method_GetFileExt := GetFileExt IsPathSeparator
|}.

(** * Predicates on the bytes of a string *)

(** Every byte of [s] satisfies [P]. *)
Fixpoint all_bytes (P : ascii → bool) (s : string) : bool :=
  match s with
  | EmptyString => true
  | String c t => P c && all_bytes P t
  end.

(** [s] holds ASCII bytes only. *)
Definition all_ascii (s : string) : bool :=
  all_bytes (λ c, Z_of_byte c <? utf8.RuneSelf) s.

(** No byte of [s] is a path separator. *)
Definition no_separator (IsPathSeparator : ascii → bool) (s : string) : bool :=
  all_bytes (λ c, negb (IsPathSeparator c)) s.

(** [s] starts with the byte [c]. *)
Definition starts_with (c : ascii) (s : string) : bool :=
  match s with
  | String c' _ => bool_decide (c' = c)
  | EmptyString => false
  end.

(** A lower-case letter or a digit. *)
Definition is_alnum_lower (c : ascii) : bool :=
  ((Z_of_byte "a" <=? Z_of_byte c) && (Z_of_byte c <=? Z_of_byte "z"))
  || ((Z_of_byte "0" <=? Z_of_byte c) && (Z_of_byte c <=? Z_of_byte "9")).
(** * Sanity checks of the embedding on concrete inputs *)

Section Examples.
Import Samples.

Example decode_euro :
  utf8.DecodeRuneInString (String "226" (String "130" (String "172" "!")))
  = (0x20AC, 3).
Proof. reflexivity. Qed.

Example encode_euro :
  utf8.AppendRune "" 0x20AC = String "226" (String "130" (String "172" "")).
Proof. reflexivity. Qed.

Example decode_bad :
  utf8.DecodeRuneInString (String "192" "a") = (utf8.RuneError, 1).
Proof. reflexivity. Qed.

Local Abbreviation tl := sample_To_LowerCase.
Local Abbreviation unix := filepath.IsPathSeparator_unix.

Example GetFileType_DOCX : result (GetFileType tl "DOCX") init = ("word", None).
Proof. vm_compute. reflexivity. Qed.

Example GetFileType_exe :
  result (GetFileType tl "exe") init
  = ("", Some (errors_New "file extension is not supported")).
Proof. vm_compute. reflexivity. Qed.

Example IsExtensionSupported_pDf : result (IsExtensionSupported tl "pDf") init = true.
Proof. vm_compute. reflexivity. Qed.

(** "K" written with the KELVIN SIGN (E2 84 AA) lowers to the ASCII "k". *)
Example ToLower_kelvin :
  strings.ToLower tl kelvin_SX = "ksx".
Proof. vm_compute. reflexivity. Qed.

(** An invalid byte (FF) is replaced by the encoding of U+FFFD. *)
Example ToLower_invalid :
  strings.ToLower tl (String "195" (String "137" (String "255" "S")))
  = String "195" (String "169" (String "239" (String "191" (String "189" "s")))).
Proof. vm_compute. reflexivity. Qed.

Example EscapeFilename_ex : result (EscapeFilename "a/b\c/d.txt") init = "a:b:c:d.txt".
Proof. vm_compute. reflexivity. Qed.

Example GetFileExt_ex : result (GetFileExt unix "a/b.c/d.tar.gz") init = "gz".
Proof. vm_compute. reflexivity. Qed.

Example GetFilenameWithoutExtension_ex :
  result (GetFilenameWithoutExtension unix "a/b.c/d.tar.gz") init = "a/b.c/d.tar".
Proof. vm_compute. reflexivity. Qed.

Example GetFileExt_no_dot : result (GetFileExt unix "a/b.c/d") init = "".
Proof. vm_compute. reflexivity. Qed.

Example ReplaceAll_empty_old : strings.ReplaceAll "abc" "" "-" = "-a-b-c-".
Proof. vm_compute. reflexivity. Qed.

Example ReplaceAll_ex : strings.ReplaceAll "abcabca" "bc" "-" = "a-a-a".
Proof. vm_compute. reflexivity. Qed.

Example ParseInt_min : strconv.ParseInt_base10 64 "-9223372036854775808" 0
                       = (-9223372036854775808, None).
Proof. vm_compute. reflexivity. Qed.

Example ParseInt_over : strconv.ParseInt_base10 64 "9223372036854775808" 0
                        = (9223372036854775807, Some strconv.ErrRange).
Proof. vm_compute. reflexivity. Qed.

Example ParseInt_plus : strconv.ParseInt_base10 64 "+0012" 0 = (12, None).
Proof. vm_compute. reflexivity. Qed.

Example ParseInt_junk : strconv.ParseInt_base10 64 "12a" 0 = (0, Some strconv.ErrSyntax).
Proof. vm_compute. reflexivity. Qed.

Example ParseInt_32 : strconv.ParseInt_base10 32 "2147483648" 0
                      = (2147483647, Some strconv.ErrRange).
Proof. vm_compute. reflexivity. Qed.
Local Abbreviation validate head limit :=
  (result (ValidateFileSize 64 head context_Background limit "http://files/a.docx")
          init).

Example ValidateFileSize_at_limit : validate (head_with "1024") 1024 = None.
Proof. vm_compute. reflexivity. Qed.

Example ValidateFileSize_over_limit :
  validate (head_with "1025") 1024 = Some (ErrInvalidContentLength init).
Proof. vm_compute. reflexivity. Qed.

Example ValidateFileSize_negative : validate (head_with "-5") 1024 = None.
Proof. vm_compute. reflexivity. Qed.

Example ValidateFileSize_missing :
  validate head_without 1024 = Some (ErrInvalidContentLength init).
Proof. vm_compute. reflexivity. Qed.

Example ValidateFileSize_out_of_range :
  validate (head_with "9223372036854775808") 9223372036854775807
  = Some (ErrInvalidContentLength init).
Proof. vm_compute. reflexivity. Qed.

Example ValidateFileSize_no_answer :
  validate head_fails 1024 = Some (errors_New "dial tcp: connection refused").
Proof. vm_compute. reflexivity. Qed.
End Examples.

(** * The extension tables are well formed *)
Lemma scanASCII_lowered s :
  ascii_lowered s = true → strings.scanASCII s false = (true, false).
Proof.
  induction s as [|c t IH]; simpl; [done|].
  intros [[Hc Hu]%andb_prop Ht]%andb_prop.
  apply Z.ltb_lt in Hc. apply negb_true_iff in Hu.
  destruct (Z.leb_spec utf8.RuneSelf (Z_of_byte c)); [lia|].
  rewrite Hu. auto.
Qed.

Lemma ToLower_ascii_lowered tl s :
  ascii_lowered s = true → strings.ToLower tl s = s.
Proof.
  intros H. unfold strings.ToLower. by rewrite scanASCII_lowered.
Qed.

Lemma literal_keys_lowered :
  Forall (λ l, Forall (λ kv, ascii_lowered kv.1 = true) l) literals.
Proof. apply (bool_decide_unpack _). vm_compute. reflexivity. Qed.

Lemma literal_keys_NoDup : Forall (λ l, NoDup l.*1) literals.
Proof. apply (bool_decide_unpack _). vm_compute. reflexivity. Qed.

Lemma literal_values : Forall (λ l, Forall (λ kv, is_category kv.2) l) literals.
Proof. apply (bool_decide_unpack _). vm_compute. reflexivity. Qed.

Lemma tables_init : tables init = list_to_map <$> literals.
Proof. reflexivity. Qed.

Lemma table_values m k v :
  m ∈ tables init → m !! k = Some v → is_category v.
Proof.
  intros Hm Hk.
  assert (Forall (map_Forall (λ _ v, is_category v)) (tables init)) as HF.
  { apply (bool_decide_unpack _). vm_compute. reflexivity. }
  rewrite Forall_forall in HF. by apply (HF m Hm k v).
Qed.

Lemma table_keys_lowered m k :
  m ∈ tables init → is_Some (m !! k) → ascii_lowered k = true.
Proof.
  intros Hm [v Hk].
  assert (Forall (map_Forall (λ k _, ascii_lowered k = true)) (tables init)) as HF.
  { apply (bool_decide_unpack _). vm_compute. reflexivity. }
  rewrite Forall_forall in HF. by apply (HF m Hm k v).
Qed.

(** C5. Each of the four extension maps is the map of its composite
    literal, and in each of them: no key is written twice, every key equals
    its own lower-case form, and every value is one of the three categories
    "word", "cell", "slide". This holds of the entries of the literal and of
    the entries of the map built from it. *)
Theorem extension_maps_wellformed (To_LowerCase : Z → Z) :
  Forall2 (λ m l,
      m = list_to_map l
      ∧ NoDup l.*1
      ∧ map_to_list m ≡ₚ l
      ∧ (∀ k v, (k, v) ∈ l →
           strings.ToLower To_LowerCase k = k ∧ is_category v)
      ∧ (∀ k v, m !! k = Some v →
           strings.ToLower To_LowerCase k = k ∧ is_category v))
    (tables init) literals.
Proof.
  rewrite tables_init. apply Forall2_fmap_l, Forall_Forall2_diag.
  pose proof literal_keys_lowered as HL.
  pose proof literal_keys_NoDup as HN.
  pose proof literal_values as HV.
  rewrite Forall_forall in HL, HN, HV |- *.
  intros l Hl. specialize (HL l Hl). specialize (HN l Hl). specialize (HV l Hl).
  rewrite Forall_forall in HL, HV.
  assert (∀ k v, (k, v) ∈ l →
            strings.ToLower To_LowerCase k = k ∧ is_category v) as Hlit.
  { intros k v Hkv. split.
    - apply ToLower_ascii_lowered, (HL _ Hkv).
    - apply (HV _ Hkv). }
  split; [done|]. split; [done|].
  split; [by apply map_to_list_to_map|].
  split; [done|].
  intros k v Hkv. apply elem_of_list_to_map in Hkv; [|done]. by apply Hlit.
Qed.

(** * Classification of extensions *)

Section Classification.
Variable To_LowerCase : Z → Z.

Local Abbreviation ToLower := (strings.ToLower To_LowerCase).

Lemma comma_ok_exists m k : snd (comma_ok m k) = true ↔ is_Some (m !! k).
Proof.
  unfold comma_ok. destruct (m !! k) as [v|]; simpl.
  - split; [by eexists|done].
  - split; [done|]. by intros [? ?].
Qed.

Lemma comma_ok_absent m k : snd (comma_ok m k) = false ↔ m !! k = None.
Proof. unfold comma_ok. destruct (m !! k); simpl; split; done. Qed.

Lemma IsExtensionEditable_eq e σ :
  result (IsExtensionEditable To_LowerCase e) σ
  = snd (comma_ok (OnlyofficeEditableExtensions σ) (ToLower e)).
Proof.
  unfold result, IsExtensionEditable, mbind, M_bind, load, mret, M_ret.
  by destruct (comma_ok _ _).
Qed.

Lemma IsExtensionViewOnly_eq e σ :
  result (IsExtensionViewOnly To_LowerCase e) σ
  = snd (comma_ok (OnlyofficeViewOnlyExtensions σ) (ToLower e)).
Proof.
  unfold result, IsExtensionViewOnly, mbind, M_bind, load, mret, M_ret.
  by destruct (comma_ok _ _).
Qed.

Lemma IsExtensionLossEditable_eq e σ :
  result (IsExtensionLossEditable To_LowerCase e) σ
  = snd (comma_ok (OnlyofficeDataLossEditableExtensions σ) (ToLower e)).
Proof.
  unfold result, IsExtensionLossEditable, mbind, M_bind, load, mret, M_ret.
  by destruct (comma_ok _ _).
Qed.

Lemma IsExtensionOOXMLConvertable_eq e σ :
  result (IsExtensionOOXMLConvertable To_LowerCase e) σ
  = snd (comma_ok (OnlyofficeOOXMLEditableExtensions σ) (ToLower e)).
Proof.
  unfold result, IsExtensionOOXMLConvertable, mbind, M_bind, load, mret, M_ret.
  by destruct (comma_ok _ _).
Qed.

Lemma IsExtensionSupported_eq e σ :
  result (IsExtensionSupported To_LowerCase e) σ
  = snd (comma_ok (OnlyofficeDataLossEditableExtensions σ) (ToLower e))
    || snd (comma_ok (OnlyofficeEditableExtensions σ) (ToLower e))
    || snd (comma_ok (OnlyofficeOOXMLEditableExtensions σ) (ToLower e))
    || snd (comma_ok (OnlyofficeViewOnlyExtensions σ) (ToLower e)).
Proof.
  unfold result, IsExtensionSupported, mbind, M_bind, load, mret, M_ret.
  repeat (destruct (snd (comma_ok _ _)); simpl; [done|]). done.
Qed.

Lemma GetFileType_source_order e :
  GetFileType To_LowerCase e = GetFileType_in_order To_LowerCase source_order e.
Proof. reflexivity. Qed.

(** The result of a lookup through any list of tables. *)
Lemma lookup_in_order_found order ext σ var v :
  var ∈ order →
  var σ !! ext = Some v →
  (∀ var' v', var' ∈ order → var' σ !! ext = Some v' → v' = v) →
  result (lookup_in_order order ext) σ = (v, None).
Proof.
  intros Hin Hv Huniq. induction order as [|var0 order IH]; [by inversion Hin|].
  unfold result. simpl. unfold mbind, M_bind, load. simpl.
  unfold comma_ok at 1. destruct (var0 σ !! ext) as [v0|] eqn:H0.
  - simpl. rewrite (Huniq var0 v0); [done|constructor|done].
  - apply elem_of_cons in Hin as [->|Hin]; [congruence|].
    apply IH; [done|]. intros var' v' ??. apply (Huniq var'); [by constructor|done].
Qed.

Lemma lookup_in_order_absent order ext σ :
  (∀ var, var ∈ order → var σ !! ext = None) →
  result (lookup_in_order order ext) σ
  = (EmptyString, Some (ErrOnlyofficeExtensionNotSupported σ)).
Proof.
  intros Hnone. induction order as [|var0 order IH]; [done|].
  unfold result. simpl. unfold mbind, M_bind, load. simpl.
  unfold comma_ok at 1. rewrite (Hnone var0); [|constructor].
  apply IH. intros var ?. apply Hnone. by constructor.
Qed.

Lemma lookup_in_order_error order ext σ :
  snd (result (lookup_in_order order ext) σ) = None
  ↔ ∃ var, var ∈ order ∧ is_Some (var σ !! ext).
Proof.
  induction order as [|var0 order IH].
  - simpl. split; [done|]. intros (?&H&_). inversion H.
  - unfold result. simpl. unfold mbind, M_bind, load. simpl.
    unfold comma_ok at 1. destruct (var0 σ !! ext) as [v0|] eqn:H0; simpl.
    + split; [|done]. intros _. exists var0. split; [constructor|by eexists].
    + fold (result (lookup_in_order order ext) σ). rewrite IH.
      split; intros (var & Hin & Hs).
      * exists var. split; [by constructor|done].
      * apply elem_of_cons in Hin as [->|Hin].
        -- rewrite H0 in Hs. by destruct Hs.
        -- by exists var.
Qed.

Lemma lookup_in_order_value order ext σ t (P : string → Prop) :
  result (lookup_in_order order ext) σ = (t, None) →
  (∀ var v, var ∈ order → var σ !! ext = Some v → P v) →
  P t.
Proof.
  induction order as [|var0 order IH]; [done|].
  unfold result. simpl. unfold mbind, M_bind, load. simpl.
  unfold comma_ok at 1. destruct (var0 σ !! ext) as [v0|] eqn:H0; simpl.
  - intros [= ->] HP. apply (HP var0); [constructor|done].
  - intros Hr HP. apply IH; [done|].
    intros var v ??. apply (HP var); [by constructor|done].
Qed.

Lemma source_order_tables σ var : var ∈ source_order → var σ ∈ tables σ.
Proof.
  unfold source_order, tables. rewrite !elem_of_cons.
  intros [->|[->|[->|[->|H]]]]; [set_solver..|by inversion H].
Qed.

Lemma source_order_categories var ext v :
  var ∈ source_order → var init !! ext = Some v →
  v = "word" ∨ v = "cell" ∨ v = "slide".
Proof.
  intros Hin Hv. apply (table_values (var init) ext v); [|done].
  by apply source_order_tables.
Qed.

(** C1. For every extension string [e], with the tables as package
    initialisation leaves them: when the lower-cased [e] is a key of at
    least one of the four extension maps, [GetFileType(e)] returns
    [(t, nil)] with [t] one of "word", "cell", "slide"; when it is a key of
    none of them, [GetFileType(e)] returns
    [("", ErrOnlyofficeExtensionNotSupported)]. *)
Theorem GetFileType_spec (e : string) :
  let ext := ToLower e in
  let r := result (GetFileType To_LowerCase e) init in
  ((is_Some (OnlyofficeEditableExtensions init !! ext)
    ∨ is_Some (OnlyofficeOOXMLEditableExtensions init !! ext)
    ∨ is_Some (OnlyofficeDataLossEditableExtensions init !! ext)
    ∨ is_Some (OnlyofficeViewOnlyExtensions init !! ext))
   → ∃ t, r = (t, None) ∧ (t = "word" ∨ t = "cell" ∨ t = "slide"))
  ∧ ((OnlyofficeEditableExtensions init !! ext = None
      ∧ OnlyofficeOOXMLEditableExtensions init !! ext = None
      ∧ OnlyofficeDataLossEditableExtensions init !! ext = None
      ∧ OnlyofficeViewOnlyExtensions init !! ext = None)
     → r = ("", Some (ErrOnlyofficeExtensionNotSupported init))).
Proof.
  intros ext r. subst r. rewrite GetFileType_source_order.
  unfold GetFileType_in_order. fold ext.
  pose proof (λ var v, source_order_categories var ext v) as Hcat.
  revert Hcat. generalize init. intros σ Hcat. split.
  - intros Hkey.
    assert (∃ var, var ∈ source_order ∧ is_Some (var σ !! ext)) as Hex.
    { unfold source_order. destruct Hkey as [H|[H|[H|H]]];
        eexists; (split; [|exact H]); set_solver. }
    apply lookup_in_order_error in Hex.
    destruct (result (lookup_in_order source_order ext) σ) as [t err] eqn:Hr.
    simpl in Hex. subst err. exists t. split; [done|].
    apply (lookup_in_order_value source_order ext σ t
             (λ v, v = "word" ∨ v = "cell" ∨ v = "slide") Hr Hcat).
  - intros (H1 & H2 & H3 & H4). apply lookup_in_order_absent.
    intros var Hin. unfold source_order in Hin. rewrite !elem_of_cons in Hin.
    destruct Hin as [->|[->|[->|[->|Hin]]]]; [done..|by inversion Hin].
Qed.

(** C3. For every extension string [e] and every store: each per-table
    predicate is true exactly when [ToLower(e)] is a key of its table:
    [IsExtensionEditable] of [OnlyofficeEditableExtensions],
    [IsExtensionViewOnly] of [OnlyofficeViewOnlyExtensions],
    [IsExtensionLossEditable] of [OnlyofficeDataLossEditableExtensions],
    [IsExtensionOOXMLConvertable] of [OnlyofficeOOXMLEditableExtensions]. *)
Theorem per_table_predicates (e : string) (σ : Globals) :
  (result (IsExtensionEditable To_LowerCase e) σ = true
     ↔ is_Some (OnlyofficeEditableExtensions σ !! ToLower e))
  ∧ (result (IsExtensionViewOnly To_LowerCase e) σ = true
     ↔ is_Some (OnlyofficeViewOnlyExtensions σ !! ToLower e))
  ∧ (result (IsExtensionLossEditable To_LowerCase e) σ = true
     ↔ is_Some (OnlyofficeDataLossEditableExtensions σ !! ToLower e))
  ∧ (result (IsExtensionOOXMLConvertable To_LowerCase e) σ = true
     ↔ is_Some (OnlyofficeOOXMLEditableExtensions σ !! ToLower e)).
Proof.
  rewrite IsExtensionEditable_eq, IsExtensionViewOnly_eq,
    IsExtensionLossEditable_eq, IsExtensionOOXMLConvertable_eq.
  repeat split; by apply comma_ok_exists.
Qed.

(** C2. For every extension string [e] and every store:
    [IsExtensionSupported(e)] is true if and only if at least one of
    [IsExtensionEditable(e)], [IsExtensionLossEditable(e)],
    [IsExtensionOOXMLConvertable(e)], [IsExtensionViewOnly(e)] is true,
    which holds if and only if [GetFileType(e)] returns a nil error. *)
Theorem IsExtensionSupported_iff (e : string) (σ : Globals) :
  (result (IsExtensionSupported To_LowerCase e) σ = true
   ↔ (result (IsExtensionEditable To_LowerCase e) σ = true
      ∨ result (IsExtensionLossEditable To_LowerCase e) σ = true
      ∨ result (IsExtensionOOXMLConvertable To_LowerCase e) σ = true
      ∨ result (IsExtensionViewOnly To_LowerCase e) σ = true))
  ∧ ((result (IsExtensionEditable To_LowerCase e) σ = true
      ∨ result (IsExtensionLossEditable To_LowerCase e) σ = true
      ∨ result (IsExtensionOOXMLConvertable To_LowerCase e) σ = true
      ∨ result (IsExtensionViewOnly To_LowerCase e) σ = true)
     ↔ snd (result (GetFileType To_LowerCase e) σ) = None).
Proof.
  rewrite IsExtensionSupported_eq, IsExtensionEditable_eq, IsExtensionViewOnly_eq,
    IsExtensionLossEditable_eq, IsExtensionOOXMLConvertable_eq.
  split.
  - rewrite !orb_true_iff. tauto.
  - rewrite GetFileType_source_order. unfold GetFileType_in_order.
    rewrite lookup_in_order_error, !comma_ok_exists. unfold source_order. split.
    + intros [H|[H|[H|H]]]; eexists; (split; [|exact H]); set_solver.
    + intros (var & Hin & Hs). rewrite !elem_of_cons in Hin.
      destruct Hin as [->|[->|[->|[->|Hin]]]]; [tauto..|by inversion Hin].
Qed.

End Classification.

(** * Disjointness of the tables *)

Section Disjointness.
Variable To_LowerCase : Z → Z.

Local Abbreviation ToLower := (strings.ToLower To_LowerCase).

Lemma map_disjoint_by_lookup (m1 m2 : gmap string string) :
  map_Forall (λ k _, m2 !! k = None) m1 → m1 ##ₘ m2.
Proof.
  intros HF. apply map_disjoint_alt. intros k.
  destruct (m1 !! k) as [v|] eqn:Hk; [right|by left]. by apply (HF k v).
Qed.

Ltac by_lookup :=
  apply map_disjoint_by_lookup, (bool_decide_unpack _);
  vm_compute; reflexivity.

Lemma tables_init_disjoint :
  OnlyofficeEditableExtensions init ##ₘ OnlyofficeOOXMLEditableExtensions init
  ∧ OnlyofficeEditableExtensions init ##ₘ OnlyofficeDataLossEditableExtensions init
  ∧ OnlyofficeEditableExtensions init ##ₘ OnlyofficeViewOnlyExtensions init
  ∧ OnlyofficeOOXMLEditableExtensions init ##ₘ OnlyofficeDataLossEditableExtensions init
  ∧ OnlyofficeOOXMLEditableExtensions init ##ₘ OnlyofficeViewOnlyExtensions init
  ∧ OnlyofficeDataLossEditableExtensions init ##ₘ OnlyofficeViewOnlyExtensions init.
Proof.
  split; [by_lookup|]. split; [by_lookup|]. split; [by_lookup|].
  split; [by_lookup|]. split; by_lookup.
Qed.

Lemma disjoint_lookup (m1 m2 : gmap string string) k v1 v2 :
  m1 ##ₘ m2 → m1 !! k = Some v1 → m2 !! k = Some v2 → False.
Proof. intros Hd H1 H2. by apply (map_disjoint_spec m1 m2) with k v1 v2. Qed.

(** In a store whose tables are pairwise disjoint, at most one table holds
    a given key. *)
Lemma source_order_unique σ var var' ext v v' :
  OnlyofficeEditableExtensions σ ##ₘ OnlyofficeOOXMLEditableExtensions σ →
  OnlyofficeEditableExtensions σ ##ₘ OnlyofficeDataLossEditableExtensions σ →
  OnlyofficeEditableExtensions σ ##ₘ OnlyofficeViewOnlyExtensions σ →
  OnlyofficeOOXMLEditableExtensions σ ##ₘ OnlyofficeDataLossEditableExtensions σ →
  OnlyofficeOOXMLEditableExtensions σ ##ₘ OnlyofficeViewOnlyExtensions σ →
  OnlyofficeDataLossEditableExtensions σ ##ₘ OnlyofficeViewOnlyExtensions σ →
  var ∈ source_order → var' ∈ source_order →
  var σ !! ext = Some v → var' σ !! ext = Some v' → v' = v.
Proof.
  intros D1 D2 D3 D4 D5 D6 Hin Hin'. unfold source_order in Hin, Hin'.
  rewrite !elem_of_cons in Hin, Hin'.
  destruct Hin as [->|[->|[->|[->|Hin]]]]; [..|by inversion Hin];
  destruct Hin' as [->|[->|[->|[->|Hin']]]]; try (by inversion Hin');
  intros H1 H2; try congruence;
  exfalso; eauto using disjoint_lookup.
Qed.

Lemma count_one (b1 b2 b3 b4 : bool) :
  (b1 = true → b2 = true → False) → (b1 = true → b3 = true → False) →
  (b1 = true → b4 = true → False) → (b2 = true → b3 = true → False) →
  (b2 = true → b4 = true → False) → (b3 = true → b4 = true → False) →
  b3 || b1 || b2 || b4 = true →
  length (filter (λ b : bool, b = true) [b1; b2; b3; b4]) = 1%nat.
Proof. destruct b1, b2, b3, b4; simpl; intros; try done; exfalso; auto. Qed.

Lemma comma_ok_disjoint (m1 m2 : gmap string string) k :
  m1 ##ₘ m2 → snd (comma_ok m1 k) = true → snd (comma_ok m2 k) = true → False.
Proof.
  intros Hd [v1 H1]%comma_ok_exists [v2 H2]%comma_ok_exists.
  eauto using disjoint_lookup.
Qed.

(** C10. The four extension maps are pairwise disjoint: no string is a
    key of two of them. Consequently every supported extension satisfies
    exactly one of the four per-table predicates, and [GetFileType] returns
    the same result whatever the order in which the four maps are
    consulted. *)
Theorem extension_maps_disjoint :
  (OnlyofficeEditableExtensions init ##ₘ OnlyofficeOOXMLEditableExtensions init
   ∧ OnlyofficeEditableExtensions init ##ₘ OnlyofficeDataLossEditableExtensions init
   ∧ OnlyofficeEditableExtensions init ##ₘ OnlyofficeViewOnlyExtensions init
   ∧ OnlyofficeOOXMLEditableExtensions init ##ₘ OnlyofficeDataLossEditableExtensions init
   ∧ OnlyofficeOOXMLEditableExtensions init ##ₘ OnlyofficeViewOnlyExtensions init
   ∧ OnlyofficeDataLossEditableExtensions init ##ₘ OnlyofficeViewOnlyExtensions init)
  ∧ (∀ e, result (IsExtensionSupported To_LowerCase e) init = true →
          predicates_holding To_LowerCase e init = 1%nat)
  ∧ (∀ e order, order ≡ₚ source_order →
       result (GetFileType_in_order To_LowerCase order e) init
       = result (GetFileType To_LowerCase e) init).
Proof.
  pose proof tables_init_disjoint as HD. split; [exact HD|].
  revert HD. generalize init. intros σ (D1 & D2 & D3 & D4 & D5 & D6). split.
  - intros e. unfold predicates_holding.
    rewrite IsExtensionSupported_eq, IsExtensionEditable_eq, IsExtensionViewOnly_eq,
      IsExtensionLossEditable_eq, IsExtensionOOXMLConvertable_eq.
    apply count_one; eauto using comma_ok_disjoint.
  - intros e order Hperm. rewrite GetFileType_source_order.
    unfold GetFileType_in_order. set (ext := ToLower e).
    pose proof (lookup_in_order_error source_order ext σ) as Hcase.
    destruct (snd (result (lookup_in_order source_order ext) σ)) as [err|].
    2: destruct (proj1 Hcase eq_refl) as (var & Hin & [v Hv]).
    1: assert (¬ ∃ var, var ∈ source_order ∧ is_Some (var σ !! ext)) as Hnone
         by (by intros ?%Hcase).
    all: clear Hcase.
    2: { assert (∀ var' v', var' ∈ source_order → var' σ !! ext = Some v' → v' = v)
        as Huniq.
      { intros var' v' Hin' Hv'.
        by apply (source_order_unique σ var var' ext v v'). }
      rewrite (lookup_in_order_found source_order ext σ var v); [|done..].
      apply (lookup_in_order_found order ext σ var v); [by rewrite Hperm|done|].
      intros var' v' Hin'. apply Huniq. by rewrite <- Hperm. }
    { assert (∀ var, var ∈ source_order → var σ !! ext = None) as Habs.
      { intros var Hin. destruct (var σ !! ext) eqn:Hv; [|done].
        exfalso. apply Hnone. exists var. split; [done|]. by eexists. }
      rewrite (lookup_in_order_absent source_order ext σ Habs).
      apply lookup_in_order_absent. intros var Hin. apply Habs. by rewrite <- Hperm. }
Qed.

End Disjointness.

(** * Facts about byte strings *)

Section StringFacts.

Lemma app_cons c (s t : string) : String c s +:+ t = String c (s +:+ t).
Proof. reflexivity. Qed.

Lemma app_empty_l (s : string) : "" +:+ s = s.
Proof. reflexivity. Qed.

Lemma app_empty_r (s : string) : s +:+ "" = s.
Proof. induction s as [|c s IH]; [done|]. by rewrite app_cons, IH. Qed.

Lemma app_assoc (s t u : string) : (s +:+ t) +:+ u = s +:+ (t +:+ u).
Proof. induction s as [|c s IH]; [done|]. by rewrite !app_cons, IH. Qed.

Lemma length_app (s t : string) :
  String.length (s +:+ t) = (String.length s + String.length t)%nat.
Proof. induction s as [|c s IH]; [done|]. rewrite app_cons. simpl. by rewrite IH. Qed.

Lemma len_nonneg s : 0 ≤ len s.
Proof. unfold len. lia. Qed.

Lemma len_cons c s : len (String c s) = len s + 1.
Proof. unfold len. simpl. lia. Qed.

Lemma len_app s t : len (s +:+ t) = len s + len t.
Proof. unfold len. rewrite length_app. lia. Qed.

Lemma len_empty_iff s : len s = 0 ↔ s = "".
Proof. destruct s; [done|]. rewrite len_cons. pose proof (len_nonneg s). split; [lia|done]. Qed.

Lemma strdrop_0 s : strdrop 0 s = s.
Proof. by destruct s. Qed.

Lemma strtake_0 s : strtake 0 s = "".
Proof. by destruct s. Qed.

Lemma strtake_strdrop n s : strtake n s +:+ strdrop n s = s.
Proof.
  revert s. induction n as [|n IH]; intros [|c s]; simpl; try done.
  by rewrite app_cons, IH.
Qed.

Lemma strdrop_app_length s t : strdrop (String.length s) (s +:+ t) = t.
Proof. induction s as [|c s IH]; [apply strdrop_0|]. by rewrite app_cons. Qed.

Lemma strtake_app_length s t : strtake (String.length s) (s +:+ t) = s.
Proof.
  induction s as [|c s IH]; [apply strtake_0|]. rewrite app_cons. simpl. by rewrite IH.
Qed.

Lemma strdrop_all s : strdrop (String.length s) s = "".
Proof. by induction s. Qed.

Lemma strtake_all s : strtake (String.length s) s = s.
Proof. induction s as [|c s IH]; [done|]. simpl. by rewrite IH. Qed.

Lemma length_strdrop n s : String.length (strdrop n s) = (String.length s - n)%nat.
Proof. revert s. induction n as [|n IH]; intros [|c s]; simpl; auto. Qed.

Lemma length_strtake n s : String.length (strtake n s) = Nat.min n (String.length s).
Proof. revert s. induction n as [|n IH]; intros [|c s]; simpl; auto. Qed.

Lemma strdrop_strdrop n m s : strdrop n (strdrop m s) = strdrop (m + n) s.
Proof.
  revert s. induction m as [|m IH]; intros s; simpl; [done|].
  destruct s; [by destruct n|]. apply IH.
Qed.

Lemma slice_from_app s t : slice_from (s +:+ t) (len s) = t.
Proof. unfold slice_from, len. rewrite Nat2Z.id. apply strdrop_app_length. Qed.

Lemma slice_to_app s t : slice_to (s +:+ t) (len s) = s.
Proof. unfold slice_to, len. rewrite Nat2Z.id. apply strtake_app_length. Qed.

Lemma get_drop i s c : String.get i s = Some c → ∃ t, strdrop i s = String c t.
Proof.
  revert i. induction s as [|c' s IH]; intros [|i]; simpl; try done.
  - intros [= ->]. by eexists.
  - apply IH.
Qed.

Lemma get_lt i s : (i < String.length s)%nat → is_Some (String.get i s).
Proof.
  revert i. induction s as [|c' s IH]; intros [|i]; simpl; try lia.
  - by eexists.
  - intros. apply IH. lia.
Qed.

Lemma Z_of_byte_range c : 0 ≤ Z_of_byte c < 256.
Proof.
  unfold Z_of_byte. pose proof (N_ascii_bounded c). lia.
Qed.

Lemma byte_of_Z_of_byte c : byte_of_Z (Z_of_byte c) = c.
Proof.
  unfold byte_of_Z, trunc8, Z_of_byte. pose proof (N_ascii_bounded c).
  rewrite Z.mod_small by lia. rewrite N2Z.id. apply ascii_N_embedding.
Qed.

Lemma Z_of_byte_of_Z z : Z_of_byte (byte_of_Z z) = trunc8 z.
Proof.
  unfold byte_of_Z, Z_of_byte.
  assert (0 ≤ trunc8 z < 256) as Hr by (unfold trunc8; apply Z.mod_pos_bound; lia).
  rewrite N_ascii_embedding by lia. lia.
Qed.

Lemma Z_of_byte_inj c c' : Z_of_byte c = Z_of_byte c' → c = c'.
Proof. intros H. by rewrite <- (byte_of_Z_of_byte c), H, byte_of_Z_of_byte. Qed.

End StringFacts.

(** * [strings.ReplaceAll] of one byte by a string *)

Section ReplaceByte.
Variables (a : ascii) (new : string).

Local Abbreviation old := (String a EmptyString).
Local Abbreviation subst_byte := (subst_byte a new).

Lemma Index_byte_nil : strings.Index "" old = -1.
Proof. reflexivity. Qed.

Lemma Index_byte_cons c t :
  strings.Index (String c t) old
  = if bool_decide (c = a) then 0
    else if strings.Index t old <? 0 then -1 else strings.Index t old + 1.
Proof.
  simpl. unfold strings.HasPrefix at 1. simpl.
  destruct (ascii_dec a c) as [->|Hne].
  - rewrite bool_decide_eq_true_2 by done. by destruct t.
  - rewrite bool_decide_eq_false_2 by congruence. done.
Qed.

(** [Index] finds the first occurrence: the string splits around it. *)
Lemma Index_byte_split s :
  (occurrences a s = O ∧ strings.Index s old = -1)
  ∨ (∃ pre post, s = pre +:+ String a post ∧ occurrences a pre = O
                 ∧ strings.Index s old = len pre
                 ∧ occurrences a s = S (occurrences a post)).
Proof.
  induction s as [|c t IH]; [by left|].
  rewrite Index_byte_cons. simpl. case_bool_decide as Hc.
  - right. subst c. by exists "", t.
  - destruct IH as [[H0 Hi]|(pre & post & -> & Hpre & Hi & Hocc)].
    + left. by rewrite Hi.
    + right. exists (String c pre), post. rewrite Hi.
      pose proof (len_nonneg pre). destruct (Z.ltb_spec (len pre) 0); [lia|].
      rewrite len_cons. simpl. rewrite bool_decide_eq_false_2 by done. done.
Qed.

Lemma subst_byte_absent s : occurrences a s = O → subst_byte s = s.
Proof.
  induction s as [|c t IH]; [done|]. simpl. case_bool_decide; [done|].
  intros Hocc. by rewrite IH.
Qed.

Lemma subst_byte_app s t : subst_byte (s +:+ t) = subst_byte s +:+ subst_byte t.
Proof.
  induction s as [|c s IH]; [done|]. rewrite app_cons. simpl.
  case_bool_decide; by rewrite IH, ?app_assoc.
Qed.

Lemma Count_loop_byte fuel s :
  (String.length s < fuel)%nat →
  strings.Count_loop fuel s old = Z.of_nat (occurrences a s).
Proof.
  revert s. induction fuel as [|fuel IH]; intros s Hlt; [lia|].
  simpl. destruct (Index_byte_split s)
    as [[H0 Hi]|(pre & post & -> & Hpre & Hi & Hocc)].
  - by rewrite Hi, H0.
  - rewrite Hi. pose proof (len_nonneg pre).
    destruct (Z.eqb_spec (len pre) (-1)); [lia|].
    change (len old) with 1. rewrite Hocc.
    replace (pre +:+ String a post) with ((pre +:+ old) +:+ post)
      by (by rewrite app_assoc).
    replace (len pre + 1) with (len (pre +:+ old)) by (by rewrite len_app).
    rewrite slice_from_app, IH; [lia|].
    rewrite !length_app in Hlt. simpl in Hlt. lia.
Qed.

Lemma Replace_loop_byte k i0 rest b :
  k = occurrences a rest →
  strings.Replace_loop k i0 rest old new b = b +:+ subst_byte rest.
Proof.
  revert i0 rest b. induction k as [|k IH]; intros i0 rest b Hk.
  - simpl. by rewrite subst_byte_absent.
  - simpl. change (len old) with 1. simpl.
    destruct (Index_byte_split rest)
      as [[H0 Hi]|(pre & post & -> & Hpre & Hi & Hocc)]; [congruence|].
    rewrite Hi, slice_to_app.
    replace (pre +:+ String a post) with ((pre +:+ old) +:+ post)
      by (by rewrite app_assoc).
    replace (len pre + 1) with (len (pre +:+ old)) by (by rewrite len_app).
    rewrite slice_from_app, IH by (rewrite Hocc in Hk; lia).
    rewrite !subst_byte_app, (subst_byte_absent pre) by done.
    simpl. rewrite bool_decide_eq_true_2 by done.
    by rewrite app_empty_r, !app_assoc.
Qed.

Lemma ReplaceAll_byte s :
  strings.ReplaceAll s old new = subst_byte s.
Proof.
  unfold strings.ReplaceAll, strings.Replace.
  case_bool_decide as Heq; simpl.
  - subst new. clear. induction s as [|c t IH]; [done|]. simpl.
    case_bool_decide; [subst; by rewrite app_cons, <- IH|by rewrite <- IH].
  - unfold strings.Count. change (len old =? 0) with false. cbv iota.
    rewrite Count_loop_byte by lia.
    destruct (Z.eqb_spec (Z.of_nat (occurrences a s)) 0) as [H0|Hn].
    + rewrite subst_byte_absent; [done|lia].
    + rewrite Replace_loop_byte; [done|lia].
Qed.

End ReplaceByte.

(** * [EscapeFilename] *)

Section Escape.

Lemma subst_byte_strmap a b s :
  subst_byte a (String b "") s = strmap (λ c, if bool_decide (c = a) then b else c) s.
Proof.
  induction s as [|c t IH]; [done|]. simpl. rewrite IH. by case_bool_decide.
Qed.

Lemma strmap_strmap f g s : strmap g (strmap f s) = strmap (λ c, g (f c)) s.
Proof. induction s as [|c t IH]; [done|]. simpl. by rewrite IH. Qed.

Lemma strmap_ext f g s : (∀ c, f c = g c) → strmap f s = strmap g s.
Proof. intros Hfg. induction s as [|c t IH]; [done|]. simpl. by rewrite Hfg, IH. Qed.

Lemma length_strmap f s : String.length (strmap f s) = String.length s.
Proof. induction s as [|c t IH]; [done|]. simpl. by rewrite IH. Qed.

Lemma get_strmap f s i : String.get i (strmap f s) = f <$> String.get i s.
Proof.
  revert i. induction s as [|c t IH]; intros i; [done|].
  destruct i as [|i]; [done|]. simpl. apply IH.
Qed.

Lemma occurs_strmap f c s : (∀ c', f c' ≠ c) → occurs c (strmap f s) = false.
Proof.
  intros Hf. induction s as [|c' t IH]; [done|]. simpl.
  rewrite IH. by rewrite bool_decide_eq_false_2.
Qed.

Lemma escape_byte_idem c : escape_byte (escape_byte c) = escape_byte c.
Proof. unfold escape_byte. repeat case_bool_decide; congruence. Qed.

Lemma escape_byte_not_slash c : escape_byte c ≠ "/"%char.
Proof. unfold escape_byte. repeat case_bool_decide; congruence. Qed.

Lemma escape_byte_not_backslash c : escape_byte c ≠ "\"%char.
Proof. unfold escape_byte. repeat case_bool_decide; congruence. Qed.

Lemma EscapeFilename_strmap filename σ :
  result (EscapeFilename filename) σ = strmap escape_byte filename.
Proof.
  unfold result, EscapeFilename, mret, M_ret. cbv zeta. unfold fst.
  rewrite !ReplaceAll_byte, !subst_byte_strmap, strmap_strmap.
  apply strmap_ext. intros c. unfold escape_byte.
  repeat case_bool_decide; congruence.
Qed.

(** C8. For every file name, [EscapeFilename] returns the string in which
    every backslash and every forward slash is replaced by a colon and
    every other byte is left as it is, position by position. Consequently
    the result has the length of the input, contains neither slash nor
    backslash, [EscapeFilename] is idempotent, and the empty input gives
    the empty string. *)
Theorem EscapeFilename_spec (filename : string) (σ : Globals) :
  let r := result (EscapeFilename filename) σ in
  r = strmap escape_byte filename
  ∧ (∀ i, String.get i r = escape_byte <$> String.get i filename)
  ∧ String.length r = String.length filename
  ∧ occurs "/" r = false
  ∧ occurs "\" r = false
  ∧ result (EscapeFilename r) σ = r
  ∧ result (EscapeFilename "") σ = "".
Proof.
  intros r. subst r. rewrite !EscapeFilename_strmap.
  split; [done|]. split; [intros i; apply get_strmap|].
  split; [apply length_strmap|].
  split; [apply occurs_strmap, escape_byte_not_slash|].
  split; [apply occurs_strmap, escape_byte_not_backslash|].
  split; [|done].
  rewrite strmap_strmap. apply strmap_ext, escape_byte_idem.
Qed.

End Escape.

(** * [GetFilenameWithoutExtension] and [GetFileExt] *)

Section Extension.
Variable IsPathSeparator : ascii → bool.

Local Abbreviation Ext := (filepath.Ext IsPathSeparator).

Lemma get_Some_lt i s c : String.get i s = Some c → (i < String.length s)%nat.
Proof.
  revert i. induction s as [|c' t IH]; intros [|i]; simpl; try done; try lia.
  intros Hget. apply IH in Hget. lia.
Qed.

Lemma occurs_strdrop_get c n s :
  occurs c (strdrop n s) = true → ∃ j, (n ≤ j)%nat ∧ String.get j s = Some c.
Proof.
  revert n. induction s as [|c' t IH]; intros n.
  - by destruct n.
  - destruct n as [|n]; simpl.
    + intros [Hc|Ht]%orb_prop.
      * apply bool_decide_eq_true in Hc as ->. exists O. split; [lia|done].
      * destruct (IH O) as (j & _ & Hj); [by rewrite strdrop_0|].
        exists (S j). split; [lia|done].
    + intros (j & Hle & Hj)%IH. exists (S j). split; [lia|done].
Qed.

(** The loop of [Ext] stops at the last dot, with no dot after it. *)
Lemma Ext_loop_spec k path :
  (k ≤ String.length path)%nat →
  filepath.Ext_loop IsPathSeparator k path = ""
  ∨ ∃ i, (i < k)%nat
       ∧ filepath.Ext_loop IsPathSeparator k path = strdrop i path
       ∧ String.get i path = Some "."%char
       ∧ ∀ j, (i < j < k)%nat → String.get j path ≠ Some "."%char.
Proof.
  induction k as [|k IH]; intros Hk; [by left|]. simpl.
  destruct (String.get k path) as [c|] eqn:Hget; [|by left].
  destruct (IsPathSeparator c); [by left|].
  case_bool_decide as Hdot.
  - right. subst c. exists k. split; [lia|]. split; [done|]. split; [done|]. lia.
  - destruct IH as [->|(i & Hi & -> & Hgi & Hafter)]; [lia|by left|].
    right. exists i. split; [lia|]. split; [done|]. split; [done|].
    intros j Hj. destruct (decide (j = k)) as [->|]; [congruence|].
    apply Hafter. lia.
Qed.

Lemma Ext_spec path :
  Ext path = ""
  ∨ ∃ i e, (i < String.length path)%nat
         ∧ Ext path = strdrop i path
         ∧ strdrop i path = String "." e
         ∧ occurs "." e = false.
Proof.
  unfold filepath.Ext.
  destruct (Ext_loop_spec (String.length path) path)
    as [->|(i & Hi & -> & Hgi & Hafter)]; [lia|by left|].
  right. destruct (get_drop _ _ _ Hgi) as [e He].
  exists i, e. split; [done|]. split; [done|]. split; [done|].
  destruct (occurs "." e) eqn:Hocc; [|done]. exfalso.
  assert (e = strdrop 1 (strdrop i path)) as -> by (by rewrite He).
  rewrite strdrop_strdrop in Hocc.
  apply occurs_strdrop_get in Hocc as (j & Hj & Hget).
  pose proof (get_Some_lt _ _ _ Hget). apply (Hafter j); [lia|done].
Qed.

Lemma subst_byte_empty_absent a s : occurs a s = false → subst_byte a "" s = s.
Proof.
  induction s as [|c t IH]; [done|]. simpl. case_bool_decide; [done|].
  simpl. intros Hocc. by rewrite IH.
Qed.

Lemma TrimSuffix_strdrop i path :
  (i ≤ String.length path)%nat →
  strings.TrimSuffix path (strdrop i path) = strtake i path.
Proof.
  intros Hi. unfold strings.TrimSuffix, strings.HasSuffix.
  assert (len path - len (strdrop i path) = Z.of_nat i) as ->.
  { unfold len. rewrite length_strdrop. lia. }
  unfold slice_from, slice_to. rewrite Nat2Z.id.
  rewrite bool_decide_eq_true_2 by done.
  destruct (Z.leb_spec (len (strdrop i path)) (len path)) as [|Hlt]; [done|].
  unfold len in Hlt. rewrite length_strdrop in Hlt. lia.
Qed.

(** C7. For every file name whose final path element contains a dot, that
    is, for which [filepath.Ext] is not empty,
    [GetFilenameWithoutExtension(filename)] followed by "." and by
    [GetFileExt(filename)] is the file name itself. *)
Theorem filename_split (filename : string) (σ : Globals) :
  filepath.Ext IsPathSeparator filename ≠ "" →
  result (GetFilenameWithoutExtension IsPathSeparator filename) σ
    +:+ "." +:+ result (GetFileExt IsPathSeparator filename) σ
  = filename.
Proof.
  intros Hext. unfold result, GetFilenameWithoutExtension, GetFileExt, mret, M_ret.
  unfold fst.
  destruct (Ext_spec filename) as [?|(i & e & Hi & HE & Hd & Hocc)]; [done|].
  rewrite HE, TrimSuffix_strdrop by lia.
  rewrite ReplaceAll_byte, Hd. simpl.
  rewrite app_empty_l, subst_byte_empty_absent by done.
  rewrite app_cons, app_empty_l, <- Hd. apply strtake_strdrop.
Qed.

(** [Ext] is not empty exactly when a dot occurs in the last element of
    the path: at a position with no separator at or after it. *)
Lemma Ext_loop_nonempty_iff k path :
  (k ≤ String.length path)%nat →
  filepath.Ext_loop IsPathSeparator k path ≠ ""
  ↔ ∃ i, (i < k)%nat ∧ String.get i path = Some "."%char
       ∧ ∀ j c, (i ≤ j < k)%nat → String.get j path = Some c →
                 IsPathSeparator c = false.
Proof.
  induction k as [|k IH]; intros Hk.
  - simpl. split; [done|]. intros (i & ? & _). lia.
  - simpl. destruct (get_lt k path) as [c Hget]; [lia|]. rewrite Hget.
    destruct (IsPathSeparator c) eqn:Hsep.
    { split; [done|]. intros (i & Hi & Hdot & Hno).
      rewrite (Hno k c) in Hsep; [done|lia|done]. }
    case_bool_decide as Hc.
    + subst c. split.
      * intros _. exists k. split; [lia|]. split; [done|].
        intros j c Hj Hc. assert (j = k) as -> by lia. congruence.
      * intros _. destruct (get_drop _ _ _ Hget) as [t ->]. done.
    + rewrite IH by lia. split.
      * intros (i & Hi & Hdot & Hno). exists i. split; [lia|]. split; [done|].
        intros j c' Hj Hc'. destruct (decide (j = k)) as [->|]; [congruence|].
        apply (Hno j); [lia|done].
      * intros (i & Hi & Hdot & Hno).
        assert (i ≠ k) by congruence.
        exists i. split; [lia|]. split; [done|].
        intros j c' Hj. apply Hno. lia.
Qed.

Lemma Ext_nonempty_iff path :
  Ext path ≠ ""
  ↔ ∃ i, String.get i path = Some "."%char
       ∧ ∀ j c, (i ≤ j)%nat → String.get j path = Some c →
                 IsPathSeparator c = false.
Proof.
  unfold filepath.Ext. rewrite Ext_loop_nonempty_iff by lia. split.
  - intros (i & Hi & Hdot & Hno). exists i. split; [done|].
    intros j c Hj Hc. apply (Hno j); [|done]. split; [done|].
    by apply get_Some_lt with c.
  - intros (i & Hdot & Hno). exists i. split; [by apply get_Some_lt with "."%char|].
    split; [done|]. intros j c Hj. apply Hno. lia.
Qed.

End Extension.

Lemma filename_split_witness :
  filepath.Ext filepath.IsPathSeparator_unix "report.docx" ≠ ""
  ∧ result (GetFilenameWithoutExtension filepath.IsPathSeparator_unix "report.docx") init
      +:+ "." +:+ result (GetFileExt filepath.IsPathSeparator_unix "report.docx") init
    = "report.docx".
Proof.
  split; [by vm_compute|].
  apply (filename_split filepath.IsPathSeparator_unix "report.docx" init).
  by vm_compute.
Defined.

(** * No method writes to the store *)

Section Frame.
Variable To_LowerCase : Z → Z.
Variable IsPathSeparator : ascii → bool.
Variable IntSize : Z.

Lemma preserves_ret {A} (a : A) : preserves (mret a).
Proof. done. Qed.

Lemma preserves_load {A} (var : Globals → A) : preserves (load var).
Proof. done. Qed.

Lemma preserves_bind {A B} (m : M A) (k : A → M B) :
  preserves m → (∀ a, preserves (k a)) → preserves (m ≫= k).
Proof.
  intros Hm Hk σ. unfold final, mbind, M_bind.
  specialize (Hm σ). unfold final in Hm.
  destruct (m σ) as [a σ']. simpl in Hm. subst σ'. apply Hk.
Qed.

Lemma preserves_fmap {A B} (f : A → B) (m : M A) :
  preserves m → preserves (f <$> m).
Proof.
  intros Hm σ. unfold final, fmap, M_fmap.
  specialize (Hm σ). unfold final in Hm. by destruct (m σ).
Qed.

Lemma result_fmap {A B} (f : A → B) (m : M A) σ :
  result (f <$> m) σ = f (result m σ).
Proof. unfold result, fmap, M_fmap. by destruct (m σ). Qed.

Ltac preserve :=
  repeat first
    [ apply preserves_ret
    | apply preserves_load
    | apply preserves_fmap
    | apply preserves_bind; [|intros ?]
    | match goal with
      | |- preserves (if ?b then _ else _) => destruct b
      | |- preserves (let '(_, _) := ?p in _) => destruct p
      | |- preserves (match ?x with _ => _ end) => destruct x
      end ].

Lemma call_preserves http_Head c :
  preserves (call To_LowerCase IsPathSeparator IntSize http_Head c).
Proof.
  destruct c; simpl;
    unfold ValidateFileSize, EscapeFilename, IsExtensionSupported,
      IsExtensionEditable, IsExtensionViewOnly, IsExtensionLossEditable,
      IsExtensionOOXMLConvertable, GetFilenameWithoutExtension, GetFileType,
      GetFileExt; cbv zeta; preserve.
Qed.

Lemma run_preserves http_Head cs :
  preserves (run To_LowerCase IsPathSeparator IntSize http_Head cs).
Proof.
  induction cs as [|c cs IH]; simpl; [apply preserves_ret|].
  apply preserves_bind; [apply call_preserves|]. intros v.
  apply preserves_bind; [apply IH|]. intros vs. apply preserves_ret.
Qed.

(** The network enters a call only through the response to the URL of
    [ValidateFileSize]. *)
Lemma call_network head1 head2 c σ :
  (∀ url, uses_network c = Some url → head1 url = head2 url) →
  call To_LowerCase IsPathSeparator IntSize head1 c σ
  = call To_LowerCase IsPathSeparator IntSize head2 c σ.
Proof.
  intros Hnet. destruct c; try reflexivity.
  simpl. unfold ValidateFileSize. by rewrite (Hnet url).
Qed.

(** C9. No method of the file utility changes the package-level variables:
    the store after a call, and after any sequence of calls, is the store
    before it. And the methods are deterministic: whatever calls were made
    before, two calls with equal arguments return equal results, provided,
    for [ValidateFileSize], that the HEAD request to its URL is answered
    alike; the network has no part in the result of any other method. *)
Theorem no_mutation_and_determinism :
  (∀ http_Head c σ,
     final (call To_LowerCase IsPathSeparator IntSize http_Head c) σ = σ)
  ∧ (∀ http_Head cs σ,
       final (run To_LowerCase IsPathSeparator IntSize http_Head cs) σ = σ)
  ∧ (∀ head1 head2 cs1 cs2 c σ,
       (∀ url, uses_network c = Some url → head1 url = head2 url) →
       result (call To_LowerCase IsPathSeparator IntSize head1 c)
              (final (run To_LowerCase IsPathSeparator IntSize head1 cs1) σ)
       = result (call To_LowerCase IsPathSeparator IntSize head2 c)
                (final (run To_LowerCase IsPathSeparator IntSize head2 cs2) σ)).
Proof.
  split; [intros; apply call_preserves|].
  split; [intros; apply run_preserves|].
  intros head1 head2 cs1 cs2 c σ Hnet.
  rewrite !run_preserves. unfold result. by rewrite (call_network head1 head2).
Qed.

End Frame.

(** * [strconv.ParseInt] at base 10 *)

Section ParseInt.

Lemma digit_value_range c d : digit_value c = Some d → 0 ≤ d ≤ 9.
Proof.
  unfold digit_value. change (Z_of_byte "0") with 48. change (Z_of_byte "9") with 57.
  destruct (Z.leb_spec 48 (Z_of_byte c)), (Z.leb_spec (Z_of_byte c) 57);
    simpl; intros [= <-]; lia.
Qed.

Lemma digits_value_ge s acc v : 0 ≤ acc → digits_value s acc = Some v → acc ≤ v.
Proof.
  revert acc. induction s as [|c t IH]; intros acc Hacc; simpl.
  - intros [= <-]. lia.
  - destruct (digit_value c) as [d|] eqn:Hd; [|done].
    apply digit_value_range in Hd. intros Hv. apply IH in Hv; lia.
Qed.

Lemma lower_range c : 0 ≤ c < 256 → 0 ≤ strconv.lower c < 256.
Proof.
  intros Hc. unfold strconv.lower. change (Z_of_byte "x" - Z_of_byte "X") with 32.
  split; [apply Z.lor_nonneg; lia|].
  change 256 with (2 ^ 8). apply Z.log2_lt_cancel.
  destruct (decide (Z.lor c 32 = 0)) as [->|]; [done|].
  rewrite Z.log2_lor by lia.
  assert (Z.log2 c < 8).
  { destruct (decide (c = 0)) as [->|]; [done|].
    apply Z.log2_lt_pow2; lia. }
  change (Z.log2 32) with 5. rewrite Z.log2_pow2 by lia. lia.
Qed.

(** One turn of the digit loop, by the class of the byte. *)
Lemma ParseUint_loop_digit maxVal c t n d :
  digit_value c = Some d →
  strconv.ParseUint_loop maxVal (String c t) n
  = if strconv.maxUint64 / 10 + 1 <=? n then (maxVal, Some strconv.ErrRange)
    else if (strconv.uint64 (strconv.uint64 (n * 10) + d) <? strconv.uint64 (n * 10))
            || (maxVal <? strconv.uint64 (strconv.uint64 (n * 10) + d))
         then (maxVal, Some strconv.ErrRange)
         else strconv.ParseUint_loop maxVal t
                (strconv.uint64 (strconv.uint64 (n * 10) + d)).
Proof.
  intros Hd. pose proof (digit_value_range c d Hd) as Hr.
  unfold digit_value in Hd. simpl.
  destruct ((Z_of_byte "0" <=? Z_of_byte c) && (Z_of_byte c <=? Z_of_byte "9"));
    [|done].
  injection Hd as Hd. rewrite Hd.
  assert (trunc8 d = d) as -> by (unfold trunc8; apply Z.mod_small; lia).
  change (trunc8 10) with 10.
  destruct (Z.leb_spec 10 d); [lia|]. done.
Qed.

Lemma ParseUint_loop_nondigit maxVal c t n :
  digit_value c = None →
  strconv.ParseUint_loop maxVal (String c t) n = (0, Some strconv.ErrSyntax).
Proof.
  intros Hd. unfold digit_value in Hd. simpl.
  destruct ((Z_of_byte "0" <=? Z_of_byte c) && (Z_of_byte c <=? Z_of_byte "9"));
    [done|].
  change (Z_of_byte "a") with 97. change (Z_of_byte "z") with 122.
  pose proof (lower_range (Z_of_byte c) (Z_of_byte_range c)) as Hl.
  destruct (Z.leb_spec 97 (strconv.lower (Z_of_byte c))),
           (Z.leb_spec (strconv.lower (Z_of_byte c)) 122); simpl; try done.
  assert (trunc8 (strconv.lower (Z_of_byte c) - 97 + 10)
          = strconv.lower (Z_of_byte c) - 87) as ->
    by (unfold trunc8; rewrite Z.mod_small; lia).
  change (trunc8 10) with 10.
  destruct (Z.leb_spec 10 (strconv.lower (Z_of_byte c) - 87)); [done|lia].
Qed.

(** The loop returns without error exactly on a string of digits whose
    value fits; otherwise its error is a syntax or a range error, and a
    range error comes with the value [maxVal]. *)
Lemma ParseUint_loop_spec maxVal s n :
  0 ≤ n ≤ maxVal → maxVal ≤ strconv.maxUint64 →
  match digits_value s n with
  | Some v =>
    if v <=? maxVal then strconv.ParseUint_loop maxVal s n = (v, None)
    else strconv.ParseUint_loop maxVal s n = (maxVal, Some strconv.ErrRange)
  | None =>
    strconv.ParseUint_loop maxVal s n = (0, Some strconv.ErrSyntax)
    ∨ strconv.ParseUint_loop maxVal s n = (maxVal, Some strconv.ErrRange)
  end.
Proof.
  intros Hn Hmax. revert n Hn. unfold strconv.maxUint64 in Hmax.
  induction s as [|c t IH]; intros n Hn.
  - simpl. destruct (Z.leb_spec n maxVal); [done|lia].
  - cbn [digits_value]. destruct (digit_value c) as [d|] eqn:Hd.
    2: { left. by apply ParseUint_loop_nondigit. }
    rewrite (ParseUint_loop_digit _ _ _ _ _ Hd).
    pose proof (digit_value_range c d Hd) as Hr.
    change (strconv.maxUint64 / 10 + 1) with 1844674407370955162.
    assert (∀ v, digits_value t (10 * n + d) = Some v → 10 * n + d ≤ v) as Hge
      by (intros v; apply digits_value_ge; lia).
    assert (maxVal < 10 * n + d →
            match digits_value t (10 * n + d) with
            | Some v => if v <=? maxVal then False else True
            | None => True
            end) as Hover.
    { intros Hlt. destruct (digits_value t (10 * n + d)) as [v|] eqn:Hv; [|done].
      specialize (Hge v eq_refl). destruct (Z.leb_spec v maxVal); [lia|done]. }
    destruct (Z.leb_spec 1844674407370955162 n) as [Hcut|Hcut].
    { specialize (Hover ltac:(lia)).
      destruct (digits_value t (10 * n + d)) as [v|]; [|by right].
      by destruct (v <=? maxVal). }
    unfold strconv.uint64. change (2 ^ 64) with 18446744073709551616 in *.
    rewrite (Z.mod_small (n * 10)) by lia.
    destruct (Z_lt_ge_dec (n * 10 + d) 18446744073709551616) as [Hfit|Hwrap].
    + rewrite (Z.mod_small (n * 10 + d)) by lia.
      destruct (Z.ltb_spec (n * 10 + d) (n * 10)); [lia|]. simpl.
      destruct (Z.ltb_spec maxVal (n * 10 + d)) as [Hbig|Hok].
      * specialize (Hover ltac:(lia)).
        destruct (digits_value t (10 * n + d)) as [v|]; [|by right].
        by destruct (v <=? maxVal).
      * replace (n * 10 + d) with (10 * n + d) by lia. apply IH. lia.
    + assert ((n * 10 + d) mod 18446744073709551616
              = n * 10 + d - 18446744073709551616) as ->.
      { symmetry. apply Z.mod_unique with 1; lia. }
      destruct (Z.ltb_spec (n * 10 + d - 18446744073709551616) (n * 10)); [|lia].
      simpl. specialize (Hover ltac:(lia)).
      destruct (digits_value t (10 * n + d)) as [v|]; [|by right].
      by destruct (v <=? maxVal).
Qed.

Variable IntSize : Z.
Hypothesis IntSize_32_or_64 : IntSize = 32 ∨ IntSize = 64.

Lemma ParseUint_base10_spec s :
  let maxVal := 2 ^ IntSize - 1 in
  match unsigned_decimal s with
  | Some v =>
    if v <=? maxVal then strconv.ParseUint_base10 IntSize s 0 = (v, None)
    else strconv.ParseUint_base10 IntSize s 0 = (maxVal, Some strconv.ErrRange)
  | None =>
    strconv.ParseUint_base10 IntSize s 0 = (0, Some strconv.ErrSyntax)
    ∨ strconv.ParseUint_base10 IntSize s 0 = (maxVal, Some strconv.ErrRange)
  end.
Proof.
  intros maxVal. unfold strconv.ParseUint_base10.
  destruct s as [|c t]; [by left|].
  rewrite bool_decide_eq_false_2 by done. cbn [orb Z.ltb Z.compare Z.eqb].
  assert (strconv.uint64 (Z.shiftl 1 IntSize - 1) = maxVal) as ->.
  { subst maxVal. destruct IntSize_32_or_64 as [-> | ->]; reflexivity. }
  assert (0 ≤ 0 ≤ maxVal ∧ maxVal ≤ strconv.maxUint64) as [H0 Hmax].
  { subst maxVal. unfold strconv.maxUint64.
    destruct IntSize_32_or_64 as [-> | ->]; lia. }
  apply (ParseUint_loop_spec maxVal (String c t) 0 H0 Hmax).
Qed.

(** The sign-free part of [ParseInt]: what it makes of the result of
    [ParseUint]. *)
Lemma ParseInt_base10_unfold c0 t :
  strconv.ParseInt_base10 IntSize (String c0 t) 0
  = let neg := bool_decide (c0 = "-"%char) in
    let s' := if bool_decide (c0 = "+"%char) || neg then t else String c0 t in
    let '(un, err) := strconv.ParseUint_base10 IntSize s' 0 in
    match err with
    | Some strconv.ErrSyntax => (0, Some strconv.ErrSyntax)
    | Some strconv.ErrBitSize => (0, Some strconv.ErrBitSize)
    | _ =>
      let cutoff := 2 ^ (IntSize - 1) in
      if negb neg && (cutoff <=? un)
      then (strconv.int64 (cutoff - 1), Some strconv.ErrRange)
      else if neg && (cutoff <? un)
      then (strconv.int64 (- strconv.int64 cutoff), Some strconv.ErrRange)
      else ((if neg then strconv.int64 (- strconv.int64 un)
             else strconv.int64 un), None)
    end.
Proof.
  unfold strconv.ParseInt_base10. cbn [Z.eqb].
  assert (strconv.uint64 (Z.shiftl 1 (IntSize - 1)) = 2 ^ (IntSize - 1)) as ->
    by (destruct IntSize_32_or_64 as [-> | ->]; reflexivity).
  repeat case_bool_decide; subst; try done.
Qed.

Lemma ParseInt_base10_spec s :
  match decimal_integer s with
  | Some v =>
    if bool_decide (int_range IntSize v)
    then strconv.ParseInt_base10 IntSize s 0 = (v, None)
    else ∃ w, strconv.ParseInt_base10 IntSize s 0 = (w, Some strconv.ErrRange)
  | None => ∃ w e, strconv.ParseInt_base10 IntSize s 0 = (w, Some e)
  end.
Proof.
  destruct s as [|c0 t]; [by eexists _, _|].
  rewrite ParseInt_base10_unfold. cbv zeta.
  set (neg := bool_decide (c0 = "-"%char)).
  set (s' := if bool_decide (c0 = "+"%char) || neg then t else String c0 t).
  assert (decimal_integer (String c0 t)
          = if neg then Z.opp <$> unsigned_decimal s' else unsigned_decimal s')
    as Hdec.
  { subst s' neg. unfold decimal_integer.
    repeat case_bool_decide; subst; try done. }
  rewrite Hdec. clear Hdec.
  pose proof (ParseUint_base10_spec s') as HU. cbv zeta in HU.
  assert (2 ≤ 2 ^ (IntSize - 1) ∧ 2 ^ IntSize = 2 * 2 ^ (IntSize - 1)
          ∧ 2 ^ (IntSize - 1) ≤ 2 ^ 63) as (Hpos & Hdouble & H63)
    by (destruct IntSize_32_or_64 as [-> | ->]; lia).
  assert (∀ v, unsigned_decimal s' = Some v → 0 ≤ v) as Hnn.
  { intros v. destruct s'; [done|]. apply digits_value_ge. lia. }
  unfold int_range.
  destruct (unsigned_decimal s') as [v|] eqn:Hv.
  - specialize (Hnn v eq_refl).
    destruct (Z.leb_spec v (2 ^ IntSize - 1)) as [Hfit|Hbig].
    + rewrite HU. clear HU.
      destruct neg; cbn [negb andb fmap option_fmap option_map].
      * destruct (Z.ltb_spec (2 ^ (IntSize - 1)) v).
        -- rewrite bool_decide_eq_false_2 by lia. by eexists.
        -- rewrite bool_decide_eq_true_2 by lia. f_equal.
           unfold strconv.int64. change (2 ^ 64) with (2 * 2 ^ 63).
           destruct (decide (v = 2 ^ 63)) as [->|]; [reflexivity|].
           rewrite (Z.mod_small (v + 2 ^ 63)) by lia.
           replace (v + 2 ^ 63 - 2 ^ 63) with v by lia.
           rewrite (Z.mod_small (- v + 2 ^ 63)) by lia. lia.
      * destruct (Z.leb_spec (2 ^ (IntSize - 1)) v).
        -- rewrite bool_decide_eq_false_2 by lia. by eexists.
        -- rewrite bool_decide_eq_true_2 by lia. f_equal.
           unfold strconv.int64. change (2 ^ 64) with (2 * 2 ^ 63).
           rewrite (Z.mod_small (v + 2 ^ 63)) by lia. lia.
    + rewrite HU. clear HU.
      destruct neg; cbn [negb andb fmap option_fmap option_map].
      * destruct (Z.ltb_spec (2 ^ (IntSize - 1)) (2 ^ IntSize - 1)); [|lia].
        rewrite bool_decide_eq_false_2 by lia. by eexists.
      * destruct (Z.leb_spec (2 ^ (IntSize - 1)) (2 ^ IntSize - 1)); [|lia].
        rewrite bool_decide_eq_false_2 by lia. by eexists.
  - assert ((if neg then Z.opp <$> None else None) = @None Z) as ->
      by (by destruct neg).
    destruct HU as [-> | ->]; [by eexists _, _|].
    destruct neg; cbn [negb andb].
    * destruct (Z.ltb_spec (2 ^ (IntSize - 1)) (2 ^ IntSize - 1)); [|lia].
      by eexists _, _.
    * destruct (Z.leb_spec (2 ^ (IntSize - 1)) (2 ^ IntSize - 1)); [|lia].
      by eexists _, _.
Qed.

(** [ParseInt] succeeds exactly on the decimal numerals of an integer in
    the range of [int], and returns that integer. *)
Lemma ParseInt_base10_ok_iff s v :
  strconv.ParseInt_base10 IntSize s 0 = (v, None)
  ↔ decimal_integer s = Some v ∧ int_range IntSize v.
Proof.
  pose proof (ParseInt_base10_spec s) as H.
  destruct (decimal_integer s) as [v'|].
  - case_bool_decide as Hr.
    + rewrite H. split; [by intros [= <-]|]. by intros [[= <-] _].
    + destruct H as [w ->]. split; [done|]. by intros [[= <-] ?].
  - destruct H as (w & e & ->). split; [done|]. by intros [? _].
Qed.

End ParseInt.

(** * [ValidateFileSize] *)

Section ValidateFileSize.
Variable IntSize : Z.
Variable http_Head : string → HeadResult.

Lemma ValidateFileSize_result ctx limit url resp σ :
  http_Head url = HeadResponse resp →
  result (ValidateFileSize IntSize http_Head ctx limit url) σ
  = let r := strconv.ParseInt_base10 IntSize
               (http.Header_Get (http.Header resp) "Content-Length") 0 in
    if (limit <? r.1) || bool_decide (r.2 ≠ None)
    then Some (ErrInvalidContentLength σ) else None.
Proof.
  intros Hhead. unfold result, ValidateFileSize. rewrite Hhead. cbv zeta.
  destruct (strconv.ParseInt_base10 _ _ _) as [val err]. simpl.
  by destruct ((limit <? val) || bool_decide (err ≠ None)).
Qed.

Lemma Header_Get_missing (h : gmap string (list string)) key :
  h !! key = None → http.Header_Get h key = "".
Proof. intros H. unfold http.Header_Get. by rewrite H. Qed.

(** The outcome in terms of [strconv.ParseInt]: nil exactly when the call
    [ParseInt(header, 10, 0)] reports no error and a value at most
    [limit], and [ErrInvalidContentLength] otherwise. *)
Lemma ValidateFileSize_by_ParseInt ctx limit url resp σ :
  http_Head url = HeadResponse resp →
  let header := http.Header_Get (http.Header resp) "Content-Length" in
  let r := result (ValidateFileSize IntSize http_Head ctx limit url) σ in
  (r = None
   ↔ ∃ v, strconv.ParseInt_base10 IntSize header 0 = (v, None) ∧ v ≤ limit)
  ∧ (r ≠ None → r = Some (ErrInvalidContentLength σ)).
Proof.
  intros Hhead header r.
  assert (r = let p := strconv.ParseInt_base10 IntSize header 0 in
              if (limit <? p.1) || bool_decide (p.2 ≠ None)
              then Some (ErrInvalidContentLength σ) else None) as Hr
    by (by apply ValidateFileSize_result).
  clearbody r. cbv zeta in Hr. split.
  - rewrite Hr. clear Hr.
    destruct (strconv.ParseInt_base10 IntSize header 0) as [val err].
    simpl. destruct (Z.ltb_spec limit val) as [Hlt|Hle]; simpl.
    + split; [done|]. intros (v & [= <- _] & ?). lia.
    + destruct err as [e|].
      * rewrite bool_decide_eq_true_2 by done.
        split; [done|]. by intros (v & [= _] & _).
      * rewrite bool_decide_eq_false_2 by (by intros []).
        split; [|done]. intros _. by exists val.
  - rewrite Hr. by destruct (_ || _).
Qed.

Lemma int_range_64 v :
  IntSize = 32 ∨ IntSize = 64 → int_range IntSize v → int_range 64 v.
Proof.
  unfold int_range. intros [-> | ->] H; [|exact H].
  change (2 ^ (32 - 1)) with 2147483648 in H.
  change (2 ^ (64 - 1)) with 9223372036854775808. lia.
Qed.

(** C6, amended. With the answer to the HEAD request taken as an input:
    when the request succeeds, [ValidateFileSize(ctx, limit, url)] returns
    nil only if the value of the Content-Length header is a decimal
    numeral, with an optional sign, of an integer at most [limit]; and
    when that integer lies in the range of [int], it returns nil if and
    only if the integer is at most [limit], so that a Content-Length equal
    to [limit] passes. It returns [ErrInvalidContentLength] when the
    integer, in the range of [int], exceeds [limit], when the integer lies
    outside the range of [int64], and when the header is missing, empty or
    not such a numeral; it returns no other error. Nothing is stated for
    the numerals of integers in the range of [int64] and outside that of
    [int], which exist where [int] has 32 bits: [ParseInt] is called with
    bit size 0 while [limit] is an [int64]. *)
Theorem ValidateFileSize_amended (ctx : Context) (limit : Z) (url : string)
    (resp : http.Response) (σ : Globals) :
  IntSize = 32 ∨ IntSize = 64 →
  http_Head url = HeadResponse resp →
  let header := http.Header_Get (http.Header resp) "Content-Length" in
  let r := result (ValidateFileSize IntSize http_Head ctx limit url) σ in
  (r = None → ∃ v, decimal_integer header = Some v ∧ v ≤ limit)
  ∧ (∀ v, decimal_integer header = Some v → int_range IntSize v →
          (r = None ↔ v ≤ limit))
  ∧ (∀ v, decimal_integer header = Some v → int_range IntSize v → limit < v →
          r = Some (ErrInvalidContentLength σ))
  ∧ (∀ v, decimal_integer header = Some v → ¬ int_range 64 v →
          r = Some (ErrInvalidContentLength σ))
  ∧ (http.Header resp !! "Content-Length" = None →
     r = Some (ErrInvalidContentLength σ))
  ∧ (header = "" → r = Some (ErrInvalidContentLength σ))
  ∧ (decimal_integer header = None → r = Some (ErrInvalidContentLength σ))
  ∧ (r ≠ None → r = Some (ErrInvalidContentLength σ))
  ∧ (decimal_integer header = Some limit → int_range IntSize limit → r = None).
Proof.
  intros Hsize Hhead header r.
  destruct (ValidateFileSize_by_ParseInt ctx limit url resp σ Hhead)
    as [Hiff Herr].
  fold header in Hiff. fold r in Hiff, Herr. clearbody r.
  assert (∀ v, decimal_integer header = Some v → int_range IntSize v →
               (r = None ↔ v ≤ limit)) as Hin.
  { intros v Hdec Hrange. rewrite Hiff. split.
    - intros (v' & Hv'%(ParseInt_base10_ok_iff IntSize Hsize) & Hle).
      destruct Hv' as [Hv' _]. congruence.
    - intros Hle. exists v. split; [|done].
      by apply (ParseInt_base10_ok_iff IntSize Hsize). }
  assert (decimal_integer header = None → r = Some (ErrInvalidContentLength σ))
    as Hnone.
  { intros Hdec. apply Herr. rewrite Hiff.
    intros (v & Hv%(ParseInt_base10_ok_iff IntSize Hsize) & _).
    destruct Hv as [Hv _]. congruence. }
  assert (header = "" → r = Some (ErrInvalidContentLength σ)) as Hempty.
  { intros Hh. apply Hnone. by rewrite Hh. }
  split.
  { rewrite Hiff.
    intros (v & Hv%(ParseInt_base10_ok_iff IntSize Hsize) & Hle).
    exists v. tauto. }
  split; [exact Hin|].
  split.
  { intros v Hdec Hrange Hlt. apply Herr. rewrite (Hin v Hdec Hrange). lia. }
  split.
  { intros v Hdec Hout. apply Herr. rewrite Hiff.
    intros (v' & Hv'%(ParseInt_base10_ok_iff IntSize Hsize) & _).
    destruct Hv' as [Hv' Hrange]. apply Hout, (int_range_64 _ Hsize).
    congruence. }
  split.
  { intros Hmiss. apply Hempty. by apply Header_Get_missing. }
  split; [exact Hempty|].
  split; [exact Hnone|].
  split; [exact Herr|].
  intros Hdec Hrange. apply (Hin limit Hdec Hrange). lia.
Qed.

End ValidateFileSize.

Lemma ValidateFileSize_amended_witness :
  (64 = 32 ∨ 64 = 64)
  ∧ Samples.sample_Head "http://files/report.docx"
    = HeadResponse Samples.sample_Response
  ∧ decimal_integer "1024" = Some 1024
  ∧ int_range 64 1024
  ∧ result (ValidateFileSize 64 Samples.sample_Head context_Background 1024
              "http://files/report.docx") init = None.
Proof.
  assert (int_range 64 1024) as Hrange by (unfold int_range; lia).
  split; [by right|]. split; [reflexivity|]. split; [by vm_compute|].
  split; [exact Hrange|].
  destruct (ValidateFileSize_amended 64 Samples.sample_Head context_Background
              1024 "http://files/report.docx" Samples.sample_Response init
              (or_intror eq_refl) eq_refl)
    as (_ & _ & _ & _ & _ & _ & _ & _ & Heq).
  apply Heq; [by vm_compute|exact Hrange].
Defined.

(** C6 as it is stated fails in both directions of the range of [int]. Where
    [int] has 32 bits, the Content-Length 2147483648 is a base-10 integer
    equal to the limit 2147483648, and the call returns
    [ErrInvalidContentLength]. Where [int] has 64 bits, the Content-Length
    -9223372036854775809 is a base-10 integer below the limit 0, and the
    call returns [ErrInvalidContentLength]. *)
Lemma ValidateFileSize_counterexample :
  (Samples.head_with "2147483648" "http://files/a.docx"
   = HeadResponse {| http.Header := {[ "Content-Length" := ["2147483648"] ]} |}
   ∧ decimal_integer "2147483648" = Some 2147483648
   ∧ ¬ (result (ValidateFileSize 32 (Samples.head_with "2147483648")
                  context_Background 2147483648 "http://files/a.docx") init = None
        ↔ ∃ v, decimal_integer "2147483648" = Some v ∧ v ≤ 2147483648)
   ∧ result (ValidateFileSize 32 (Samples.head_with "2147483648")
               context_Background 2147483648 "http://files/a.docx") init
     = Some (ErrInvalidContentLength init))
  ∧ (decimal_integer "-9223372036854775809" = Some (-9223372036854775809)
     ∧ ¬ (result (ValidateFileSize 64 (Samples.head_with "-9223372036854775809")
                    context_Background 0 "http://files/a.docx") init = None
          ↔ ∃ v, decimal_integer "-9223372036854775809" = Some v ∧ v ≤ 0)
     ∧ result (ValidateFileSize 64 (Samples.head_with "-9223372036854775809")
                 context_Background 0 "http://files/a.docx") init
       = Some (ErrInvalidContentLength init)).
Proof.
  assert (decimal_integer "2147483648" = Some 2147483648) as Hd32
    by (by vm_compute).
  assert (decimal_integer "-9223372036854775809" = Some (-9223372036854775809))
    as Hd64 by (by vm_compute).
  assert (result (ValidateFileSize 32 (Samples.head_with "2147483648")
                    context_Background 2147483648 "http://files/a.docx") init
          = Some (ErrInvalidContentLength init)) as Hr32
    by (vm_compute; reflexivity).
  assert (result (ValidateFileSize 64 (Samples.head_with "-9223372036854775809")
                    context_Background 0 "http://files/a.docx") init
          = Some (ErrInvalidContentLength init)) as Hr64
    by (vm_compute; reflexivity).
  split.
  - split; [reflexivity|]. split; [exact Hd32|]. split; [|exact Hr32].
    rewrite Hr32. intros [_ H].
    assert (∃ v, decimal_integer "2147483648" = Some v ∧ v ≤ 2147483648) as Hex
      by (exists 2147483648; split; [exact Hd32|lia]).
    apply H in Hex. discriminate Hex.
  - split; [exact Hd64|]. split; [|exact Hr64].
    rewrite Hr64. intros [_ H].
    assert (∃ v, decimal_integer "-9223372036854775809" = Some v ∧ v ≤ 0) as Hex
      by (exists (-9223372036854775809); split; [exact Hd64|lia]).
    apply H in Hex. discriminate Hex.
Qed.

(** * UTF-8: decoding and encoding are inverse *)

Section Bits.

Lemma land_shifted_low a b k :
  0 ≤ k → 0 ≤ b < 2 ^ k → Z.land (a * 2 ^ k) b = 0.
Proof.
  intros Hk Hb. apply Z.bits_inj'. intros n Hn.
  rewrite Z.land_spec, Z.bits_0.
  destruct (Z.lt_ge_cases n k) as [Hlt|Hge].
  - by rewrite Z.mul_pow2_bits_low.
  - destruct (decide (b = 0)) as [->|Hb0]; [by rewrite Z.bits_0, andb_false_r|].
    rewrite (Z.bits_above_log2 b n), andb_false_r; [done|lia|].
    apply Z.lt_le_trans with k; [|done]. apply Z.log2_lt_pow2; lia.
Qed.

Lemma lor_shifted_low a b k :
  0 ≤ k → 0 ≤ b < 2 ^ k → Z.lor (a * 2 ^ k) b = a * 2 ^ k + b.
Proof.
  intros Hk Hb. symmetry. apply Z.add_nocarry_lor. by apply land_shifted_low.
Qed.

Lemma land_low a k : 0 ≤ k → Z.land a (2 ^ k - 1) = a mod 2 ^ k.
Proof.
  intros Hk. rewrite <- Z.land_ones by done. f_equal.
  rewrite Z.ones_equiv. lia.
Qed.

Lemma lor_3 a b c :
  0 ≤ b < 64 → 0 ≤ c < 64 →
  Z.lor (Z.lor (a * 2 ^ 12) (b * 2 ^ 6)) c = a * 4096 + b * 64 + c.
Proof.
  intros Hb Hc. rewrite (lor_shifted_low a (b * 2 ^ 6) 12) by lia.
  replace (a * 2 ^ 12 + b * 2 ^ 6) with ((a * 64 + b) * 2 ^ 6) by lia.
  rewrite lor_shifted_low by lia. lia.
Qed.

Lemma lor_4 a b c d :
  0 ≤ b < 64 → 0 ≤ c < 64 → 0 ≤ d < 64 →
  Z.lor (Z.lor (Z.lor (a * 2 ^ 18) (b * 2 ^ 12)) (c * 2 ^ 6)) d
  = a * 262144 + b * 4096 + c * 64 + d.
Proof.
  intros Hb Hc Hd. rewrite (lor_shifted_low a (b * 2 ^ 12) 18) by lia.
  replace (a * 2 ^ 18 + b * 2 ^ 12) with ((a * 64 + b) * 2 ^ 12) by lia.
  rewrite lor_3 by lia. lia.
Qed.

Lemma trunc8_small z : 0 ≤ z < 256 → trunc8 z = z.
Proof. intros. unfold trunc8. by apply Z.mod_small. Qed.

Lemma Z_of_byte_of_Z_small z : 0 ≤ z < 256 → Z_of_byte (byte_of_Z z) = z.
Proof. intros. by rewrite Z_of_byte_of_Z, trunc8_small. Qed.

End Bits.

Section Decode.
Import utf8.

Lemma DecodeRuneInString_empty : DecodeRuneInString "" = (RuneError, 0).
Proof. reflexivity. Qed.

Lemma index_0 c q : index (String c q) 0 = Z_of_byte c.
Proof. reflexivity. Qed.
Lemma index_1 c0 c q : index (String c0 (String c q)) 1 = Z_of_byte c.
Proof. reflexivity. Qed.
Lemma index_2 c0 c1 c q : index (String c0 (String c1 (String c q))) 2 = Z_of_byte c.
Proof. reflexivity. Qed.
Lemma index_3 c0 c1 c2 c q :
  index (String c0 (String c1 (String c2 (String c q)))) 3 = Z_of_byte c.
Proof. reflexivity. Qed.

(** The rows of [first]. *)
Ltac eval_tests :=
  repeat (match goal with
          | |- context [if ?x <? ?y then _ else _] =>
            destruct (Z.ltb_spec x y); cbv iota
          | |- context [if ?x <=? ?y then _ else _] =>
            destruct (Z.leb_spec x y); cbv iota
          | |- context [if ?x =? ?y then _ else _] =>
            destruct (Z.eqb_spec x y); cbv iota
          end; try lia).

Lemma first_as b : b < 0x80 → first b = as_.
Proof. intros. unfold first. eval_tests; done. Qed.
Lemma first_s1 b : 0xC2 ≤ b < 0xE0 → first b = s1.
Proof. intros. unfold first. eval_tests; done. Qed.
Lemma first_s3 b : 0xE1 ≤ b < 0xED ∨ 0xEE ≤ b < 0xF0 → first b = s3.
Proof. intros. unfold first. eval_tests; done. Qed.
Lemma first_s6 b : 0xF1 ≤ b < 0xF4 → first b = s6.
Proof. intros. unfold first. eval_tests; done. Qed.
Lemma first_xx b : 0x80 ≤ b < 0xC2 ∨ 0xF5 ≤ b → first b = xx.
Proof. intros. unfold first. eval_tests; done. Qed.

(** Whether a first byte starts an encoding of 1, 2, 3 or 4 bytes, or
    none. *)
Lemma first_rows b :
  0 ≤ b < 256 →
  (b < 0x80 ∧ first b = as_)
  ∨ (0xC2 ≤ b < 0xE0 ∧ first b = s1)
  ∨ (b = 0xE0 ∧ first b = s2)
  ∨ ((0xE1 ≤ b < 0xED ∨ 0xEE ≤ b < 0xF0) ∧ first b = s3)
  ∨ (b = 0xED ∧ first b = s4)
  ∨ (b = 0xF0 ∧ first b = s5)
  ∨ (0xF1 ≤ b < 0xF4 ∧ first b = s6)
  ∨ (b = 0xF4 ∧ first b = s7)
  ∨ ((0x80 ≤ b < 0xC2 ∨ 0xF5 ≤ b) ∧ first b = xx).
Proof.
  intros Hb.
  destruct (Z.lt_ge_cases b 0x80); [left; split; [done|by apply first_as]|right].
  destruct (Z.lt_ge_cases b 0xC2);
    [do 7 right; split; [lia|apply first_xx; lia]|].
  destruct (Z.lt_ge_cases b 0xE0); [left; split; [lia|apply first_s1; lia]|right].
  destruct (decide (b = 0xE0)) as [->|]; [by left|right].
  destruct (decide (b = 0xED)) as [->|]; [by right; left|].
  destruct (Z.lt_ge_cases b 0xF0); [left; split; [lia|apply first_s3; lia]|].
  do 2 right.
  destruct (decide (b = 0xF0)) as [->|]; [by left|right].
  destruct (Z.lt_ge_cases b 0xF4); [left; split; [lia|apply first_s6; lia]|right].
  destruct (decide (b = 0xF4)) as [->|]; [by left|right].
  split; [lia|apply first_xx; lia].
Qed.

Lemma DecodeRuneInString_core s :
  DecodeRuneInString s
  = decode_core (len s) (index s 0) (index s 1) (index s 2) (index s 3).
Proof. reflexivity. Qed.

Ltac bits_to_arith :=
  change mask2 with (2 ^ 5 - 1); change mask3 with (2 ^ 4 - 1);
  change mask4 with (2 ^ 3 - 1); change maskx with (2 ^ 6 - 1);
  rewrite ?land_low by lia; rewrite ?Z.shiftl_mul_pow2 by lia.

Lemma decode_core_1 n z0 z1 z2 z3 :
  1 ≤ n → 0 ≤ z0 < 0x80 → decode_core n z0 z1 z2 z3 = (z0, 1).
Proof.
  intros Hn Hz. unfold decode_core. rewrite first_as by lia.
  destruct (Z.ltb_spec n 1); [lia|].
  change (as_ <=? as_) with true. cbv iota zeta.
  change (Z.shiftr (int32 (Z.shiftl as_ 31)) 31) with 0.
  change (Z.lnot 0) with (-1).
  by rewrite Z.land_m1_r, Z.land_0_r, Z.lor_0_r.
Qed.

Lemma decode_core_xx n z0 z1 z2 z3 :
  1 ≤ n → 0x80 ≤ z0 < 0xC2 ∨ 0xF5 ≤ z0 →
  decode_core n z0 z1 z2 z3 = (RuneError, 1).
Proof.
  intros Hn Hz. unfold decode_core. rewrite first_xx by lia.
  destruct (Z.ltb_spec n 1); [lia|].
  change (as_ <=? xx) with true. cbv iota zeta.
  change (Z.shiftr (int32 (Z.shiftl xx 31)) 31) with (-1).
  change (Z.lnot (-1)) with 0.
  by rewrite Z.land_0_r, Z.land_m1_r, Z.lor_0_l.
Qed.

Lemma decode_core_2 n z0 z1 z2 z3 :
  2 ≤ n → 0xC2 ≤ z0 < 0xE0 → 0x80 ≤ z1 ≤ 0xBF →
  decode_core n z0 z1 z2 z3 = ((z0 - 0xC0) * 64 + (z1 - 0x80), 2).
Proof.
  intros Hn Hz0 Hz1. unfold decode_core. rewrite first_s1 by lia.
  destruct (Z.ltb_spec n 1); [lia|].
  change (as_ <=? s1) with false. cbv iota zeta.
  change (Z.land s1 7) with 2. change (acceptRanges (Z.shiftr s1 4)) with (locb, hicb).
  unfold fst, snd, locb, hicb.
  destruct (Z.ltb_spec n 2); [lia|].
  destruct (Z.ltb_spec z1 128); [lia|]. destruct (Z.ltb_spec 191 z1); [lia|].
  change (2 <=? 2) with true. cbv iota. unfold orb.
  bits_to_arith.
  assert (z0 mod 2 ^ 5 = z0 - 0xC0) as -> by (Z.div_mod_to_equations; lia).
  assert (z1 mod 2 ^ 6 = z1 - 0x80) as -> by (Z.div_mod_to_equations; lia).
  rewrite lor_shifted_low by lia. f_equal.
Qed.

Ltac split_tests :=
  repeat (match goal with
          | |- context [?x <? ?y] => destruct (Z.ltb_spec x y)
          | |- context [?x <=? ?y] => destruct (Z.leb_spec x y)
          end; cbn [orb andb negb]; cbv iota; try lia).

(** An encoding that starts with the byte [z0] of class [x] and size 3. *)
Lemma decode_core_3 n z0 z1 z2 z3 :
  3 ≤ n → 0xE0 ≤ z0 ≤ 0xEF → second_lo z0 ≤ z1 ≤ second_hi z0 →
  0x80 ≤ z2 ≤ 0xBF →
  decode_core n z0 z1 z2 z3
  = ((z0 - 0xE0) * 4096 + (z1 - 0x80) * 64 + (z2 - 0x80), 3).
Proof.
  intros Hn Hz0 Hz1 Hz2. unfold second_lo, second_hi in Hz1.
  assert (∃ x lo hi, first z0 = x ∧ (as_ <=? x) = false ∧ Z.land x 7 = 3
            ∧ acceptRanges (Z.shiftr x 4) = (lo, hi) ∧ lo ≤ z1 ≤ hi
            ∧ 0x80 ≤ lo ∧ hi ≤ 0xBF)
    as (x & lo & hi & Hx & Has & Hsz & Hacc & Hr & Hlo & Hhi).
  { destruct (decide (z0 = 0xE0)) as [->|];
      [by exists s2, 0xA0, hicb|].
    destruct (decide (z0 = 0xED)) as [->|];
      [by exists s4, locb, 0x9F|].
    exists s3, locb, hicb. rewrite first_s3 by lia.
    destruct (Z.eqb_spec z0 0xE0), (Z.eqb_spec z0 0xED),
      (Z.eqb_spec z0 0xF0), (Z.eqb_spec z0 0xF4); try lia. done. }
  unfold decode_core. rewrite Hx, Has, Hsz, Hacc. cbv zeta.
  unfold fst, snd, locb, hicb. split_tests.
  all: bits_to_arith.
  all: assert (z0 mod 2 ^ 4 = z0 - 0xE0) as -> by (Z.div_mod_to_equations; lia).
  all: assert (z1 mod 2 ^ 6 = z1 - 0x80) as -> by (Z.div_mod_to_equations; lia).
  all: assert (z2 mod 2 ^ 6 = z2 - 0x80) as -> by (Z.div_mod_to_equations; lia).
  all: rewrite lor_3 by lia; done.
Qed.

Lemma decode_core_4 n z0 z1 z2 z3 :
  4 ≤ n → 0xF0 ≤ z0 ≤ 0xF4 → second_lo z0 ≤ z1 ≤ second_hi z0 →
  0x80 ≤ z2 ≤ 0xBF → 0x80 ≤ z3 ≤ 0xBF →
  decode_core n z0 z1 z2 z3
  = ((z0 - 0xF0) * 262144 + (z1 - 0x80) * 4096 + (z2 - 0x80) * 64
     + (z3 - 0x80), 4).
Proof.
  intros Hn Hz0 Hz1 Hz2 Hz3. unfold second_lo, second_hi in Hz1.
  assert (∃ x lo hi, first z0 = x ∧ (as_ <=? x) = false ∧ Z.land x 7 = 4
            ∧ acceptRanges (Z.shiftr x 4) = (lo, hi) ∧ lo ≤ z1 ≤ hi
            ∧ 0x80 ≤ lo ∧ hi ≤ 0xBF)
    as (x & lo & hi & Hx & Has & Hsz & Hacc & Hr & Hlo & Hhi).
  { destruct (decide (z0 = 0xF0)) as [->|];
      [by exists s5, 0x90, hicb|].
    destruct (decide (z0 = 0xF4)) as [->|];
      [by exists s7, locb, 0x8F|].
    exists s6, locb, hicb. rewrite first_s6 by lia.
    destruct (Z.eqb_spec z0 0xE0), (Z.eqb_spec z0 0xED),
      (Z.eqb_spec z0 0xF0), (Z.eqb_spec z0 0xF4); try lia. done. }
  unfold decode_core. rewrite Hx, Has, Hsz, Hacc. cbv zeta.
  unfold fst, snd, locb, hicb. split_tests.
  all: bits_to_arith.
  all: assert (z0 mod 2 ^ 3 = z0 - 0xF0) as -> by (Z.div_mod_to_equations; lia).
  all: assert (z1 mod 2 ^ 6 = z1 - 0x80) as -> by (Z.div_mod_to_equations; lia).
  all: assert (z2 mod 2 ^ 6 = z2 - 0x80) as -> by (Z.div_mod_to_equations; lia).
  all: assert (z3 mod 2 ^ 6 = z3 - 0x80) as -> by (Z.div_mod_to_equations; lia).
  all: rewrite lor_4 by lia; done.
Qed.

(** The class of a first byte that starts an encoding of several bytes:
    its size and the range of its second byte. *)
Lemma first_class z0 :
  0xC2 ≤ z0 ≤ 0xF4 →
  ∃ x, first z0 = x ∧ (as_ <=? x) = false ∧ Z.land x 7 = enc_size z0
       ∧ acceptRanges (Z.shiftr x 4) = (second_lo z0, second_hi z0).
Proof.
  intros Hz. unfold enc_size, second_lo, second_hi.
  destruct (first_rows z0 ltac:(lia))
    as [[? _]|[[? ->]|[[-> ->]|[[? ->]|[[-> ->]|[[-> ->]|[[? ->]|[[-> ->]|[? _]]]]]]]]];
    try lia; eexists; (split; [reflexivity|]);
    (split; [reflexivity|]); split_tests;
    repeat (match goal with
            | |- context [?x =? ?y] => destruct (Z.eqb_spec x y); try lia
            end); done.
Qed.

Lemma decode_core_invalid n z0 z1 z2 z3 :
  1 ≤ n → 0xC2 ≤ z0 ≤ 0xF4 →
  n < enc_size z0
  ∨ ¬ (second_lo z0 ≤ z1 ≤ second_hi z0)
  ∨ (3 ≤ enc_size z0 ∧ ¬ (0x80 ≤ z2 ≤ 0xBF))
  ∨ (4 ≤ enc_size z0 ∧ ¬ (0x80 ≤ z3 ≤ 0xBF)) →
  decode_core n z0 z1 z2 z3 = (RuneError, 1).
Proof.
  intros Hn Hz0 Hbad.
  destruct (first_class z0 Hz0) as (x & Hx & Has & Hsz & Hacc).
  assert (2 ≤ enc_size z0 ≤ 4) as Hsize
    by (unfold enc_size; split_tests; lia).
  unfold decode_core. rewrite Hx, Has, Hsz, Hacc. cbv zeta.
  unfold fst, snd, locb, hicb.
  generalize dependent (enc_size z0). generalize (second_lo z0) (second_hi z0).
  intros lo hi sz Hbad _ Hsize. split_tests; done.
Qed.

Lemma decode_core_total n z0 z1 z2 z3 :
  1 ≤ n → 0 ≤ z0 < 256 →
  (z0 < 0x80 ∧ decode_core n z0 z1 z2 z3 = (z0, 1))
  ∨ (0xC2 ≤ z0 ≤ 0xF4 ∧ enc_size z0 ≤ n
     ∧ second_lo z0 ≤ z1 ≤ second_hi z0
     ∧ (3 ≤ enc_size z0 → 0x80 ≤ z2 ≤ 0xBF)
     ∧ (4 ≤ enc_size z0 → 0x80 ≤ z3 ≤ 0xBF))
  ∨ decode_core n z0 z1 z2 z3 = (RuneError, 1).
Proof.
  intros Hn Hz0.
  destruct (Z.lt_ge_cases z0 0x80);
    [left; split; [done|apply decode_core_1; lia]|].
  right.
  destruct (Z.lt_ge_cases z0 0xC2); [right; apply decode_core_xx; lia|].
  destruct (Z.lt_ge_cases 0xF4 z0); [right; apply decode_core_xx; lia|].
  destruct (Z.lt_ge_cases n (enc_size z0));
    [right; apply decode_core_invalid; [lia..|by left]|].
  destruct (decide (second_lo z0 ≤ z1 ≤ second_hi z0));
    [|right; apply decode_core_invalid; [lia..|by right; left]].
  destruct (Z.lt_ge_cases (enc_size z0) 3); [left; repeat split; lia|].
  destruct (decide (0x80 ≤ z2 ≤ 0xBF));
    [|right; apply decode_core_invalid; [lia..|right; right; left; split; [lia|done]]].
  destruct (Z.lt_ge_cases (enc_size z0) 4); [left; repeat split; lia|].
  destruct (decide (0x80 ≤ z3 ≤ 0xBF));
    [|right; apply decode_core_invalid; [lia..|right; right; right; split; [lia|done]]].
  left. repeat split; lia.
Qed.

End Decode.

Section Encode.
Import utf8.

Lemma cont_byte x :
  0 ≤ x → Z.lor tx (Z.land (trunc8 x) maskx) = 0x80 + x mod 64.
Proof.
  intros Hx. unfold trunc8. change maskx with (2 ^ 6 - 1).
  rewrite land_low by lia. change tx with (2 * 2 ^ 6).
  rewrite lor_shifted_low by (Z.div_mod_to_equations; lia).
  Z.div_mod_to_equations; lia.
Qed.

Lemma lead_byte t k x :
  0 ≤ k → 0 ≤ x < 2 ^ k → 2 ^ k ≤ 256 →
  Z.lor (t * 2 ^ k) (trunc8 x) = t * 2 ^ k + x.
Proof.
  intros Hk Hx Hle. rewrite trunc8_small by lia. by apply lor_shifted_low.
Qed.

Lemma shiftr_6 r : Z.shiftr r 6 = r / 64.
Proof. by rewrite Z.shiftr_div_pow2. Qed.
Lemma shiftr_12 r : Z.shiftr r 12 = r / 4096.
Proof. by rewrite Z.shiftr_div_pow2. Qed.
Lemma shiftr_18 r : Z.shiftr r 18 = r / 262144.
Proof. by rewrite Z.shiftr_div_pow2. Qed.

Lemma AppendRune_1 p r : 0 ≤ r < 0x80 → AppendRune p r = p +:+ bytes1 r.
Proof.
  intros Hr. unfold AppendRune, uint32. rewrite Z.mod_small by lia.
  change rune1Max with 127. destruct (Z.leb_spec r 127); [done|lia].
Qed.

Lemma AppendRune_2 p r :
  0x80 ≤ r < 0x800 →
  AppendRune p r = p +:+ bytes2 (0xC0 + r / 64) (0x80 + r mod 64).
Proof.
  intros Hr. unfold AppendRune, uint32. rewrite Z.mod_small by lia.
  change rune1Max with 127. change rune2Max with 2047.
  destruct (Z.leb_spec r 127); [lia|]. destruct (Z.leb_spec r 2047); [|lia].
  rewrite cont_byte by lia. rewrite shiftr_6. change t2 with (6 * 2 ^ 5).
  rewrite lead_byte by (Z.div_mod_to_equations; lia). done.
Qed.

Lemma AppendRune_3 p r :
  0x800 ≤ r < 0x10000 → ¬ (surrogateMin ≤ r ≤ surrogateMax) →
  AppendRune p r
  = p +:+ bytes3 (0xE0 + r / 4096) (0x80 + (r / 64) mod 64) (0x80 + r mod 64).
Proof.
  intros Hr Hs. unfold AppendRune, uint32. rewrite Z.mod_small by lia.
  change rune1Max with 127. change rune2Max with 2047.
  change rune3Max with 65535. unfold MaxRune, surrogateMin, surrogateMax in *.
  destruct (Z.leb_spec r 127); [lia|]. destruct (Z.leb_spec r 2047); [lia|].
  destruct (Z.ltb_spec 1114111 r); [lia|]. cbn [orb].
  destruct (Z.leb_spec 55296 r), (Z.leb_spec r 57343); cbn [andb]; try lia.
  all: destruct (Z.leb_spec r 65535); [|lia].
  all: unfold encode3; rewrite !shiftr_6, !shiftr_12;
       rewrite !cont_byte by (Z.div_mod_to_equations; lia).
  all: change t3 with (14 * 2 ^ 4);
       rewrite lead_byte by (Z.div_mod_to_equations; lia); done.
Qed.

Lemma AppendRune_4 p r :
  0x10000 ≤ r ≤ MaxRune →
  AppendRune p r
  = p +:+ bytes4 (0xF0 + r / 262144) (0x80 + (r / 4096) mod 64)
                 (0x80 + (r / 64) mod 64) (0x80 + r mod 64).
Proof.
  intros Hr. unfold AppendRune, uint32. unfold MaxRune in Hr.
  rewrite Z.mod_small by lia.
  change rune1Max with 127. change rune2Max with 2047.
  change rune3Max with 65535. unfold MaxRune, surrogateMin, surrogateMax in *.
  destruct (Z.leb_spec r 127); [lia|]. destruct (Z.leb_spec r 2047); [lia|].
  destruct (Z.ltb_spec 1114111 r); [lia|]. cbn [orb].
  destruct (Z.leb_spec 55296 r), (Z.leb_spec r 57343); cbn [andb]; try lia.
  destruct (Z.leb_spec r 65535); [lia|].
  rewrite !shiftr_6, !shiftr_12, !shiftr_18.
  rewrite !cont_byte by (Z.div_mod_to_equations; lia).
  change t4 with (30 * 2 ^ 3).
  rewrite lead_byte by (Z.div_mod_to_equations; lia). done.
Qed.

Lemma AppendRune_app p r : AppendRune p r = p +:+ AppendRune "" r.
Proof. unfold AppendRune. by repeat destruct (_ : bool). Qed.

End Encode.

Section RoundTrip.
Import utf8.

Lemma valid_RuneError : valid_rune RuneError.
Proof. unfold valid_rune, RuneError, MaxRune, surrogateMin, surrogateMax. lia. Qed.

Lemma index_byte_of_Z_0 z q : 0 ≤ z < 256 → index (String (byte_of_Z z) q) 0 = z.
Proof. intros. by rewrite index_0, Z_of_byte_of_Z_small. Qed.

Lemma len_pos c q : 1 ≤ len (String c q).
Proof. rewrite len_cons. pose proof (len_nonneg q). lia. Qed.

Lemma Decode_bytes1 z q :
  0 ≤ z < 0x80 → DecodeRuneInString (bytes1 z +:+ q) = (z, 1).
Proof.
  intros Hz. rewrite DecodeRuneInString_core. unfold bytes1. rewrite app_cons.
  rewrite index_byte_of_Z_0 by lia. apply decode_core_1; [apply len_pos|done].
Qed.

Lemma Decode_bytes2 z0 z1 q :
  0xC2 ≤ z0 < 0xE0 → 0x80 ≤ z1 ≤ 0xBF →
  DecodeRuneInString (bytes2 z0 z1 +:+ q) = ((z0 - 0xC0) * 64 + (z1 - 0x80), 2).
Proof.
  intros Hz0 Hz1. rewrite DecodeRuneInString_core. unfold bytes2, bytes1.
  rewrite !app_cons, index_1, index_byte_of_Z_0, Z_of_byte_of_Z_small by lia.
  apply decode_core_2; [|done..]. rewrite !len_cons. pose proof (len_nonneg ("" +:+ q)). lia.
Qed.

Lemma Decode_bytes3 z0 z1 z2 q :
  0xE0 ≤ z0 ≤ 0xEF → second_lo z0 ≤ z1 ≤ second_hi z0 → 0 ≤ z1 < 256 →
  0x80 ≤ z2 ≤ 0xBF →
  DecodeRuneInString (bytes3 z0 z1 z2 +:+ q)
  = ((z0 - 0xE0) * 4096 + (z1 - 0x80) * 64 + (z2 - 0x80), 3).
Proof.
  intros Hz0 Hz1 Hb1 Hz2. rewrite DecodeRuneInString_core. unfold bytes3, bytes2, bytes1.
  rewrite !app_cons, index_2, index_1, index_byte_of_Z_0,
    !Z_of_byte_of_Z_small by lia.
  apply decode_core_3; [|done..]. rewrite !len_cons. pose proof (len_nonneg ("" +:+ q)). lia.
Qed.

Lemma Decode_bytes4 z0 z1 z2 z3 q :
  0xF0 ≤ z0 ≤ 0xF4 → second_lo z0 ≤ z1 ≤ second_hi z0 → 0 ≤ z1 < 256 →
  0x80 ≤ z2 ≤ 0xBF → 0x80 ≤ z3 ≤ 0xBF →
  DecodeRuneInString (bytes4 z0 z1 z2 z3 +:+ q)
  = ((z0 - 0xF0) * 262144 + (z1 - 0x80) * 4096 + (z2 - 0x80) * 64
     + (z3 - 0x80), 4).
Proof.
  intros Hz0 Hz1 Hb1 Hz2 Hz3. rewrite DecodeRuneInString_core.
  unfold bytes4, bytes3, bytes2, bytes1.
  rewrite !app_cons, index_3, index_2, index_1, index_byte_of_Z_0,
    !Z_of_byte_of_Z_small by lia.
  apply decode_core_4; [|done..]. rewrite !len_cons. pose proof (len_nonneg ("" +:+ q)). lia.
Qed.

Lemma second_bounds z0 : 0x80 ≤ second_lo z0 ∧ second_hi z0 ≤ 0xBF.
Proof.
  unfold second_lo, second_hi.
  destruct (z0 =? 224), (z0 =? 240), (z0 =? 237), (z0 =? 244); lia.
Qed.

(** Decoding the encoding of a rune, whatever follows it, gives the rune
    back with the length of the encoding. *)
Lemma Decode_AppendRune r q :
  valid_rune r →
  DecodeRuneInString (AppendRune "" r +:+ q) = (r, len (AppendRune "" r))
  ∧ 1 ≤ len (AppendRune "" r) ≤ 4
  ∧ (0x80 ≤ r → 2 ≤ len (AppendRune "" r)).
Proof.
  intros [Hr Hs]. unfold MaxRune, surrogateMin, surrogateMax in *.
  destruct (Z.lt_ge_cases r 0x80).
  { rewrite AppendRune_1, app_empty_l by lia.
    rewrite Decode_bytes1 by lia. change (len (bytes1 r)) with 1.
    split; [done|lia]. }
  destruct (Z.lt_ge_cases r 0x800).
  { rewrite AppendRune_2, app_empty_l by lia.
    rewrite Decode_bytes2 by (Z.div_mod_to_equations; lia).
    change (len (bytes2 _ _)) with 2. split; [|lia]. f_equal.
    Z.div_mod_to_equations; lia. }
  destruct (Z.lt_ge_cases r 0x10000).
  { rewrite AppendRune_3, app_empty_l by (unfold surrogateMin, surrogateMax; lia).
    rewrite Decode_bytes3.
    - change (len (bytes3 _ _ _)) with 3. split; [|lia]. f_equal.
      Z.div_mod_to_equations; lia.
    - Z.div_mod_to_equations; lia.
    - unfold second_lo, second_hi.
      repeat (match goal with
              | |- context [?x =? ?y] => destruct (Z.eqb_spec x y)
              end); Z.div_mod_to_equations; lia.
    - Z.div_mod_to_equations; lia.
    - Z.div_mod_to_equations; lia. }
  rewrite AppendRune_4, app_empty_l by (unfold MaxRune; lia).
  rewrite Decode_bytes4.
  - change (len (bytes4 _ _ _ _)) with 4. split; [|lia]. f_equal.
    Z.div_mod_to_equations; lia.
  - Z.div_mod_to_equations; lia.
  - unfold second_lo, second_hi.
    repeat (match goal with
            | |- context [?x =? ?y] => destruct (Z.eqb_spec x y)
            end); Z.div_mod_to_equations; lia.
  - Z.div_mod_to_equations; lia.
  - Z.div_mod_to_equations; lia.
  - Z.div_mod_to_equations; lia.
Qed.

Lemma index_range s i : 0 ≤ index s i < 256.
Proof.
  unfold index. destruct (String.get i s); [apply Z_of_byte_range|lia].
Qed.

Lemma bytes1_index c : bytes1 (Z_of_byte c) = String c "".
Proof. unfold bytes1. by rewrite byte_of_Z_of_byte. Qed.

Lemma slice_to_1 s : 1 ≤ len s → slice_to s 1 = bytes1 (index s 0).
Proof.
  destruct s as [|c0 s]; [unfold len; simpl; lia|]. intros _.
  unfold bytes1. rewrite index_0. by rewrite byte_of_Z_of_byte.
Qed.

Lemma slice_to_2 s : 2 ≤ len s → slice_to s 2 = bytes2 (index s 0) (index s 1).
Proof.
  destruct s as [|c0 [|c1 s]]; [unfold len; simpl; lia..|]. intros _.
  unfold bytes2, bytes1. rewrite index_0, index_1. by rewrite !byte_of_Z_of_byte.
Qed.

Lemma slice_to_3 s :
  3 ≤ len s → slice_to s 3 = bytes3 (index s 0) (index s 1) (index s 2).
Proof.
  destruct s as [|c0 [|c1 [|c2 s]]]; [unfold len; simpl; lia..|]. intros _.
  unfold bytes3, bytes2, bytes1. rewrite index_0, index_1, index_2.
  by rewrite !byte_of_Z_of_byte.
Qed.

Lemma slice_to_4 s :
  4 ≤ len s →
  slice_to s 4 = bytes4 (index s 0) (index s 1) (index s 2) (index s 3).
Proof.
  destruct s as [|c0 [|c1 [|c2 [|c3 s]]]]; [unfold len; simpl; lia..|]. intros _.
  unfold bytes4, bytes3, bytes2, bytes1. rewrite index_0, index_1, index_2, index_3.
  by rewrite !byte_of_Z_of_byte.
Qed.

(** What [DecodeRuneInString] returns on a string that is not empty: a
    valid rune and a width within the string; and either the report of an
    invalid byte, or the rune whose encoding the string starts with. *)
Lemma Decode_shape s c w :
  s ≠ "" → DecodeRuneInString s = (c, w) →
  valid_rune c ∧ 1 ≤ w ≤ len s
  ∧ ((c = RuneError ∧ w = 1) ∨ slice_to s w = AppendRune "" c).
Proof.
  intros Hs. rewrite DecodeRuneInString_core.
  assert (1 ≤ len s) as Hlen by (destruct s; [done|apply len_pos]).
  pose proof (index_range s 0) as H0. pose proof (index_range s 1) as H1.
  pose proof (index_range s 2) as H2. pose proof (index_range s 3) as H3.
  destruct (decode_core_total (len s) (index s 0) (index s 1) (index s 2)
              (index s 3) Hlen H0)
    as [[Hz ->]|[(Hz & Hn & Hz1 & Hz2 & Hz3)| ->]].
  - intros [= <- <-]. split; [unfold valid_rune, MaxRune, surrogateMin; lia|].
    split; [lia|]. right. rewrite AppendRune_1, app_empty_l by lia.
    by apply slice_to_1.
  - assert (0x80 ≤ index s 1 ≤ 0xBF) as Hcont
      by (pose proof (second_bounds (index s 0)); lia).
    revert Hn Hz1 Hz2 Hz3. unfold enc_size, second_lo, second_hi.
    destruct (Z.ltb_spec (index s 0) 0xE0) as [Hlt|Hge].
    { (* two bytes *)
      destruct (Z.eqb_spec (index s 0) 0xE0), (Z.eqb_spec (index s 0) 0xF0),
        (Z.eqb_spec (index s 0) 0xED), (Z.eqb_spec (index s 0) 0xF4); try lia.
      intros Hn Hz1 _ _. rewrite decode_core_2 by lia. intros [= <- <-].
      split; [unfold valid_rune, MaxRune, surrogateMin; lia|]. split; [lia|].
      right. rewrite AppendRune_2, app_empty_l by lia. rewrite slice_to_2 by done.
      f_equal; Z.div_mod_to_equations; lia. }
    destruct (Z.ltb_spec (index s 0) 0xF0) as [Hlt|Hge'].
    { (* three bytes *)
      intros Hn Hz1 Hz2 _. specialize (Hz2 ltac:(lia)).
      rewrite decode_core_3 by (unfold second_lo, second_hi; lia).
      intros [= <- <-].
      assert (0x800 ≤ (index s 0 - 224) * 4096 + (index s 1 - 128) * 64
                        + (index s 2 - 128) < 0x10000
              ∧ ¬ (surrogateMin ≤ (index s 0 - 224) * 4096
                     + (index s 1 - 128) * 64 + (index s 2 - 128) ≤ surrogateMax))
        as [Hv Hsur].
      { unfold surrogateMin, surrogateMax. revert Hz1.
        destruct (Z.eqb_spec (index s 0) 0xE0), (Z.eqb_spec (index s 0) 0xF0),
          (Z.eqb_spec (index s 0) 0xED), (Z.eqb_spec (index s 0) 0xF4); lia. }
      split; [unfold valid_rune, MaxRune; lia|]. split; [lia|].
      right. rewrite AppendRune_3, app_empty_l by done. rewrite slice_to_3 by done.
      f_equal; Z.div_mod_to_equations; lia. }
    (* four bytes *)
    intros Hn Hz1 Hz2 Hz3. specialize (Hz2 ltac:(lia)). specialize (Hz3 ltac:(lia)).
    rewrite decode_core_4 by (unfold second_lo, second_hi; lia).
    intros [= <- <-].
    assert (0x10000 ≤ (index s 0 - 240) * 262144 + (index s 1 - 128) * 4096
                      + (index s 2 - 128) * 64 + (index s 3 - 128) ≤ MaxRune)
      as Hv.
    { unfold MaxRune. revert Hz1.
      destruct (Z.eqb_spec (index s 0) 0xE0), (Z.eqb_spec (index s 0) 0xF0),
        (Z.eqb_spec (index s 0) 0xED), (Z.eqb_spec (index s 0) 0xF4); lia. }
    split; [unfold valid_rune, surrogateMin, surrogateMax, MaxRune in *; lia|].
    split; [lia|].
    right. rewrite AppendRune_4, app_empty_l by done. rewrite slice_to_4 by done.
    f_equal; Z.div_mod_to_equations; lia.
  - intros [= <- <-]. split; [apply valid_RuneError|]. split; [lia|]. by left.
Qed.

End RoundTrip.

(** * [strings.Map] with an idempotent mapping *)

Section MapFacts.
Import utf8.
Variable f : Z → Z.
Hypothesis f_valid : ∀ c, valid_rune c → valid_rune (f c).
Hypothesis f_idem : ∀ c, valid_rune c → f (f c) = f c.

Lemma len_lt_1 s : (len s <? 1) = true ↔ s = "".
Proof.
  destruct s; [done|]. pose proof (len_pos a s).
  destruct (Z.ltb_spec (len (String a s)) 1); [lia|]. done.
Qed.

Lemma slice_from_slice_from s i w :
  0 ≤ i → 0 ≤ w → slice_from (slice_from s i) w = slice_from s (i + w).
Proof.
  intros. unfold slice_from. rewrite strdrop_strdrop. f_equal. lia.
Qed.

Lemma strtake_add n m s : strtake (n + m) s = strtake n s +:+ strtake m (strdrop n s).
Proof.
  revert s. induction n as [|n IH]; intros s.
  - by rewrite strdrop_0, strtake_0.
  - destruct s as [|c s]; [by destruct m|]. simpl. by rewrite app_cons, IH.
Qed.

Lemma slice_to_add s i w :
  0 ≤ i → 0 ≤ w → slice_to s (i + w) = slice_to s i +:+ slice_to (slice_from s i) w.
Proof.
  intros. unfold slice_to, slice_from. rewrite Z2Nat.inj_add by lia.
  apply strtake_add.
Qed.

Lemma slice_split s w : slice_to s w +:+ slice_from s w = s.
Proof. apply strtake_strdrop. Qed.

Lemma slice_from_length s w :
  0 ≤ w → (String.length (slice_from s w) = String.length s - Z.to_nat w)%nat.
Proof. intros. unfold slice_from. apply length_strdrop. Qed.

Lemma fixed_app p q : fixed_runes f p → fixed_runes f q → fixed_runes f (p +:+ q).
Proof.
  induction 1 as [|r p' Hr Hfr Hp IH]; intros Hq; [done|].
  rewrite app_assoc. constructor; auto.
Qed.

Lemma fixed_rune r : valid_rune r → f r = r → fixed_runes f (AppendRune "" r).
Proof.
  intros. rewrite <- (app_empty_r (AppendRune "" r)). by constructor; [..|constructor].
Qed.

Lemma fixed_image c : valid_rune c → fixed_runes f (AppendRune "" (f c)).
Proof. intros. apply fixed_rune; auto. Qed.

Lemma fixed_buffer p c :
  fixed_runes f p → valid_rune c →
  fixed_runes f (if 0 <=? f c then AppendRune p (f c) else p).
Proof.
  intros Hp Hc. destruct (0 <=? f c); [|done].
  rewrite AppendRune_app. apply fixed_app; [done|]. by apply fixed_image.
Qed.

(** The second loop only appends to the buffer. *)
Lemma Map_tail_app fuel b s :
  strings.Map_tail f fuel b s = b +:+ strings.Map_tail f fuel "" s.
Proof.
  revert b s. induction fuel as [|fuel IH]; intros b s; simpl.
  - by rewrite app_empty_r.
  - destruct (len s <? 1); [by rewrite app_empty_r|].
    destruct (DecodeRuneInString s) as [c w].
    rewrite IH. rewrite (IH (if 0 <=? f c then _ else _)).
    rewrite <- app_assoc. f_equal.
    destruct (0 <=? f c); [|by rewrite app_empty_r].
    destruct (f c <? RuneSelf); [done|]. by rewrite AppendRune_app.
Qed.

Lemma fixed_Map_tail fuel s : fixed_runes f (strings.Map_tail f fuel "" s).
Proof.
  revert s. induction fuel as [|fuel IH]; intros s; simpl; [constructor|].
  destruct (len s <? 1) eqn:Hlen; [constructor|].
  assert (s ≠ "") as Hs by (intros ->; done).
  destruct (DecodeRuneInString s) as [c w] eqn:Hdec.
  destruct (Decode_shape s c w Hs Hdec) as (Hc & Hw & _).
  pose proof (f_valid c Hc) as Hfc.
  rewrite Map_tail_app. apply fixed_app; [|apply IH].
  destruct Hfc as [[Hnn Hmax] Hsur].
  destruct (Z.leb_spec 0 (f c)); [|lia].
  destruct (Z.ltb_spec (f c) RuneSelf) as [Hlt|Hge].
  - rewrite app_empty_l. rewrite <- (app_empty_l (bytes1 (f c))).
    rewrite <- AppendRune_1 by (unfold RuneSelf in Hlt; lia).
    apply fixed_image, Hc.
  - apply fixed_image, Hc.
Qed.

(** The first loop: what it has passed over is fixed by the mapping. *)
Lemma fixed_Map_head fuel s i rest :
  0 ≤ i → slice_from s i = rest → fixed_runes f (slice_to s i) →
  (String.length rest ≤ fuel)%nat →
  match strings.Map_head f fuel s i rest with
  | None => fixed_runes f s
  | Some (b, s') => fixed_runes f b
  end.
Proof.
  revert i rest. induction fuel as [|fuel IH]; intros i rest Hi Hrest Hpre Hfuel.
  { simpl. destruct rest; [|simpl in Hfuel; lia].
    rewrite <- (slice_split s i), Hrest, app_empty_r. done. }
  simpl. destruct (len rest <? 1) eqn:Hlen.
  { apply len_lt_1 in Hlen. subst rest.
    rewrite <- (slice_split s i), Hlen, app_empty_r. done. }
  assert (rest ≠ "") as Hne by (intros ->; done).
  destruct (DecodeRuneInString rest) as [c w] eqn:Hdec.
  destruct (Decode_shape rest c w Hne Hdec) as (Hc & Hw & Hshape).
  assert (slice_to rest w = AppendRune "" c → f c = c →
          match strings.Map_head f fuel s (i + w) (slice_from rest w) with
          | Some (b, _) => fixed_runes f b
          | None => fixed_runes f s
          end) as Hcontinue.
  { intros Henc Hfix. apply IH.
    - lia.
    - rewrite <- Hrest. by rewrite slice_from_slice_from by lia.
    - rewrite slice_to_add, Hrest, Henc by lia.
      apply fixed_app; [done|]. by apply fixed_rune.
    - rewrite slice_from_length by lia. lia. }
  destruct (Z.eqb_spec (f c) c) as [Hfix|Hchg];
    destruct (Z.eqb_spec c RuneError) as [Herr|Hnerr]; cbn [andb negb].
  - (* U+FFFD, or an invalid byte *)
    rewrite Hrest, Hdec.
    destruct (Z.eqb_spec w 1) as [Hw1|Hw1]; cbn [andb negb].
    + by apply fixed_buffer.
    + destruct (Z.eqb_spec (f c) c); [|done]. apply Hcontinue; [|done].
      destruct Hshape as [[_ ?]|?]; [lia|done].
  - apply Hcontinue; [|done]. by destruct Hshape as [[? _]|?].
  - rewrite Hrest, Hdec.
    destruct (Z.eqb_spec w 1) as [Hw1|Hw1]; cbn [andb negb];
      [|destruct (Z.eqb_spec (f c) c); [done|]]; by apply fixed_buffer.
  - by apply fixed_buffer.
Qed.

Lemma fixed_Map s : fixed_runes f (strings.Map f s).
Proof.
  unfold strings.Map.
  pose proof (fixed_Map_head (String.length s) s 0 s) as Hhead.
  destruct (strings.Map_head f (String.length s) s 0 s) as [[b s']|].
  - rewrite Map_tail_app. apply fixed_app; [|apply fixed_Map_tail].
    apply Hhead; [lia|apply strdrop_0|constructor|lia].
  - apply Hhead; [lia|apply strdrop_0|constructor|lia].
Qed.

(** On a string of fixed runes the first loop finds nothing to change. *)
Lemma Map_head_fixed fuel s i rest :
  0 ≤ i → slice_from s i = rest → fixed_runes f rest →
  strings.Map_head f fuel s i rest = None.
Proof.
  intros Hi Hrest Hfixed. revert fuel i Hi Hrest.
  induction Hfixed as [|r q Hr Hfr Hq IH]; intros fuel i Hi Hrest.
  { by destruct fuel. }
  destruct fuel as [|fuel]; [done|]. simpl.
  destruct (Decode_AppendRune r q Hr) as (Hdec & Hlen & Hlong).
  destruct (len (AppendRune "" r +:+ q) <? 1) eqn:Hl; [done|].
  rewrite Hdec, Hfr, Z.eqb_refl.
  assert (strings.Map_head f fuel s (i + len (AppendRune "" r))
            (slice_from (AppendRune "" r +:+ q) (len (AppendRune "" r))) = None)
    as Hnext.
  { rewrite slice_from_app. apply IH; [lia|].
    rewrite <- slice_from_slice_from, Hrest by lia. apply slice_from_app. }
  destruct (Z.eqb_spec r RuneError) as [Herr|Hnerr]; cbn [andb negb]; [|done].
  rewrite Hrest, Hdec.
  destruct (Z.eqb_spec (len (AppendRune "" r)) 1) as [H1|H1]; cbn [andb negb].
  - subst r. unfold RuneError in *. lia.
  - by rewrite Z.eqb_refl.
Qed.

Lemma Map_fixed s : fixed_runes f s → strings.Map f s = s.
Proof.
  intros Hs. unfold strings.Map.
  by rewrite (Map_head_fixed _ s 0 s ltac:(lia) (strdrop_0 s) Hs).
Qed.

Lemma Map_idempotent s : strings.Map f (strings.Map f s) = strings.Map f s.
Proof. apply Map_fixed, fixed_Map. Qed.

(** The loops of [Map] never run out of fuel: each turn consumes at
    least one byte, and any fuel from the length of the string on gives
    the same result. *)
Lemma Map_tail_fuel fuel1 fuel2 b s :
  (String.length s ≤ fuel1)%nat → (String.length s ≤ fuel2)%nat →
  strings.Map_tail f fuel1 b s = strings.Map_tail f fuel2 b s.
Proof.
  revert fuel2 b s. induction fuel1 as [|fuel1 IH]; intros [|fuel2] b s H1 H2;
    simpl; try done.
  - destruct s; [done|simpl in H1; lia].
  - destruct s; [done|simpl in H2; lia].
  - destruct (len s <? 1) eqn:Hlen; [done|].
    assert (s ≠ "") as Hs by (intros ->; done).
    destruct (DecodeRuneInString s) as [c w] eqn:Hdec.
    destruct (Decode_shape s c w Hs Hdec) as (_ & Hw & _).
    apply IH; rewrite slice_from_length by lia; lia.
Qed.

Lemma Map_head_fuel fuel1 fuel2 s i rest :
  (String.length rest ≤ fuel1)%nat → (String.length rest ≤ fuel2)%nat →
  strings.Map_head f fuel1 s i rest = strings.Map_head f fuel2 s i rest.
Proof.
  revert fuel2 i rest.
  induction fuel1 as [|fuel1 IH]; intros [|fuel2] i rest H1 H2; simpl; try done.
  - destruct rest; [done|simpl in H1; lia].
  - destruct rest; [done|simpl in H2; lia].
  - destruct (len rest <? 1) eqn:Hlen; [done|].
    assert (rest ≠ "") as Hs by (intros ->; done).
    destruct (DecodeRuneInString rest) as [c w] eqn:Hdec.
    destruct (Decode_shape rest c w Hs Hdec) as (_ & Hw & _).
    rewrite (IH fuel2 (i + w) (slice_from rest w))
      by (rewrite slice_from_length by lia; lia).
    done.
Qed.

End MapFacts.

(** * [strings.ToLower] is idempotent *)

Section ToLowerFacts.
Import utf8.
Variable To_LowerCase : Z → Z.
Hypothesis table_ok : lower_case_table To_LowerCase.

Local Abbreviation lower := (unicode.ToLower To_LowerCase).
Local Abbreviation ToLower := (strings.ToLower To_LowerCase).

Lemma lower_ascii r :
  r ≤ unicode.MaxASCII →
  lower r = if strings.isUpperByte r then r + 32 else r.
Proof.
  intros Hr. unfold unicode.ToLower, strings.isUpperByte.
  destruct (Z.leb_spec r unicode.MaxASCII); [done|lia].
Qed.

Lemma isUpperByte_range r : strings.isUpperByte r = true ↔ 65 ≤ r ≤ 90.
Proof.
  unfold strings.isUpperByte. change (Z_of_byte "A") with 65.
  change (Z_of_byte "Z") with 90. rewrite andb_true_iff, !Z.leb_le. done.
Qed.

Lemma lower_valid c : valid_rune c → valid_rune (lower c).
Proof.
  intros Hc. destruct (Z.le_gt_cases c unicode.MaxASCII) as [Hle|Hgt].
  - rewrite lower_ascii by done.
    destruct (strings.isUpperByte c) eqn:Hu; [|done].
    apply isUpperByte_range in Hu.
    unfold valid_rune, MaxRune, surrogateMin. lia.
  - unfold unicode.ToLower. destruct (Z.leb_spec c unicode.MaxASCII); [lia|].
    by apply table_ok.
Qed.

Lemma lower_idem c : valid_rune c → lower (lower c) = lower c.
Proof.
  intros Hc. destruct (Z.le_gt_cases c unicode.MaxASCII) as [Hle|Hgt].
  - rewrite (lower_ascii c) by done. unfold unicode.MaxASCII in Hle.
    destruct (strings.isUpperByte c) eqn:Hu.
    + apply isUpperByte_range in Hu.
      rewrite lower_ascii by (unfold unicode.MaxASCII; lia).
      destruct (strings.isUpperByte (c + 32)) eqn:Hu'; [|done].
      apply isUpperByte_range in Hu'. lia.
    + rewrite lower_ascii by done. by rewrite Hu.
  - assert (lower c = To_LowerCase c) as ->.
    { unfold unicode.ToLower. by destruct (Z.leb_spec c unicode.MaxASCII); [lia|]. }
    by apply table_ok.
Qed.

Lemma lower_fixed_not_upper r :
  r ≤ unicode.MaxASCII → lower r = r → strings.isUpperByte r = false.
Proof.
  intros Hr. rewrite lower_ascii by done.
  destruct (strings.isUpperByte r); [lia|done].
Qed.

(** A byte below [RuneSelf] is the encoding of itself. *)
Lemma ascii_byte c :
  Z_of_byte c < RuneSelf → String c "" = AppendRune "" (Z_of_byte c).
Proof.
  intros Hc. pose proof (Z_of_byte_range c). unfold RuneSelf in Hc.
  rewrite AppendRune_1, app_empty_l by lia. by rewrite bytes1_index.
Qed.

Lemma fixed_ascii_cons c q :
  Z_of_byte c < RuneSelf → lower (Z_of_byte c) = Z_of_byte c →
  fixed_runes lower q → fixed_runes lower (String c q).
Proof.
  intros Hc Hfix Hq. change (String c q) with (String c "" +:+ q).
  rewrite ascii_byte by done. constructor; [|done..].
  pose proof (Z_of_byte_range c).
  unfold valid_rune, MaxRune, surrogateMin, RuneSelf in *. lia.
Qed.

(** The ASCII branch of [ToLower]. *)
Lemma scanASCII_hasUpper s h h' :
  strings.scanASCII s h = (true, h') → h = true → h' = true.
Proof.
  revert h. induction s as [|c t IH]; intros h; simpl.
  - by intros [= <-].
  - destruct (RuneSelf <=? Z_of_byte c); [done|].
    intros Hscan ->. by apply (IH _ Hscan).
Qed.

Lemma fixed_scanASCII s h :
  strings.scanASCII s h = (true, false) → fixed_runes lower s.
Proof.
  revert h. induction s as [|c t IH]; intros h; simpl; [constructor|].
  destruct (Z.leb_spec RuneSelf (Z_of_byte c)) as [|Hc]; [done|].
  intros Hscan.
  destruct (h || strings.isUpperByte (Z_of_byte c)) eqn:Hh.
  { by pose proof (scanASCII_hasUpper _ _ _ Hscan eq_refl). }
  apply orb_false_elim in Hh as [_ Hu].
  apply fixed_ascii_cons; [done| |by apply (IH _ Hscan)].
  rewrite lower_ascii by (unfold RuneSelf, unicode.MaxASCII in *; lia).
  by rewrite Hu.
Qed.

Lemma fixed_lowerASCII s h h' :
  strings.scanASCII s h = (true, h') → fixed_runes lower (strings.lowerASCII s).
Proof.
  revert h. induction s as [|c t IH]; intros h; simpl; [constructor|].
  destruct (Z.leb_spec RuneSelf (Z_of_byte c)) as [|Hc]; [done|].
  intros Hscan. pose proof (Z_of_byte_range c) as Hr. unfold RuneSelf in Hc.
  change (Z_of_byte "a" - Z_of_byte "A") with 32.
  destruct (strings.isUpperByte (Z_of_byte c)) eqn:Hu.
  - apply isUpperByte_range in Hu.
    apply fixed_ascii_cons; [| |by apply (IH _ Hscan)];
      rewrite Z_of_byte_of_Z_small by lia; [unfold RuneSelf; lia|].
    rewrite lower_ascii by (unfold unicode.MaxASCII; lia).
    destruct (strings.isUpperByte (Z_of_byte c + 32)) eqn:Hu'; [|done].
    apply isUpperByte_range in Hu'. lia.
  - apply fixed_ascii_cons; [done| |by apply (IH _ Hscan)].
    rewrite lower_ascii by (unfold unicode.MaxASCII; lia). by rewrite Hu.
Qed.

Lemma fixed_ToLower s : fixed_runes lower (ToLower s).
Proof.
  unfold strings.ToLower.
  destruct (strings.scanASCII s false) as [[] hasUpper] eqn:Hscan.
  - destruct hasUpper; simpl.
    + by apply (fixed_lowerASCII s false true).
    + by apply (fixed_scanASCII s false).
  - apply fixed_Map; [apply lower_valid|apply lower_idem].
Qed.

(** The first byte of the encoding of a rune that is not ASCII is not
    ASCII either. *)
Lemma AppendRune_first_byte r :
  valid_rune r → RuneSelf ≤ r →
  ∃ c t, AppendRune "" r = String c t ∧ RuneSelf ≤ Z_of_byte c.
Proof.
  intros [Hr Hs] Hge. unfold MaxRune, RuneSelf in *.
  destruct (Z.lt_ge_cases r 0x800).
  { rewrite AppendRune_2, app_empty_l by lia. unfold bytes2.
    eexists _, _. split; [done|].
    rewrite Z_of_byte_of_Z_small; Z.div_mod_to_equations; lia. }
  destruct (Z.lt_ge_cases r 0x10000).
  { rewrite AppendRune_3, app_empty_l by (done || lia). unfold bytes3.
    eexists _, _. split; [done|].
    rewrite Z_of_byte_of_Z_small; Z.div_mod_to_equations; lia. }
  rewrite AppendRune_4, app_empty_l by (unfold MaxRune; lia). unfold bytes4.
  eexists _, _. split; [done|].
  rewrite Z_of_byte_of_Z_small; Z.div_mod_to_equations; lia.
Qed.

Lemma scanASCII_fixed s h h' :
  fixed_runes lower s → strings.scanASCII s h = (true, h') → h' = h.
Proof.
  intros Hs. revert h. induction Hs as [|r q Hr Hfr Hq IH]; intros h.
  { simpl. by intros [= <-]. }
  destruct (Z.lt_ge_cases r RuneSelf) as [Hlt|Hge].
  - destruct Hr as [[Hnn _] _]. unfold RuneSelf in Hlt.
    rewrite AppendRune_1, app_empty_l by lia. unfold bytes1.
    rewrite app_cons, app_empty_l. simpl.
    rewrite Z_of_byte_of_Z_small by lia.
    destruct (Z.leb_spec RuneSelf r); [unfold RuneSelf in *; lia|].
    rewrite (lower_fixed_not_upper r) by (unfold unicode.MaxASCII; lia || done).
    rewrite orb_false_r. apply IH.
  - destruct (AppendRune_first_byte r Hr Hge) as (c & t & -> & Hc).
    rewrite app_cons. simpl.
    destruct (Z.leb_spec RuneSelf (Z_of_byte c)); [done|lia].
Qed.

Lemma ToLower_fixed s : fixed_runes lower s → ToLower s = s.
Proof.
  intros Hs. unfold strings.ToLower.
  destruct (strings.scanASCII s false) as [[] hasUpper] eqn:Hscan.
  - by rewrite (scanASCII_fixed s false hasUpper Hs Hscan).
  - by apply Map_fixed.
Qed.

Lemma ToLower_idempotent s : ToLower (ToLower s) = ToLower s.
Proof. apply ToLower_fixed, fixed_ToLower. Qed.

End ToLowerFacts.

(** * The classification ignores the case of the extension *)

Section CaseInsensitive.
Variable To_LowerCase : Z → Z.

Local Abbreviation ToLower := (strings.ToLower To_LowerCase).

(** C4. For every extension string [e] and every store, each of
    [IsExtensionSupported], [IsExtensionEditable], [IsExtensionViewOnly],
    [IsExtensionLossEditable], [IsExtensionOOXMLConvertable] and
    [GetFileType] returns on [e] what it returns on [ToLower(e)]. The
    Unicode case table is assumed to be a lower-case mapping: it maps runes
    to runes and maps its own values to themselves. *)
Theorem classification_case_insensitive (e : string) (σ : Globals) :
  lower_case_table To_LowerCase →
  result (IsExtensionSupported To_LowerCase e) σ
    = result (IsExtensionSupported To_LowerCase (ToLower e)) σ
  ∧ result (IsExtensionEditable To_LowerCase e) σ
    = result (IsExtensionEditable To_LowerCase (ToLower e)) σ
  ∧ result (IsExtensionViewOnly To_LowerCase e) σ
    = result (IsExtensionViewOnly To_LowerCase (ToLower e)) σ
  ∧ result (IsExtensionLossEditable To_LowerCase e) σ
    = result (IsExtensionLossEditable To_LowerCase (ToLower e)) σ
  ∧ result (IsExtensionOOXMLConvertable To_LowerCase e) σ
    = result (IsExtensionOOXMLConvertable To_LowerCase (ToLower e)) σ
  ∧ result (GetFileType To_LowerCase e) σ
    = result (GetFileType To_LowerCase (ToLower e)) σ.
Proof.
  intros Htable.
  rewrite !IsExtensionSupported_eq, !IsExtensionEditable_eq, !IsExtensionViewOnly_eq,
    !IsExtensionLossEditable_eq, !IsExtensionOOXMLConvertable_eq.
  rewrite !GetFileType_source_order. unfold GetFileType_in_order.
  by rewrite !(ToLower_idempotent To_LowerCase Htable).
Qed.

End CaseInsensitive.

Lemma sample_table_ok : lower_case_table Samples.sample_To_LowerCase.
Proof.
  unfold lower_case_table, Samples.sample_To_LowerCase, valid_rune,
    unicode.MaxASCII, utf8.MaxRune, utf8.surrogateMin, utf8.surrogateMax.
  split.
  - intros r Hr Hgt.
    destruct (Z.eqb_spec r 0x212A); [lia|].
    destruct (Z.leb_spec 0xC0 r), (Z.leb_spec r 0xDE), (Z.eqb_spec r 0xD7);
      cbn [andb negb]; lia.
  - intros r Hr Hgt. unfold unicode.ToLower, unicode.MaxASCII.
    destruct (Z.eqb_spec r 0x212A); [done|].
    destruct (Z.leb_spec 0xC0 r), (Z.leb_spec r 0xDE), (Z.eqb_spec r 0xD7);
      cbn [andb negb].
    all: repeat (match goal with
                 | |- context [?x <=? ?y] => destruct (Z.leb_spec x y)
                 | |- context [?x =? ?y] => destruct (Z.eqb_spec x y)
                 end; cbn [andb negb]; try lia).
    all: done.
Qed.

Lemma classification_case_insensitive_witness :
  lower_case_table Samples.sample_To_LowerCase
  ∧ result (IsExtensionSupported Samples.sample_To_LowerCase Samples.kelvin_SX) init
    = result (IsExtensionSupported Samples.sample_To_LowerCase
                (strings.ToLower Samples.sample_To_LowerCase Samples.kelvin_SX)) init
  ∧ result (GetFileType Samples.sample_To_LowerCase Samples.kelvin_SX) init
    = result (GetFileType Samples.sample_To_LowerCase
                (strings.ToLower Samples.sample_To_LowerCase Samples.kelvin_SX)) init.
Proof.
  split; [exact sample_table_ok|].
  destruct (classification_case_insensitive Samples.sample_To_LowerCase
              Samples.kelvin_SX init sample_table_ok)
    as (Hsupported & _ & _ & _ & _ & Htype).
  split; [exact Hsupported|exact Htype].
Defined.

(** * More on file names: what [filepath.Ext] finds *)

Section ExtensionSplit.
Variable IsPathSeparator : ascii → bool.

Local Abbreviation Ext := (filepath.Ext IsPathSeparator).
Local Abbreviation no_sep := (no_separator IsPathSeparator).

Lemma get_app_l i (s t : string) :
  (i < String.length s)%nat → String.get i (s +:+ t) = String.get i s.
Proof.
  revert i. induction s as [|c s IH]; intros i Hi; [simpl in Hi; lia|].
  rewrite app_cons. destruct i as [|i]; [done|]. simpl. apply IH. simpl in Hi. lia.
Qed.

Lemma get_app_r i (s t : string) :
  String.get (String.length s + i) (s +:+ t) = String.get i t.
Proof. induction s as [|c s IH]; [done|]. rewrite app_cons. simpl. apply IH. Qed.

Lemma all_bytes_get P s i c :
  all_bytes P s = true → String.get i s = Some c → P c = true.
Proof.
  revert i. induction s as [|c' s IH]; intros i; [done|]. simpl.
  intros [Hc Hs]%andb_prop. destruct i as [|i]; [by intros [= <-]|]. by apply IH.
Qed.

Lemma all_bytes_strdrop P n s :
  (∀ j c, (n ≤ j)%nat → String.get j s = Some c → P c = true) →
  all_bytes P (strdrop n s) = true.
Proof.
  revert n. induction s as [|c s IH]; intros n Hall; [by destruct n|].
  destruct n as [|n]; simpl.
  - rewrite (Hall O c) by (done || lia). simpl.
    rewrite <- (strdrop_0 s). apply IH. intros j c' _ Hj.
    apply (Hall (S j)); [lia|done].
  - apply IH. intros j c' Hle Hj. apply (Hall (S j)); [lia|done].
Qed.

Lemma occurs_get c s i : occurs c s = false → String.get i s ≠ Some c.
Proof.
  revert i. induction s as [|c' s IH]; intros i; [done|]. simpl.
  intros [Hc Hs]%orb_false_elim. apply bool_decide_eq_false in Hc.
  destruct i as [|i]; [congruence|]. by apply IH.
Qed.

Lemma occurs_strdrop c n s :
  (∀ j, (n ≤ j)%nat → String.get j s ≠ Some c) → occurs c (strdrop n s) = false.
Proof.
  intros Hno. destruct (occurs c (strdrop n s)) eqn:Hocc; [|done].
  apply occurs_strdrop_get in Hocc as (j & Hj & Hget). by destruct (Hno j Hj).
Qed.

(** The loop of [Ext] passes over bytes that are neither dots nor
    separators. *)
Lemma Ext_loop_skip path k0 k :
  (k0 ≤ k ≤ String.length path)%nat →
  (∀ j c, (k0 ≤ j)%nat → String.get j path = Some c →
          c ≠ "."%char ∧ IsPathSeparator c = false) →
  filepath.Ext_loop IsPathSeparator k path
  = filepath.Ext_loop IsPathSeparator k0 path.
Proof.
  intros [Hk0 Hk] Hskip. induction k as [|k IH]; [by replace k0 with O by lia|].
  destruct (decide (k0 = S k)) as [->|]; [done|]. simpl.
  destruct (get_lt k path ltac:(lia)) as [c Hget]. rewrite Hget.
  destruct (Hskip k c ltac:(lia) Hget) as [Hdot ->].
  rewrite bool_decide_eq_false_2 by done. apply IH; lia.
Qed.

(** The extension of a name put together from a stem and an extension. *)
Lemma Ext_joined name ext :
  IsPathSeparator "." = false → occurs "." ext = false → no_sep ext = true →
  Ext (name +:+ "." +:+ ext) = "." +:+ ext.
Proof.
  intros Hdot Hocc Hsep. unfold filepath.Ext.
  set (path := name +:+ "." +:+ ext).
  assert (String.length path = S (String.length name + String.length ext)) as Hlen.
  { unfold path. rewrite !length_app. simpl. lia. }
  rewrite (Ext_loop_skip path (S (String.length name))).
  - simpl. unfold path at 1.
    rewrite <- (Nat.add_0_r (String.length name)), get_app_r. simpl.
    rewrite Hdot, Nat.add_0_r. unfold path. apply strdrop_app_length.
  - lia.
  - intros j c Hj Hget. unfold path in Hget.
    replace j with (String.length (name +:+ ".") + (j - S (String.length name)))%nat
      in Hget by (rewrite length_app; simpl; lia).
    rewrite <- app_assoc, get_app_r in Hget. split.
    + intros ->. by apply (occurs_get _ _ _ Hocc) in Hget.
    + apply (all_bytes_get _ _ _ _ Hsep) in Hget. by apply negb_true_iff.
Qed.

(** Conversely, a name with an extension splits at its last dot. *)
Lemma Ext_loop_found k path :
  (k ≤ String.length path)%nat →
  filepath.Ext_loop IsPathSeparator k path = ""
  ∨ ∃ i, (i < k)%nat
       ∧ filepath.Ext_loop IsPathSeparator k path = strdrop i path
       ∧ String.get i path = Some "."%char
       ∧ IsPathSeparator "." = false
       ∧ ∀ j c, (i < j < k)%nat → String.get j path = Some c →
                 c ≠ "."%char ∧ IsPathSeparator c = false.
Proof.
  induction k as [|k IH]; intros Hk; [by left|]. simpl.
  destruct (String.get k path) as [c|] eqn:Hget; [|by left].
  destruct (IsPathSeparator c) eqn:Hsep; [by left|].
  case_bool_decide as Hdot.
  - right. subst c. exists k. repeat (split; [done || lia|]). lia.
  - destruct IH as [->|(i & Hi & -> & Hgi & Hsd & Hafter)]; [lia|by left|].
    right. exists i. split; [lia|]. do 3 (split; [done|]).
    intros j c' Hj Hc'. destruct (decide (j = k)) as [->|].
    + assert (c' = c) as -> by congruence. done.
    + apply (Hafter j); [lia|done].
Qed.

Lemma Ext_split path :
  Ext path ≠ "" →
  ∃ name ext, path = name +:+ "." +:+ ext ∧ Ext path = "." +:+ ext
    ∧ IsPathSeparator "." = false ∧ occurs "." ext = false ∧ no_sep ext = true.
Proof.
  unfold filepath.Ext. intros Hne.
  destruct (Ext_loop_found (String.length path) path)
    as [?|(i & Hi & HE & Hgi & Hsd & Hafter)]; [lia|done|].
  destruct (get_drop _ _ _ Hgi) as [e He].
  assert (e = strdrop (S i) path) as Hedrop.
  { replace (S i) with (i + 1)%nat by lia. by rewrite <- strdrop_strdrop, He. }
  exists (strtake i path), e. rewrite HE, He. split.
  { change ("." +:+ e) with (String "." e). rewrite <- He. symmetry.
    apply strtake_strdrop. }
  split; [done|]. split; [done|]. rewrite Hedrop. split.
  - apply occurs_strdrop. intros j Hj Hget.
    pose proof (get_Some_lt _ _ _ Hget).
    by destruct (Hafter j "."%char ltac:(lia) Hget).
  - apply all_bytes_strdrop. intros j c Hj Hget.
    pose proof (get_Some_lt _ _ _ Hget).
    destruct (Hafter j c ltac:(lia) Hget) as [_ ->]. done.
Qed.

Lemma Ext_no_dot s : occurs "." s = false → Ext s = "".
Proof.
  intros Hocc. destruct (decide (Ext s = "")) as [|Hne]; [done|].
  apply Ext_nonempty_iff in Hne as (i & Hget & _).
  by apply (occurs_get _ _ _ Hocc) in Hget.
Qed.

Lemma TrimSuffix_app name suffix :
  strings.TrimSuffix (name +:+ suffix) suffix = name.
Proof.
  rewrite <- (strdrop_app_length name suffix) at 2.
  rewrite TrimSuffix_strdrop by (rewrite length_app; lia).
  apply strtake_app_length.
Qed.

Lemma TrimSuffix_empty s : strings.TrimSuffix s "" = s.
Proof. rewrite <- (app_empty_r s) at 1. apply TrimSuffix_app. Qed.

Lemma GetFileExt_of_Ext path ext σ :
  Ext path = "." +:+ ext → occurs "." ext = false →
  result (GetFileExt IsPathSeparator path) σ = ext.
Proof.
  intros HE Hocc. unfold result, GetFileExt, mret, M_ret, fst.
  rewrite HE, ReplaceAll_byte. change ("." +:+ ext) with (String "." ext).
  simpl. by rewrite app_empty_l, subst_byte_empty_absent.
Qed.

(** X1. Joining and splitting again: when the dot is not a path separator
    and [ext] holds neither a dot nor a path separator, the file name
    [name.ext] has [name] for [GetFilenameWithoutExtension] and [ext] for
    [GetFileExt], whatever [name] is (dots and directories included). *)
Theorem split_of_joined (name ext : string) (σ : Globals) :
  IsPathSeparator "." = false →
  occurs "." ext = false →
  no_separator IsPathSeparator ext = true →
  result (GetFilenameWithoutExtension IsPathSeparator (name +:+ "." +:+ ext)) σ
  = name
  ∧ result (GetFileExt IsPathSeparator (name +:+ "." +:+ ext)) σ = ext.
Proof.
  intros Hdot Hocc Hsep. pose proof (Ext_joined name ext Hdot Hocc Hsep) as HE.
  split; [|by apply GetFileExt_of_Ext].
  unfold result, GetFilenameWithoutExtension, mret, M_ret, fst. rewrite HE.
  apply TrimSuffix_app.
Qed.

(** X2. The result of [GetFileExt] never holds a dot or a path separator;
    so [GetFileExt] of it is empty, and [GetFilenameWithoutExtension] of it
    is itself. *)
Theorem GetFileExt_clean (filename : string) (σ : Globals) :
  let ext := result (GetFileExt IsPathSeparator filename) σ in
  occurs "." ext = false
  ∧ no_separator IsPathSeparator ext = true
  ∧ result (GetFileExt IsPathSeparator ext) σ = ""
  ∧ result (GetFilenameWithoutExtension IsPathSeparator ext) σ = ext.
Proof.
  intros ext.
  assert (occurs "." ext = false ∧ no_sep ext = true) as [Hocc Hsep].
  { subst ext. destruct (decide (Ext filename = "")) as [HE|Hne].
    - unfold result, GetFileExt, mret, M_ret, fst. by rewrite HE.
    - destruct (Ext_split filename Hne) as (name & e & _ & HE & _ & Hocc & Hsep).
      by rewrite (GetFileExt_of_Ext filename e σ HE Hocc). }
  split; [done|]. split; [done|].
  unfold result, GetFileExt, GetFilenameWithoutExtension, mret, M_ret, fst.
  rewrite (Ext_no_dot ext Hocc). split; [done|]. apply TrimSuffix_empty.
Qed.

(** X3. [GetFilenameWithoutExtension(filename)] followed by
    [filepath.Ext(filename)] is [filename]; it returns [filename] unchanged
    exactly when the final path element has no dot ([filepath.Ext] is
    empty), and it is never longer than [filename]. *)
Theorem stem_and_extension (filename : string) (σ : Globals) :
  let stem := result (GetFilenameWithoutExtension IsPathSeparator filename) σ in
  stem +:+ filepath.Ext IsPathSeparator filename = filename
  ∧ (stem = filename ↔ filepath.Ext IsPathSeparator filename = "")
  ∧ (String.length stem ≤ String.length filename)%nat.
Proof.
  intros stem. subst stem.
  unfold result, GetFilenameWithoutExtension, mret, M_ret, fst.
  destruct (decide (Ext filename = "")) as [HE|Hne].
  - rewrite HE, TrimSuffix_empty, app_empty_r. done.
  - destruct (Ext_split filename Hne) as (name & e & Hpath & HE & _).
    rewrite HE. clear HE Hne. subst filename. rewrite TrimSuffix_app.
    split; [done|]. split.
    + split; [|done]. intros Heq.
      assert (String.length name = String.length (name +:+ "." +:+ e)) as Hlen
        by (by rewrite <- Heq).
      rewrite !length_app in Hlen. simpl in Hlen. lia.
    + rewrite !length_app. lia.
Qed.

(** X4. [GetFileExt(filename)] is the empty string exactly when the final
    path element has no dot, or [filename] ends with its last dot
    ([filepath.Ext] is "."). *)
Theorem GetFileExt_empty_iff (filename : string) (σ : Globals) :
  result (GetFileExt IsPathSeparator filename) σ = ""
  ↔ filepath.Ext IsPathSeparator filename = ""
    ∨ filepath.Ext IsPathSeparator filename = ".".
Proof.
  destruct (decide (Ext filename = "")) as [HE|Hne].
  - unfold result, GetFileExt, mret, M_ret, fst. rewrite HE. split; [by left|done].
  - destruct (Ext_split filename Hne) as (name & e & _ & HE & _ & Hocc & _).
    rewrite (GetFileExt_of_Ext filename e σ HE Hocc), HE. split.
    + intros ->. by right.
    + intros [?|Heq]; [done|]. by injection Heq.
Qed.

End ExtensionSplit.

Lemma split_of_joined_witness :
  filepath.IsPathSeparator_unix "." = false
  ∧ occurs "." "gz" = false
  ∧ no_separator filepath.IsPathSeparator_unix "gz" = true
  ∧ result (GetFilenameWithoutExtension filepath.IsPathSeparator_unix
              ("dir.d/a.tar" +:+ "." +:+ "gz")) init = "dir.d/a.tar"
  ∧ result (GetFileExt filepath.IsPathSeparator_unix
              ("dir.d/a.tar" +:+ "." +:+ "gz")) init = "gz".
Proof.
  do 3 (split; [reflexivity|]).
  apply (split_of_joined filepath.IsPathSeparator_unix "dir.d/a.tar" "gz" init);
    reflexivity.
Defined.

(** * More on [EscapeFilename] *)

Section EscapeMore.
Variable IsPathSeparator : ascii → bool.

Lemma strmap_app f (s t : string) : strmap f (s +:+ t) = strmap f s +:+ strmap f t.
Proof. induction s as [|c s IH]; [done|]. rewrite app_cons. simpl. by rewrite IH. Qed.

Lemma occurs_strmap_back f x s :
  (∀ c, f c = x → c = x) → occurs x s = false → occurs x (strmap f s) = false.
Proof.
  intros Hf. induction s as [|c s IH]; [done|]. simpl.
  intros [Hc Hs]%orb_false_elim. apply bool_decide_eq_false in Hc.
  rewrite IH by done. rewrite bool_decide_eq_false_2; [done|]. intros Heq.
  by apply Hf in Heq.
Qed.

Lemma all_bytes_strmap P f s :
  (∀ c, P c = true → P (f c) = true) →
  all_bytes P s = true → all_bytes P (strmap f s) = true.
Proof.
  intros Hf. induction s as [|c s IH]; [done|]. simpl.
  intros [Hc Hs]%andb_prop. by rewrite Hf, IH.
Qed.

Lemma escape_byte_dot c : escape_byte c = "."%char → c = "."%char.
Proof. unfold escape_byte. repeat case_bool_decide; congruence. Qed.

Lemma escape_byte_fixed c :
  escape_byte c = c ↔ c ≠ "/"%char ∧ c ≠ "\"%char.
Proof. unfold escape_byte. repeat case_bool_decide; subst; split; try done; intros []; done. Qed.

Lemma strmap_fixed f s :
  strmap f s = s ↔ all_bytes (λ c, bool_decide (f c = c)) s = true.
Proof.
  induction s as [|c s IH]; [done|]. simpl. rewrite andb_true_iff, <- IH.
  rewrite bool_decide_eq_true. split; [by intros [= -> ->]|by intros [-> ->]].
Qed.

Lemma all_bytes_not_occurs P c s :
  (∀ c', P c' = true → c' ≠ c) → all_bytes P s = true → occurs c s = false.
Proof.
  intros HP. induction s as [|c' s IH]; [done|]. simpl.
  intros [Hc Hs]%andb_prop. rewrite IH by done.
  rewrite bool_decide_eq_false_2; [done|]. by apply HP.
Qed.

Lemma all_bytes_of_not_occurs (P : ascii → bool) s :
  (∀ c, P c = false → c = "/"%char ∨ c = "\"%char) →
  occurs "/" s = false → occurs "\" s = false → all_bytes P s = true.
Proof.
  intros HP. induction s as [|c s IH]; [done|]. simpl.
  intros [H1 Hs1]%orb_false_elim [H2 Hs2]%orb_false_elim.
  apply bool_decide_eq_false in H1, H2. rewrite IH by done.
  destruct (P c) eqn:Hc; [done|]. by destruct (HP c Hc).
Qed.

(** X5. Escaping commutes with splitting: when the colon is not a path
    separator and [filename] has an extension, [GetFileExt] of the escaped
    name is the escaped [GetFileExt], and likewise for
    [GetFilenameWithoutExtension]. *)
Theorem escape_keeps_extension (filename : string) (σ : Globals) :
  IsPathSeparator ":" = false →
  filepath.Ext IsPathSeparator filename ≠ "" →
  result (GetFileExt IsPathSeparator (result (EscapeFilename filename) σ)) σ
  = result (EscapeFilename (result (GetFileExt IsPathSeparator filename) σ)) σ
  ∧ result (GetFilenameWithoutExtension IsPathSeparator
              (result (EscapeFilename filename) σ)) σ
    = result (EscapeFilename
                (result (GetFilenameWithoutExtension IsPathSeparator filename) σ)) σ.
Proof.
  intros Hcolon Hne.
  destruct (Ext_split IsPathSeparator filename Hne)
    as (name & e & Hpath & HE & Hdot & Hocc & Hsep).
  rewrite (GetFileExt_of_Ext IsPathSeparator filename e σ HE Hocc).
  assert (result (GetFilenameWithoutExtension IsPathSeparator filename) σ = name)
    as ->.
  { unfold result, GetFilenameWithoutExtension, mret, M_ret, fst.
    rewrite HE. clear HE Hne. subst filename. apply TrimSuffix_app. }
  rewrite !EscapeFilename_strmap. subst filename.
  rewrite !strmap_app. change (strmap escape_byte ".") with ".".
  assert (occurs "." (strmap escape_byte e) = false) as Hocc'
    by (apply occurs_strmap_back; [apply escape_byte_dot|done]).
  assert (no_separator IsPathSeparator (strmap escape_byte e) = true) as Hsep'.
  { apply all_bytes_strmap; [|done]. intros c Hc. unfold escape_byte.
    repeat case_bool_decide; by rewrite ?Hcolon. }
  pose proof (Ext_joined IsPathSeparator (strmap escape_byte name)
                (strmap escape_byte e) Hdot Hocc' Hsep') as HE'.
  split; [by apply GetFileExt_of_Ext|].
  unfold result, GetFilenameWithoutExtension, mret, M_ret, fst. rewrite HE'.
  apply TrimSuffix_app.
Qed.

(** X6. [EscapeFilename] of a concatenation is the concatenation of the
    escaped parts, and it returns a name unchanged exactly when the name
    holds neither a slash nor a backslash. *)
Theorem EscapeFilename_concat_and_fixed (a b filename : string) (σ : Globals) :
  result (EscapeFilename (a +:+ b)) σ
  = result (EscapeFilename a) σ +:+ result (EscapeFilename b) σ
  ∧ (result (EscapeFilename filename) σ = filename
     ↔ occurs "/" filename = false ∧ occurs "\" filename = false).
Proof.
  rewrite !EscapeFilename_strmap. split; [apply strmap_app|].
  rewrite strmap_fixed. split.
  - intros Hall. split.
    + apply (all_bytes_not_occurs _ _ _) with (2 := Hall).
      intros c Hc%bool_decide_eq_true. by apply escape_byte_fixed in Hc as [? _].
    + apply (all_bytes_not_occurs _ _ _) with (2 := Hall).
      intros c Hc%bool_decide_eq_true. by apply escape_byte_fixed in Hc as [_ ?].
  - intros [H1 H2]. apply all_bytes_of_not_occurs; [|done..].
    intros c Hc%bool_decide_eq_false.
    destruct (decide (c = "/"%char)) as [|Hn1]; [by left|].
    destruct (decide (c = "\"%char)) as [|Hn2]; [by right|].
    destruct Hc. by apply escape_byte_fixed.
Qed.

End EscapeMore.

(** * The separators of the platform *)

Section Separators.

Lemma Ext_loop_separators (sep1 sep2 : ascii → bool) path k :
  (∀ i c, String.get i path = Some c → sep1 c = sep2 c) →
  filepath.Ext_loop sep1 k path = filepath.Ext_loop sep2 k path.
Proof.
  intros Hsep. induction k as [|k IH]; [done|]. simpl.
  destruct (String.get k path) as [c|] eqn:Hget; [|done].
  by rewrite (Hsep k c Hget), IH.
Qed.

Lemma Ext_unix_windows path :
  occurs "\" path = false →
  filepath.Ext filepath.IsPathSeparator_windows path
  = filepath.Ext filepath.IsPathSeparator_unix path.
Proof.
  intros Hocc. apply Ext_loop_separators. intros i c Hget.
  unfold filepath.IsPathSeparator_windows, filepath.IsPathSeparator_unix.
  rewrite (bool_decide_eq_false_2 (c = "\"%char)); [apply orb_false_r|].
  intros ->. by apply (occurs_get _ _ _ Hocc) in Hget.
Qed.

(** X14. On a file name without a backslash, [GetFileExt] and
    [GetFilenameWithoutExtension] return the same with the separators of
    Windows as with those of Unix. *)
Theorem same_on_unix_and_windows (filename : string) (σ : Globals) :
  occurs "\" filename = false →
  result (GetFileExt filepath.IsPathSeparator_windows filename) σ
  = result (GetFileExt filepath.IsPathSeparator_unix filename) σ
  ∧ result (GetFilenameWithoutExtension filepath.IsPathSeparator_windows filename) σ
    = result (GetFilenameWithoutExtension filepath.IsPathSeparator_unix filename) σ.
Proof.
  intros Hocc. unfold result, GetFileExt, GetFilenameWithoutExtension, mret, M_ret, fst.
  by rewrite (Ext_unix_windows filename Hocc).
Qed.

Lemma occurs_get_iff c s : occurs c s = true ↔ ∃ i, String.get i s = Some c.
Proof.
  split.
  - rewrite <- (strdrop_0 s) at 1. intros (j & _ & Hj)%occurs_strdrop_get. by exists j.
  - intros [i Hget]. destruct (occurs c s) eqn:Hocc; [done|].
    by apply (occurs_get _ _ _ Hocc) in Hget.
Qed.

Lemma occurs_escape_dot s : occurs "." (strmap escape_byte s) = occurs "." s.
Proof.
  induction s as [|c s IH]; [done|]. simpl. rewrite IH. f_equal.
  unfold escape_byte. repeat case_bool_decide; congruence.
Qed.

(** X15. With slash and backslash the only possible separators: after
    [EscapeFilename] a name has an extension exactly when it holds a dot
    anywhere, also in a directory part, whereas before it the dot must be
    in the final path element. *)
Theorem extension_after_escape (IsPathSeparator : ascii → bool)
    (filename : string) (σ : Globals) :
  (∀ c, IsPathSeparator c = true → c = "/"%char ∨ c = "\"%char) →
  (filepath.Ext IsPathSeparator (result (EscapeFilename filename) σ) ≠ ""
   ↔ occurs "." filename = true)
  ∧ (filepath.Ext IsPathSeparator filename ≠ "" → occurs "." filename = true).
Proof.
  intros Hsep. rewrite EscapeFilename_strmap. split.
  - rewrite (Ext_nonempty_iff IsPathSeparator), <- occurs_escape_dot, occurs_get_iff.
    split; [intros (i & Hget & _); by exists i|].
    intros [i Hget]. exists i. split; [done|]. intros j c _ Hc.
    destruct (IsPathSeparator c) eqn:Hs; [|done]. exfalso.
    rewrite get_strmap in Hc. destruct (String.get j filename) as [c'|]; [|done].
    injection Hc as <-.
    destruct (Hsep _ Hs) as [Heq|Heq];
      [by apply escape_byte_not_slash in Heq|by apply escape_byte_not_backslash in Heq].
  - intros (i & Hget & _)%Ext_nonempty_iff. apply occurs_get_iff. by exists i.
Qed.

End Separators.

Lemma same_on_unix_and_windows_witness :
  occurs "\" "dir.d/report.docx" = false
  ∧ result (GetFileExt filepath.IsPathSeparator_windows "dir.d/report.docx") init
    = result (GetFileExt filepath.IsPathSeparator_unix "dir.d/report.docx") init.
Proof.
  split; [reflexivity|].
  apply (same_on_unix_and_windows "dir.d/report.docx" init). reflexivity.
Defined.

Lemma extension_after_escape_witness :
  filepath.Ext filepath.IsPathSeparator_unix
    (result (EscapeFilename "a.b/c") init) ≠ ""
  ∧ filepath.Ext filepath.IsPathSeparator_unix "a.b/c" = "".
Proof.
  split; [|reflexivity].
  apply (extension_after_escape filepath.IsPathSeparator_unix "a.b/c" init);
    [|reflexivity].
  intros c. unfold filepath.IsPathSeparator_unix. rewrite bool_decide_eq_true. tauto.
Defined.

(** * More on the classification *)

Section ClassificationMore.
Import utf8.
Variable To_LowerCase : Z → Z.

Local Abbreviation ToLower := (strings.ToLower To_LowerCase).
Local Abbreviation lower := (unicode.ToLower To_LowerCase).

(** ** ASCII extensions: no assumption on the Unicode tables *)

Lemma scanASCII_all_ascii s h :
  all_ascii s = true → ∃ h', strings.scanASCII s h = (true, h').
Proof.
  revert h. induction s as [|c s IH]; intros h; [by eexists|]. simpl.
  intros [Hc Hs]%andb_prop. apply Z.ltb_lt in Hc.
  destruct (Z.leb_spec RuneSelf (Z_of_byte c)); [lia|]. by apply IH.
Qed.

Lemma lowerASCII_no_upper s h :
  strings.scanASCII s h = (true, false) → strings.lowerASCII s = s.
Proof.
  revert h. induction s as [|c s IH]; intros h; [done|]. simpl.
  destruct (RuneSelf <=? Z_of_byte c); [done|]. intros Hscan.
  destruct (h || strings.isUpperByte (Z_of_byte c)) eqn:Hh.
  { by pose proof (scanASCII_hasUpper _ _ _ Hscan eq_refl). }
  apply orb_false_elim in Hh as [_ ->]. by rewrite (IH _ Hscan).
Qed.

Lemma ToLower_all_ascii s : all_ascii s = true → ToLower s = strings.lowerASCII s.
Proof.
  intros Hs. unfold strings.ToLower.
  destruct (scanASCII_all_ascii s false Hs) as [h' Hscan]. rewrite Hscan.
  destruct h'; [done|]. simpl. symmetry. by apply (lowerASCII_no_upper s false).
Qed.

(** X7. Two ASCII extensions that differ in the case of their letters
    only are classified alike by all six operations, in every store and
    under any Unicode case table. *)
Theorem ascii_case_variants (e1 e2 : string) (σ : Globals) :
  all_ascii e1 = true → all_ascii e2 = true →
  strings.lowerASCII e1 = strings.lowerASCII e2 →
  result (IsExtensionSupported To_LowerCase e1) σ
    = result (IsExtensionSupported To_LowerCase e2) σ
  ∧ result (IsExtensionEditable To_LowerCase e1) σ
    = result (IsExtensionEditable To_LowerCase e2) σ
  ∧ result (IsExtensionViewOnly To_LowerCase e1) σ
    = result (IsExtensionViewOnly To_LowerCase e2) σ
  ∧ result (IsExtensionLossEditable To_LowerCase e1) σ
    = result (IsExtensionLossEditable To_LowerCase e2) σ
  ∧ result (IsExtensionOOXMLConvertable To_LowerCase e1) σ
    = result (IsExtensionOOXMLConvertable To_LowerCase e2) σ
  ∧ result (GetFileType To_LowerCase e1) σ
    = result (GetFileType To_LowerCase e2) σ.
Proof.
  intros H1 H2 Heq.
  assert (ToLower e1 = ToLower e2) as Hlow
    by (by rewrite !ToLower_all_ascii, Heq).
  rewrite !IsExtensionSupported_eq, !IsExtensionEditable_eq, !IsExtensionViewOnly_eq,
    !IsExtensionLossEditable_eq, !IsExtensionOOXMLConvertable_eq.
  rewrite !GetFileType_source_order. unfold GetFileType_in_order.
  by rewrite Hlow.
Qed.

(** ** [GetFileType] and the table that holds the key *)

Lemma GetFileType_found e var v :
  var ∈ source_order → var init !! ToLower e = Some v →
  result (GetFileType To_LowerCase e) init = (v, None).
Proof.
  intros Hin Hv. rewrite GetFileType_source_order. unfold GetFileType_in_order.
  destruct tables_init_disjoint as (D1 & D2 & D3 & D4 & D5 & D6).
  apply (lookup_in_order_found source_order _ init var v Hin Hv).
  intros var' v' Hin' Hv'.
  by apply (source_order_unique init var var' (ToLower e) v v').
Qed.

Lemma source_order_elems :
  OnlyofficeEditableExtensions ∈ source_order
  ∧ OnlyofficeOOXMLEditableExtensions ∈ source_order
  ∧ OnlyofficeDataLossEditableExtensions ∈ source_order
  ∧ OnlyofficeViewOnlyExtensions ∈ source_order.
Proof. unfold source_order. repeat split; set_solver. Qed.

(** X8. [GetFileType] returns the category stored in the table that holds
    the lower-cased extension, for each of the four tables, with a nil
    error. *)
Theorem GetFileType_of_table (e : string) (v : string) :
  (OnlyofficeEditableExtensions init !! ToLower e = Some v →
   result (GetFileType To_LowerCase e) init = (v, None))
  ∧ (OnlyofficeOOXMLEditableExtensions init !! ToLower e = Some v →
     result (GetFileType To_LowerCase e) init = (v, None))
  ∧ (OnlyofficeDataLossEditableExtensions init !! ToLower e = Some v →
     result (GetFileType To_LowerCase e) init = (v, None))
  ∧ (OnlyofficeViewOnlyExtensions init !! ToLower e = Some v →
     result (GetFileType To_LowerCase e) init = (v, None)).
Proof.
  destruct source_order_elems as (H1 & H2 & H3 & H4).
  split; [apply (GetFileType_found e _ v H1)|].
  split; [apply (GetFileType_found e _ v H2)|].
  split; [apply (GetFileType_found e _ v H3)|apply (GetFileType_found e _ v H4)].
Qed.

Lemma view_only_values :
  map_Forall (λ _ v, v = "word") (OnlyofficeViewOnlyExtensions init).
Proof. apply (bool_decide_unpack _). vm_compute. reflexivity. Qed.

(** X9. Every extension that [IsExtensionViewOnly] accepts has the type
    "word". *)
Theorem view_only_is_word (e : string) :
  result (IsExtensionViewOnly To_LowerCase e) init = true →
  result (GetFileType To_LowerCase e) init = ("word", None).
Proof.
  rewrite IsExtensionViewOnly_eq. intros [v Hv]%comma_ok_exists.
  destruct source_order_elems as (_ & _ & _ & H4).
  rewrite (GetFileType_found e _ v H4 Hv).
  by rewrite (view_only_values _ _ Hv).
Qed.

End ClassificationMore.

(** * What [ToLower] keeps at the head of a string *)

Section ToLowerHead.
Import utf8.
Variable f : Z → Z.

(** The buffer of the first loop of [Map] starts with what was read. *)
Lemma Map_head_prefix fuel s i rest b s' :
  0 ≤ i → strings.Map_head f fuel s i rest = Some (b, s') →
  ∃ x, b = slice_to s i +:+ x.
Proof.
  revert i rest. induction fuel as [|fuel IH]; intros i rest Hi; [done|]. simpl.
  destruct (len rest <? 1) eqn:Hlen; [done|].
  assert (rest ≠ "") as Hne by (intros ->; done).
  destruct (DecodeRuneInString rest) as [c w] eqn:Hdec.
  destruct (Decode_shape rest c w Hne Hdec) as (_ & Hw & _).
  assert (strings.Map_head f fuel s (i + w) (slice_from rest w) = Some (b, s') →
          ∃ x, b = slice_to s i +:+ x) as Hcontinue.
  { intros (x & ->)%IH; [|lia]. rewrite slice_to_add, app_assoc by lia. by eexists. }
  assert (∀ r t, Some (if 0 <=? r then AppendRune (slice_to s i) r else slice_to s i, t)
                 = Some (b, s') → ∃ x, b = slice_to s i +:+ x) as Hbreak.
  { intros r t [= <- _]. destruct (0 <=? r).
    - rewrite AppendRune_app. by eexists.
    - exists "". by rewrite app_empty_r. }
  destruct ((f c =? c) && negb (c =? RuneError)); [done|].
  destruct (if c =? RuneError then DecodeRuneInString (slice_from s i)
            else (c, RuneLen c)) as [c' width].
  destruct ((c =? RuneError) && negb (width =? 1) && (f c =? c')); [done|].
  apply Hbreak.
Qed.

Lemma Map_head_byte c t :
  Z_of_byte c < RuneSelf → f (Z_of_byte c) = Z_of_byte c →
  ∃ t', strings.Map f (String c t) = String c t'.
Proof.
  intros Hc Hfix. pose proof (Z_of_byte_range c) as Hr. unfold RuneSelf in Hc.
  unfold strings.Map. cbn [String.length strings.Map_head].
  destruct (len (String c t) <? 1) eqn:Hlen; [by eexists|].
  assert (DecodeRuneInString (String c t) = (Z_of_byte c, 1)) as ->.
  { change (String c t) with (String c "" +:+ t). rewrite <- bytes1_index.
    apply Decode_bytes1. lia. }
  rewrite Hfix, Z.eqb_refl.
  destruct (Z.eqb_spec (Z_of_byte c) RuneError); [unfold RuneError in *; lia|].
  cbn [andb negb].
  destruct (strings.Map_head f _ _ _ _) as [[b s']|] eqn:Hhead; [|by eexists].
  apply Map_head_prefix in Hhead as [x ->]; [|lia].
  rewrite Map_tail_app. change (slice_to (String c t) (0 + 1)) with (String c "").
  rewrite !app_cons. by eexists.
Qed.

End ToLowerHead.

Section RawExtension.
Import utf8.
Variable To_LowerCase : Z → Z.
Variable IsPathSeparator : ascii → bool.

Local Abbreviation ToLower := (strings.ToLower To_LowerCase).

Lemma ToLower_head c t :
  Z_of_byte c < RuneSelf → strings.isUpperByte (Z_of_byte c) = false →
  ∃ t', ToLower (String c t) = String c t'.
Proof.
  intros Hc Hu. unfold strings.ToLower.
  destruct (strings.scanASCII (String c t) false) as [[] hasUpper].
  - destruct hasUpper; simpl; [|by eexists]. rewrite Hu. by eexists.
  - apply Map_head_byte; [done|].
    rewrite lower_ascii by (unfold RuneSelf, unicode.MaxASCII in *; lia).
    by rewrite Hu.
Qed.

Lemma no_key_starts_with_dot :
  Forall (map_Forall (λ k _, starts_with "." k = false ∧ k ≠ "")) (tables init).
Proof. apply (bool_decide_unpack _). vm_compute. reflexivity. Qed.

Lemma not_a_key k var :
  k = "" ∨ starts_with "." k = true →
  var ∈ source_order → var init !! k = None.
Proof.
  intros Hk Hin. destruct (var init !! k) as [v|] eqn:Hv; [|done]. exfalso.
  pose proof no_key_starts_with_dot as HF. rewrite Forall_forall in HF.
  destruct (HF (var init) (source_order_tables init var Hin) k v Hv) as [Hdot Hne].
  destruct Hk as [?|Hk]; [done|congruence].
Qed.

Lemma unsupported_key e :
  (∀ var, var ∈ source_order → var init !! ToLower e = None) →
  result (IsExtensionSupported To_LowerCase e) init = false
  ∧ result (GetFileType To_LowerCase e) init
    = ("", Some (ErrOnlyofficeExtensionNotSupported init)).
Proof.
  intros Hnone. destruct source_order_elems as (H1 & H2 & H3 & H4). split.
  - rewrite IsExtensionSupported_eq.
    rewrite !(proj2 (comma_ok_absent _ _)); [done|by apply Hnone..].
  - rewrite GetFileType_source_order. by apply lookup_in_order_absent.
Qed.

Lemma ToLower_dot t : ∃ t', ToLower (String "." t) = String "." t'.
Proof. by apply ToLower_head. Qed.

(** X10. What [filepath.Ext] returns is never a supported extension: for
    the raw extension of any file name, for any string that starts with
    a dot, and for the empty string, [IsExtensionSupported] is false and
    [GetFileType] returns [("", ErrOnlyofficeExtensionNotSupported)]. *)
Theorem raw_Ext_unsupported (filename rest : string) :
  (result (IsExtensionSupported To_LowerCase
             (filepath.Ext IsPathSeparator filename)) init = false
   ∧ result (GetFileType To_LowerCase (filepath.Ext IsPathSeparator filename)) init
     = ("", Some (ErrOnlyofficeExtensionNotSupported init)))
  ∧ (result (IsExtensionSupported To_LowerCase ("." +:+ rest)) init = false
     ∧ result (GetFileType To_LowerCase ("." +:+ rest)) init
       = ("", Some (ErrOnlyofficeExtensionNotSupported init)))
  ∧ (result (IsExtensionSupported To_LowerCase "") init = false
     ∧ result (GetFileType To_LowerCase "") init
       = ("", Some (ErrOnlyofficeExtensionNotSupported init))).
Proof.
  assert (∀ t, ∀ var, var ∈ source_order →
                      var init !! ToLower (String "." t) = None) as Hdot.
  { intros t var Hin. destruct (ToLower_dot t) as [t' ->].
    apply not_a_key; [by right|done]. }
  assert (∀ var, var ∈ source_order → var init !! ToLower "" = None) as Hempty.
  { intros var Hin. apply not_a_key; [by left|done]. }
  split; [|split; [apply unsupported_key, Hdot|apply unsupported_key, Hempty]].
  destruct (decide (filepath.Ext IsPathSeparator filename = "")) as [->|Hne].
  - apply unsupported_key, Hempty.
  - destruct (Ext_split IsPathSeparator filename Hne) as (_ & e & _ & -> & _).
    apply unsupported_key, Hdot.
Qed.

End RawExtension.

(** * The listed extensions, in any capitalisation *)

Section Listed.
Import utf8.
Variable To_LowerCase : Z → Z.
Variable IsPathSeparator : ascii → bool.

Local Abbreviation ToLower := (strings.ToLower To_LowerCase).

Lemma literal_table l :
  l ∈ literals → ∃ var, var ∈ source_order ∧ var init = list_to_map l ∧ NoDup l.*1.
Proof.
  intros Hl. pose proof literal_keys_NoDup as HN. rewrite Forall_forall in HN.
  specialize (HN l Hl). destruct source_order_elems as (H1 & H2 & H3 & H4).
  unfold literals in Hl. rewrite !elem_of_cons in Hl.
  destruct Hl as [->|[->|[->|[->|Hl]]]]; [..|by inversion Hl].
  - exists OnlyofficeEditableExtensions. by split; [|split].
  - exists OnlyofficeOOXMLEditableExtensions. by split; [|split].
  - exists OnlyofficeDataLossEditableExtensions. by split; [|split].
  - exists OnlyofficeViewOnlyExtensions. by split; [|split].
Qed.

Lemma supported_of_table e var σ :
  var ∈ source_order → is_Some (var σ !! ToLower e) →
  result (IsExtensionSupported To_LowerCase e) σ = true.
Proof.
  intros Hin Hs%comma_ok_exists. rewrite IsExtensionSupported_eq.
  unfold source_order in Hin. rewrite !elem_of_cons in Hin.
  destruct Hin as [->|[->|[->|[->|Hin]]]]; [..|by inversion Hin];
    rewrite Hs; by rewrite ?orb_true_r.
Qed.

Lemma listed_found l k v e :
  l ∈ literals → (k, v) ∈ l → all_ascii e = true → strings.lowerASCII e = k →
  result (GetFileType To_LowerCase e) init = (v, None)
  ∧ result (IsExtensionSupported To_LowerCase e) init = true.
Proof.
  intros Hl Hkv He Hk.
  destruct (literal_table l Hl) as (var & Hin & Hvar & Hnd).
  assert (var init !! ToLower e = Some v) as Hv.
  { rewrite (ToLower_all_ascii To_LowerCase e He), Hk, Hvar.
    by apply elem_of_list_to_map. }
  split; [by apply (GetFileType_found To_LowerCase e var v)|].
  apply (supported_of_table e var init Hin). by eexists.
Qed.

(** X11. Every entry [(k, v)] written in one of the four map literals is
    found in any capitalisation: for an ASCII string [e] whose lower case
    is [k], [GetFileType(e)] returns [(v, nil)] and
    [IsExtensionSupported(e)] is true. *)
Theorem listed_extension (l : list (string * string)) (k v e : string) :
  l ∈ literals → (k, v) ∈ l →
  all_ascii e = true → strings.lowerASCII e = k →
  result (GetFileType To_LowerCase e) init = (v, None)
  ∧ result (IsExtensionSupported To_LowerCase e) init = true.
Proof. apply listed_found. Qed.

(** The keys of the tables are made of lower-case letters and digits. *)
Lemma literal_keys_alnum :
  Forall (λ l, Forall (λ kv, all_bytes is_alnum_lower kv.1 = true) l) literals.
Proof. apply (bool_decide_unpack _). vm_compute. reflexivity. Qed.

Lemma lowerASCII_special c e :
  c = "."%char ∨ c = "/"%char ∨ c = "\"%char →
  all_bytes is_alnum_lower (strings.lowerASCII e) = true → occurs c e = false.
Proof.
  intros Hc. induction e as [|c' e IH]; [done|]. simpl.
  intros [Hc' He]%andb_prop. rewrite IH by done.
  rewrite bool_decide_eq_false_2; [done|]. intros ->.
  destruct Hc as [->|[->| ->]]; vm_compute in Hc'; discriminate.
Qed.

(** X12. Classifying a file by its name: with slash and backslash the only
    possible separators, for a listed entry [(k, v)] and an ASCII spelling
    [e] of [k] in any capitalisation, [GetFileExt] of [stem.e] is [e] and
    [GetFileType] of it is [(v, nil)], whatever the stem. *)
Theorem classify_by_file_name (l : list (string * string))
    (stem e k v : string) :
  (∀ c, IsPathSeparator c = true → c = "/"%char ∨ c = "\"%char) →
  l ∈ literals → (k, v) ∈ l →
  all_ascii e = true → strings.lowerASCII e = k →
  result (GetFileExt IsPathSeparator (stem +:+ "." +:+ e)) init = e
  ∧ result (GetFileType To_LowerCase
              (result (GetFileExt IsPathSeparator (stem +:+ "." +:+ e)) init)) init
    = (v, None).
Proof.
  intros Hsep Hl Hkv He Hk.
  assert (all_bytes is_alnum_lower (strings.lowerASCII e) = true) as Halnum.
  { pose proof literal_keys_alnum as HA. rewrite Forall_forall in HA.
    specialize (HA l Hl). rewrite Forall_forall in HA.
    rewrite Hk. apply (HA (k, v) Hkv). }
  assert (occurs "." e = false) as Hdot by (apply lowerASCII_special; auto).
  assert (occurs "/" e = false) as Hslash by (apply lowerASCII_special; auto).
  assert (occurs "\" e = false) as Hback by (apply lowerASCII_special; auto).
  assert (IsPathSeparator "." = false) as Hsd.
  { destruct (IsPathSeparator ".") eqn:Hs; [|done].
    by destruct (Hsep _ Hs). }
  assert (no_separator IsPathSeparator e = true) as Hns.
  { apply all_bytes_of_not_occurs; [|done..].
    intros c Hc%negb_false_iff. by apply Hsep. }
  assert (result (GetFileExt IsPathSeparator (stem +:+ "." +:+ e)) init = e) as ->.
  { apply GetFileExt_of_Ext; [|done]. by apply Ext_joined. }
  split; [done|]. by apply (listed_found l k v e).
Qed.

End Listed.

Lemma ascii_case_variants_witness :
  all_ascii "DocX" = true ∧ all_ascii "dOCx" = true
  ∧ strings.lowerASCII "DocX" = strings.lowerASCII "dOCx"
  ∧ result (GetFileType Samples.sample_To_LowerCase "DocX") init
    = result (GetFileType Samples.sample_To_LowerCase "dOCx") init.
Proof.
  do 3 (split; [reflexivity|]).
  apply (ascii_case_variants Samples.sample_To_LowerCase "DocX" "dOCx" init);
    reflexivity.
Defined.

Lemma view_only_is_word_witness :
  result (IsExtensionViewOnly Samples.sample_To_LowerCase "PDF") init = true
  ∧ result (GetFileType Samples.sample_To_LowerCase "PDF") init = ("word", None).
Proof.
  split; [vm_compute; reflexivity|].
  apply (view_only_is_word Samples.sample_To_LowerCase "PDF").
  vm_compute. reflexivity.
Defined.

Lemma listed_extension_witness :
  OnlyofficeDataLossEditableExtensions_literal ∈ literals
  ∧ ("csv", "cell") ∈ OnlyofficeDataLossEditableExtensions_literal
  ∧ all_ascii "Csv" = true ∧ strings.lowerASCII "Csv" = "csv"
  ∧ result (GetFileType Samples.sample_To_LowerCase "Csv") init = ("cell", None)
  ∧ result (IsExtensionSupported Samples.sample_To_LowerCase "Csv") init = true.
Proof.
  assert (OnlyofficeDataLossEditableExtensions_literal ∈ literals) as Hl
    by (apply (bool_decide_unpack _); vm_compute; reflexivity).
  assert (("csv", "cell") ∈ OnlyofficeDataLossEditableExtensions_literal) as Hkv
    by (apply (bool_decide_unpack _); vm_compute; reflexivity).
  split; [exact Hl|]. split; [exact Hkv|]. do 2 (split; [reflexivity|]).
  apply (listed_extension Samples.sample_To_LowerCase
           OnlyofficeDataLossEditableExtensions_literal "csv" "cell" "Csv" Hl Hkv);
    reflexivity.
Defined.

Lemma classify_by_file_name_witness :
  result (GetFileExt filepath.IsPathSeparator_windows
            ("C:\docs\report.v2" +:+ "." +:+ "XLSX")) init = "XLSX"
  ∧ result (GetFileType Samples.sample_To_LowerCase
              (result (GetFileExt filepath.IsPathSeparator_windows
                         ("C:\docs\report.v2" +:+ "." +:+ "XLSX")) init)) init
    = ("cell", None).
Proof.
  assert (OnlyofficeEditableExtensions_literal ∈ literals) as Hl
    by (apply (bool_decide_unpack _); vm_compute; reflexivity).
  assert (("xlsx", "cell") ∈ OnlyofficeEditableExtensions_literal) as Hkv
    by (apply (bool_decide_unpack _); vm_compute; reflexivity).
  apply (classify_by_file_name Samples.sample_To_LowerCase
           filepath.IsPathSeparator_windows OnlyofficeEditableExtensions_literal
           "C:\docs\report.v2" "XLSX" "xlsx" "cell"); try done.
  intros c. unfold filepath.IsPathSeparator_windows.
  rewrite orb_true_iff, !bool_decide_eq_true. tauto.
Defined.

(** * [ValidateFileSize] as a function of the limit *)

Section ValidateMore.
Variable IntSize : Z.
Variable http_Head : string → HeadResult.

Local Abbreviation validate ctx limit url σ :=
  (result (ValidateFileSize IntSize http_Head ctx limit url) σ).

(** X13. [ValidateFileSize] is monotone in the limit, for one answer to
    the HEAD request: raising the limit never turns a pass into a failure,
    and a call that fails at the higher limit fails with the same error at
    the lower one. *)
Theorem ValidateFileSize_monotone (ctx : Context) (url : string) (σ : Globals)
    (limit limit' : Z) :
  limit ≤ limit' →
  (validate ctx limit url σ = None → validate ctx limit' url σ = None)
  ∧ (∀ e, validate ctx limit' url σ = Some e → validate ctx limit url σ = Some e).
Proof.
  intros Hle.
  destruct (http_Head url) as [resp|err] eqn:Hhead.
  - rewrite !(ValidateFileSize_result IntSize http_Head ctx _ url resp σ Hhead).
    cbv zeta.
    destruct (strconv.ParseInt_base10 IntSize
                (http.Header_Get (http.Header resp) "Content-Length") 0)
      as [v [e|]]; cbn [fst snd].
    + rewrite bool_decide_eq_true_2 by done. rewrite !orb_true_r.
      split; [done|]. by intros e'.
    + rewrite bool_decide_eq_false_2 by (by intros []). rewrite !orb_false_r.
      destruct (Z.ltb_spec limit v), (Z.ltb_spec limit' v);
        split; try done; try lia.
  - unfold result, ValidateFileSize. rewrite Hhead. split; [done|].
    by intros e.
Qed.

End ValidateMore.

Lemma escape_keeps_extension_witness :
  filepath.IsPathSeparator_unix ":" = false
  ∧ filepath.Ext filepath.IsPathSeparator_unix "dir/a.b\c" ≠ ""
  ∧ result (GetFileExt filepath.IsPathSeparator_unix
              (result (EscapeFilename "dir/a.b\c") init)) init
    = result (EscapeFilename
                (result (GetFileExt filepath.IsPathSeparator_unix "dir/a.b\c") init))
             init.
Proof.
  split; [reflexivity|]. split; [by vm_compute|].
  apply (escape_keeps_extension filepath.IsPathSeparator_unix "dir/a.b\c" init);
    [reflexivity|by vm_compute].
Defined.

Lemma ValidateFileSize_monotone_witness :
  1024 ≤ 2048
  ∧ result (ValidateFileSize 64 Samples.sample_Head context_Background 1024
              "http://files/report.docx") init = None
  ∧ result (ValidateFileSize 64 Samples.sample_Head context_Background 2048
              "http://files/report.docx") init = None.
Proof.
  assert (1024 ≤ 2048) as Hle by lia.
  assert (result (ValidateFileSize 64 Samples.sample_Head context_Background 1024
                    "http://files/report.docx") init = None) as Hpass
    by (vm_compute; reflexivity).
  split; [exact Hle|]. split; [exact Hpass|].
  exact (proj1 (ValidateFileSize_monotone 64 Samples.sample_Head
                  context_Background "http://files/report.docx" init 1024 2048
                  Hle) Hpass).
Defined.
